(** * Symbol Masks: the decoration-decision engine

    A shallow embedding of [src/scoped-document.ts] (the chained per-line
    tokenizer), of [src/mask-controller.ts] (the pattern matcher and the
    decoration resource cache) and of the grammar lookup and the update pass
    of [src/extension.ts], with the parts of the host editor, of the
    grammar library and of the regular-expression engine they call.

    Numbers are integers of [Z]. A string is the sequence of its code units.
    The maps of the source are finite maps; a set that is gone through in
    insertion order is a list without repetition. The objects that the
    methods change (the controller, the window that creates decoration
    types, the pattern with its [lastIndex]) are passed in and returned. A
    call returns, raises, or is cut short by the bound put on its loop. *)

From Stdlib Require Import ZArith Lia ZifyBool Ascii String.
From stdpp Require Import gmap strings list fin_maps.

Local Open Scope Z_scope.

(** ** Strings and truthiness, as the source uses them *)

Module JS.

(** [s.length] *)
Definition length (s : string) : Z := Z.of_nat (String.length s).

(** [s.startsWith(searchString)] *)
Fixpoint startsWith (s searchString : string) {struct searchString} : bool :=
  match searchString, s with
  | EmptyString, _ => true
  | String c p, String d s' => if Ascii.eqb c d then startsWith s' p else false
  | String _ _, EmptyString => false
  end.

Fixpoint drop (n : nat) (s : string) : string :=
  match n, s with
  | O, _ => s
  | S n', String _ s' => drop n' s'
  | S _, EmptyString => EmptyString
  end.

Fixpoint take (n : nat) (s : string) : string :=
  match n, s with
  | S n', String c s' => String c (take n' s')
  | _, _ => EmptyString
  end.

(** [s.substring(start)]: negative starts count as 0. *)
Definition substring (s : string) (start : Z) : string := drop (Z.to_nat start) s.

(** The characters of [s] from [start], at most [len] of them. *)
Definition slice (s : string) (start : Z) (len : nat) : string :=
  take len (drop (Z.to_nat start) s).

(** A string in a condition: [undefined] and the empty string are falsy. *)
Definition truthy (o : option string) : bool :=
  match o with
  | Some (String _ _) => true
  | _ => false
  end.

(** [a || ""] *)
Definition orEmpty (o : option string) : string :=
  match o with
  | Some s => s
  | None => EmptyString
  end.

(** Abrupt and normal completion of a call, and a scan that was cut short
    by the bound put on its iterations. *)
Inductive Outcome (A : Type) : Type :=
| Returns (a : A)
| Throws
| OutOfFuel.
Arguments Returns {A} a.
Arguments Throws {A}.
Arguments OutOfFuel {A}.

End JS.

(** ** The host editor *)

Module Vscode.

Record Position := { line : Z; character : Z }.

Record Range := { start : Position; end_ : Position }.

(** A selection, by its two normalised ends. *)
Record Selection := { sel_start : Position; sel_end : Position }.

Record DecorationOptions := { range : Range; hoverMessage : option string }.

Record ThemableDecorationAttachmentRenderOptions := {
  contentText : option string;
  before_backgroundColor : option string;
  before_border : option string;
  before_borderColor : option string;
  before_color : option string;
  before_fontStyle : option string;
  before_fontWeight : string
}.

Record DecorationRenderOptions := {
  textDecoration : string;
  backgroundColor : option string;
  border : option string;
  borderColor : option string;
  color : option string;
  fontStyle : option string;
  fontWeight : string;
  before : ThemableDecorationAttachmentRenderOptions
}.

(** A decoration type is a handle: the position of its options among the
    types the window has created. *)
Definition TextEditorDecorationType := nat.

Record Window := {
  decorationTypes : list DecorationRenderOptions;
  (** the [editor.cursorStyle] setting *)
  cursorStyle : option string
}.

(** [vscode.window.createTextEditorDecorationType(options)] *)
Definition createTextEditorDecorationType (options : DecorationRenderOptions)
    (w : Window) : TextEditorDecorationType * Window :=
  (List.length (decorationTypes w),
   {| decorationTypes := decorationTypes w ++ [options];
      cursorStyle := cursorStyle w |}).

(** A document is its text; its lines end with a line feed. *)
Record TextDocument := { getText : string }.

Record TextLine := { lineNumber : Z; text : string }.

Definition isNewline (c : ascii) : bool := Ascii.eqb c "010"%char.

Fixpoint splitLines (s : string) : list string :=
  match s with
  | EmptyString => [EmptyString]
  | String c s' =>
      if isNewline c then EmptyString :: splitLines s'
      else match splitLines s' with
           | l :: ls => String c l :: ls
           | [] => [String c EmptyString]
           end
  end.

Definition lineCount (d : TextDocument) : Z :=
  Z.of_nat (List.length (splitLines (getText d))).

(** [document.lineAt(line)]: the host raises for a line that is not in the
    document, which is [None] here. *)
Definition lineAt (d : TextDocument) (n : Z) : option TextLine :=
  if n <? 0 then None
  else match splitLines (getText d) !! Z.to_nat n with
       | Some l => Some {| lineNumber := n; text := l |}
       | None => None
       end.

Fixpoint positionFrom (s : string) (n : nat) : nat * nat :=
  match n, s with
  | S n', String c s' =>
      let '(l, ch) := positionFrom s' n' in
      if isNewline c then (S l, ch)
      else match l with
           | O => (O, S ch)
           | S _ => (l, ch)
           end
  | _, _ => (O, O)
  end.

(** [document.positionAt(offset)]: the offset is brought into the text. *)
Definition positionAt (d : TextDocument) (offset : Z) : Position :=
  let '(l, ch) := positionFrom (getText d) (Z.to_nat offset) in
  {| line := Z.of_nat l; character := Z.of_nat ch |}.

Fixpoint offsetFrom (s : string) (l ch : nat) : nat :=
  match s with
  | EmptyString => O
  | String c s' =>
      match l with
      | O => match ch with
             | O => O
             | S ch' => if isNewline c then O else S (offsetFrom s' O ch')
             end
      | S l' => S (offsetFrom s' (if isNewline c then l' else l) ch)
      end
  end.

(** [document.offsetAt(position)]: the position is brought into the text. *)
Definition offsetAt (d : TextDocument) (p : Position) : Z :=
  if line p <? 0 then 0
  else Z.of_nat (offsetFrom (getText d) (Z.to_nat (line p)) (Z.to_nat (character p))).

(** [document.lineAt(position)]: the line the (valid) position is on. *)
Definition lineAtPosition (d : TextDocument) (p : Position) : TextLine :=
  {| lineNumber := line p;
     text := default EmptyString (splitLines (getText d) !! Z.to_nat (line p)) |}.

Record TextEditor := {
  document : TextDocument;
  selections : list Selection;
  (** the ranges each decoration type currently shows in this editor *)
  decorations : gmap nat (list DecorationOptions)
}.

(** [editor.setDecorations(decorationType, rangesOrOptions)] *)
Definition setDecorations (decorationType : TextEditorDecorationType)
    (options : list DecorationOptions) (e : TextEditor) : TextEditor :=
  {| document := document e;
     selections := selections e;
     decorations := <[decorationType := options]> (decorations e) |}.

End Vscode.

(** ** The grammar library *)

Module Vsctm.

(** The end-of-line state of the tokenizer: the stack of open rules. *)
Definition StackElement := list string.

Record IToken := { startIndex : Z; endIndex : Z; scopes : list string }.

Record ITokenizeLineResult := { tokens : list IToken; ruleStack : StackElement }.

Record IGrammar := {
  tokenizeLine : string -> option StackElement -> ITokenizeLineResult
}.

End Vsctm.

(** ** [src/scoped-document.ts] *)

Module ScopedDocument.
Import Vscode Vsctm.

Record t := {
  document : option TextDocument;
  grammar : option IGrammar;
  grammarState : gmap Z StackElement
}.

Definition setGrammar (g : option IGrammar) (sd : t) : t :=
  {| document := document sd; grammar := g; grammarState := grammarState sd |}.

Definition getDocument (sd : t) : option TextDocument := document sd.

Definition setDocument (d : option TextDocument) (sd : t) : t :=
  {| document := d; grammar := grammar sd; grammarState := grammarState sd |}.

Definition clearGrammar (sd : t) : t :=
  {| document := document sd; grammar := None; grammarState := ∅ |}.

(** [getTokens(lineNumber)]: [Returns None] is [undefined]. *)
Definition getTokens (sd : t) (lineNumber : Z) : JS.Outcome (option (list IToken)) :=
  let prevState := grammarState sd !! (lineNumber - 1) in
  match grammar sd with
  | None => JS.Returns None
  | Some g =>
      match document sd with
      | None => JS.Returns (Some (tokens (tokenizeLine g EmptyString prevState)))
      | Some d =>
          match lineAt d lineNumber with
          | None => JS.Throws
          | Some l => JS.Returns (Some (tokens (tokenizeLine g (text l) prevState)))
          end
      end
  end.

(** The loop of [tokenize] from line [i] on, [lines] being the texts of
    these lines: [for (let i = 0; i < this.document.lineCount; i++)]. *)
Fixpoint tokenizeFrom (g : IGrammar) (lines : list string) (i : Z)
    (state : gmap Z StackElement) : gmap Z StackElement :=
  match lines with
  | [] => state
  | l :: rest =>
      let prevState := state !! (i - 1) in
      let tokens := tokenizeLine g l prevState in
      tokenizeFrom g rest (i + 1) (<[i := ruleStack tokens]> state)
  end.

Definition tokenize (sd : t) : t :=
  let cleared : gmap Z StackElement := ∅ in
  match document sd, grammar sd with
  | Some d, Some g =>
      {| document := document sd; grammar := grammar sd;
         grammarState := tokenizeFrom g (splitLines (getText d)) 0 cleared |}
  | _, _ =>
      {| document := document sd; grammar := grammar sd; grammarState := cleared |}
  end.

(** [new ScopedDocument(document, grammar)] *)
Definition new (d : option TextDocument) (g : option IGrammar) : t :=
  tokenize {| document := d; grammar := g; grammarState := ∅ |}.

End ScopedDocument.

(** ** The regular-expression engine *)

Module RegExp.

(** A pattern with the [g] flag, as [updateMasks] builds every pattern.
    [matcher text i] is the number of characters the pattern matches at
    index [i] of [text], if it matches there. *)
Record t := {
  source : string;
  lastIndex : Z;
  matcher : string -> Z -> option nat
}.

(** The result of a successful [exec]: [matched] is [match[0]]. *)
Record ExecArray := { index : Z; matched : string }.

Definition setLastIndex (i : Z) (r : t) : t :=
  {| source := source r; lastIndex := i; matcher := matcher r |}.

(** The first index from [i], among the next [n], where the pattern matches. *)
Fixpoint search (m : string -> Z -> option nat) (text : string) (i : Z) (n : nat)
    : option (Z * nat) :=
  match n with
  | O => None
  | S n' =>
      match m text i with
      | Some len => Some (i, len)
      | None => search m text (i + 1) n'
      end
  end.

(** [pattern.exec(text)]: the search starts at [lastIndex] and tries every
    index up to the length of the text; a match moves [lastIndex] to its
    end, a failure resets it. *)
Definition exec (r : t) (text : string) : option ExecArray * t :=
  let from := Z.max 0 (lastIndex r) in
  match search (matcher r) text from (Z.to_nat (JS.length text - from + 1)) with
  | None => (None, setLastIndex 0 r)
  | Some (i, len) =>
      (Some {| index := i; matched := JS.slice text i len |},
       setLastIndex (i + Z.of_nat len) r)
  end.

End RegExp.

(** ** [src/mask-controller.ts] *)

(** An entry of [MatchBasedReplace]. *)
Module Replace.
Record t := {
  scope : option string;
  text : string;
  hover : option string;
  backgroundColor : option string;
  border : option string;
  borderColor : option string;
  color : option string;
  fontStyle : option string;
  fontWeight : option string;
  css : option string
}.
End Replace.

Module Mask.

(** [text?: string | MatchBasedReplace] *)
Inductive Text :=
| Undefined
| Literal (s : string)
| MatchBased (replace : gmap string Replace.t).

Record t := {
  text : Text;
  scope : option string;
  hover : option string;
  backgroundColor : option string;
  border : option string;
  borderColor : option string;
  color : option string;
  fontStyle : option string;
  fontWeight : option string;
  css : option string
}.

(** [mask.text] in a condition *)
Definition textTruthy (m : t) : bool :=
  match text m with
  | Undefined => false
  | Literal s => JS.truthy (Some s)
  | MatchBased _ => true
  end.

End Mask.

Module MaskController.
Import Vscode.

Record t := {
  decorationTypeMap : gmap string TextEditorDecorationType;
  scopedDocument : option ScopedDocument.t;
  editor : option TextEditor
}.

(** [new MaskController(editor, scopedDocument)] *)
Definition new (e : option TextEditor) (sd : option ScopedDocument.t) : t :=
  {| decorationTypeMap := ∅; scopedDocument := sd; editor := e |}.

Definition setScopedDocument (sd : option ScopedDocument.t) (this : t) : t :=
  {| decorationTypeMap := decorationTypeMap this;
     scopedDocument := sd; editor := editor this |}.

Definition getEditor (this : t) : option TextEditor := editor this.

Definition setEditor (e : option TextEditor) (this : t) : t :=
  {| decorationTypeMap := decorationTypeMap this;
     scopedDocument := scopedDocument this; editor := e |}.

Definition setDecorationTypeMap (m : gmap string TextEditorDecorationType) (this : t) : t :=
  {| decorationTypeMap := m;
     scopedDocument := scopedDocument this; editor := editor this |}.

(** The loop of [clear] and its like: one [setDecorations] per listed type. *)
Definition clearLoop (entries : list (string * TextEditorDecorationType))
    (e : TextEditor) : TextEditor :=
  foldl (fun e kv => setDecorations kv.2 [] e) e entries.

Definition clear (this : t) : t :=
  {| decorationTypeMap := ∅;
     scopedDocument := scopedDocument this;
     editor := match editor this with
               | Some e => Some (clearLoop (map_to_list (decorationTypeMap this)) e)
               | None => None
               end |}.

(** [mask.fontWeight + (mask.css ? ";" + mask.css : "")] *)
Definition fontWeightCss (fontWeight css : option string) : string :=
  match fontWeight with Some s => s | None => "undefined" end
  +:+ (if JS.truthy css then ";" +:+ JS.orEmpty css else "").

Definition renderOptions (mask : Mask.t) : DecorationRenderOptions :=
  {| textDecoration := if Mask.textTruthy mask then "none; display: none" else "none";
     backgroundColor := Mask.backgroundColor mask;
     border := Mask.border mask;
     borderColor := Mask.borderColor mask;
     color := Mask.color mask;
     fontStyle := Mask.fontStyle mask;
     fontWeight := fontWeightCss (Mask.fontWeight mask) (Mask.css mask);
     before :=
       {| contentText := match Mask.text mask with
                         | Mask.Literal s => Some s
                         | _ => None
                         end;
          before_backgroundColor := Mask.backgroundColor mask;
          before_border := Mask.border mask;
          before_borderColor := Mask.borderColor mask;
          before_color := Mask.color mask;
          before_fontStyle := Mask.fontStyle mask;
          before_fontWeight := fontWeightCss (Mask.fontWeight mask) (Mask.css mask) |} |}.

Definition initialize (id : string) (mask : Mask.t) (this : t) (w : Window) : t * Window :=
  match decorationTypeMap this !! id with
  | Some _ => (this, w)
  | None =>
      let '(decorationType, w') := createTextEditorDecorationType (renderOptions mask) w in
      (setDecorationTypeMap (<[id := decorationType]> (decorationTypeMap this)) this, w')
  end.

(** *** The decision for one match *)

(** The match-based replacement of a match: [mask.text[match[0]]] when
    [mask.text] is a map that has the matched text as a key (a key of its
    own: what an object inherits has no scope, text or hover). *)
Definition matchReplaceOf (mask : Mask.t) (matched : string) : option Replace.t :=
  match Mask.text mask with
  | Mask.MatchBased replace => replace !! matched
  | _ => None
  end.

(** [matchReplace?.scope] *)
Definition replaceScope (matchReplace : option Replace.t) : option string :=
  match matchReplace with
  | Some r => Replace.scope r
  | None => None
  end.

(** The test that reveals the symbol under a selection. *)
Definition reveals (cursorStyle : string) (selectionStart selectionEnd : Z)
    (index len : Z) : bool :=
  if JS.startsWith cursorStyle "line"
  then (selectionEnd >=? index) && (selectionStart <=? index + len)
  else (selectionEnd >=? index - 1) && (selectionStart <=? index + len).

(** The test on one scope of a token, against the scope asked for. *)
Definition withinScope (scope filter : string) : bool :=
  JS.startsWith scope filter &&
  (let remainder := JS.substring scope (JS.length filter) in
   (JS.length remainder =? 0) || JS.startsWith remainder ".").

(** [for (const scope of token.scopes)] *)
Fixpoint scopesLoop (filter : string) (scopes : list string) (decorateSymbol : bool) : bool :=
  match scopes with
  | [] => decorateSymbol
  | scope :: rest =>
      if withinScope scope filter then true
      else scopesLoop filter rest decorateSymbol
  end.

(** [for (const token of lineTokens)] *)
Fixpoint tokensLoop (mask : Mask.t) (matchReplace : option Replace.t)
    (startPos : Position) (lineTokens : list Vsctm.IToken) (decorateSymbol : bool) : bool :=
  match lineTokens with
  | [] => decorateSymbol
  | token :: rest =>
      let decorateSymbol :=
        if (character startPos >=? Vsctm.startIndex token)
           && (character startPos <? Vsctm.endIndex token)
        then
          if JS.truthy (replaceScope matchReplace)
          then scopesLoop (JS.orEmpty (replaceScope matchReplace))
                 (Vsctm.scopes token) decorateSymbol
          else if JS.truthy (Mask.scope mask)
          then scopesLoop (JS.orEmpty (Mask.scope mask))
                 (Vsctm.scopes token) decorateSymbol
          else decorateSymbol
        else decorateSymbol in
      tokensLoop mask matchReplace startPos rest decorateSymbol
  end.

(** The two offsets of a selection, the smaller one first. *)
Definition selectionOffsets (d : TextDocument) (selection : Selection) : Z * Z :=
  let selectionStart := offsetAt d (sel_start selection) in
  let selectionEnd := offsetAt d (sel_end selection) in
  if selectionEnd <? selectionStart
  then (selectionEnd, selectionStart)
  else (selectionStart, selectionEnd).

(** [new vscode.Range(startPos, endPos)] *)
Definition matchRange (d : TextDocument) (m : RegExp.ExecArray) : Range :=
  {| start := positionAt d (RegExp.index m);
     end_ := positionAt d (RegExp.index m + JS.length (RegExp.matched m)) |}.

(** What one match is decided with. *)
Record Site := {
  site_document : TextDocument;
  site_scopedDocument : option ScopedDocument.t;
  site_cursorStyle : string;
  site_mask : Mask.t
}.

(** The last statement of the loop over the selections: with a scope on the
    mask or on the replacement, the tokens of the line of the match are
    looked up and gone through; without one, the symbol is decorated. *)
Definition scopeBlock (c : Site) (matchReplace : option Replace.t)
    (startPos : Position) (decorateSymbol : bool) : JS.Outcome bool :=
  if JS.truthy (Mask.scope (site_mask c)) || JS.truthy (replaceScope matchReplace)
  then
    match site_scopedDocument c with
    | None => JS.Returns decorateSymbol
    | Some sd =>
        match ScopedDocument.getTokens sd
                (lineNumber (lineAtPosition (site_document c) startPos)) with
        | JS.Returns (Some lineTokens) =>
            JS.Returns (tokensLoop (site_mask c) matchReplace startPos lineTokens decorateSymbol)
        | JS.Returns None => JS.Returns decorateSymbol
        | JS.Throws => JS.Throws
        | JS.OutOfFuel => JS.OutOfFuel
        end
    end
  else JS.Returns true.

(** [for (const selection of this.editor.selections)] *)
Fixpoint selectionsLoop (c : Site) (m : RegExp.ExecArray) (matchReplace : option Replace.t)
    (startPos : Position) (sels : list Selection) (decorateSymbol : bool)
    : JS.Outcome bool :=
  match sels with
  | [] => JS.Returns decorateSymbol
  | selection :: rest =>
      let '(selectionStart, selectionEnd) := selectionOffsets (site_document c) selection in
      if reveals (site_cursorStyle c) selectionStart selectionEnd
           (RegExp.index m) (JS.length (RegExp.matched m))
      then JS.Returns false
      else if decorateSymbol
      then selectionsLoop c m matchReplace startPos rest decorateSymbol
      else
        match scopeBlock c matchReplace startPos decorateSymbol with
        | JS.Returns decorateSymbol =>
            selectionsLoop c m matchReplace startPos rest decorateSymbol
        | JS.Throws => JS.Throws
        | JS.OutOfFuel => JS.OutOfFuel
        end
  end.

(** The value of [decorateSymbol] after the loop over the selections. *)
Definition decorateSymbolOf (c : Site) (sels : list Selection) (m : RegExp.ExecArray)
    : JS.Outcome bool :=
  selectionsLoop c m (matchReplaceOf (site_mask c) (RegExp.matched m))
    (positionAt (site_document c) (RegExp.index m)) sels false.

(** *** The scan *)

(** The variables of [apply] that the scan changes. *)
Record Scan := {
  pattern : RegExp.t;
  decorationOptions : gmap string (list DecorationOptions);
  matchReplaceKeys : list string;
  this : t;
  window : Window
}.

(** The mask a match-based replacement is initialized with. *)
Definition replaceMask (r : Replace.t) : Mask.t :=
  {| Mask.text := Mask.Literal (Replace.text r);
     Mask.scope := Replace.scope r;
     Mask.hover := None;
     Mask.backgroundColor := Replace.backgroundColor r;
     Mask.border := Replace.border r;
     Mask.borderColor := Replace.borderColor r;
     Mask.color := Replace.color r;
     Mask.fontStyle := Replace.fontStyle r;
     Mask.fontWeight := Replace.fontWeight r;
     Mask.css := Replace.css r |}.

(** The replacement whose text makes a key of its own:
    [matchReplace?.text] in a condition. *)
Definition keyedReplace (matchReplace : option Replace.t) : option Replace.t :=
  match matchReplace with
  | Some r => if JS.truthy (Some (Replace.text r)) then Some r else None
  | None => None
  end.

Definition decorationKeyOf (source : string) (matchReplace : option Replace.t) : string :=
  match keyedReplace matchReplace with
  | Some r => source +:+ "@@@" +:+ Replace.text r
  | None => source
  end.

Definition hoverOf (mask : Mask.t) (matchReplace : option Replace.t) : option string :=
  match keyedReplace matchReplace with
  | Some r => Replace.hover r
  | None => Mask.hover mask
  end.

(** [decorationOptions.get(decorationKey)?.push(option)], after the key
    was given an empty list if it had none. *)
Definition pushOption (decorationKey : string) (o : DecorationOptions)
    (opts : gmap string (list DecorationOptions)) : gmap string (list DecorationOptions) :=
  <[decorationKey := default [] (opts !! decorationKey) ++ [o]]> opts.

(** The body of [if (decorateSymbol)]. *)
Definition decorate (c : Site) (m : RegExp.ExecArray) (s : Scan) : Scan :=
  let doc := site_document c in
  let mask := site_mask c in
  let matchReplace := matchReplaceOf mask (RegExp.matched m) in
  let decorationKey := decorationKeyOf (RegExp.source (pattern s)) matchReplace in
  let hover := hoverOf mask matchReplace in
  let '(keys, (this', w')) :=
    match keyedReplace matchReplace with
    | Some r =>
        if bool_decide (decorationKey ∈ matchReplaceKeys s)
        then (matchReplaceKeys s, (this s, window s))
        else (matchReplaceKeys s ++ [decorationKey],
              initialize decorationKey (replaceMask r) (this s) (window s))
    | None => (matchReplaceKeys s, (this s, window s))
    end in
  {| pattern := pattern s;
     decorationOptions :=
       pushOption decorationKey
         {| range := matchRange doc m; hoverMessage := hover |}
         (decorationOptions s);
     matchReplaceKeys := keys;
     this := this';
     window := w' |}.

Definition setPattern (r : RegExp.t) (s : Scan) : Scan :=
  {| pattern := r; decorationOptions := decorationOptions s;
     matchReplaceKeys := matchReplaceKeys s; this := this s; window := window s |}.

(** [while (match = pattern.exec(text))], at most [fuel] times round. *)
Fixpoint scan (fuel : nat) (c : Site) (sels : list Selection) (text : string) (s : Scan)
    : JS.Outcome Scan :=
  match fuel with
  | O => JS.OutOfFuel
  | S fuel' =>
      match RegExp.exec (pattern s) text with
      | (None, r) => JS.Returns (setPattern r s)
      | (Some m, r) =>
          let s := setPattern r s in
          if JS.length (RegExp.matched m) =? 0 then JS.Returns s
          else
            match decorateSymbolOf c sels m with
            | JS.Returns true => scan fuel' c sels text (decorate c m s)
            | JS.Returns false => scan fuel' c sels text s
            | JS.Throws => JS.Throws
            | JS.OutOfFuel => JS.OutOfFuel
            end
      end
  end.

(** Rounds enough for any pattern on [text]: every round but the last
    moves [lastIndex] forward. *)
Definition scanFuel (text : string) : nat := S (S (String.length text)).

(** *** Rendering and eviction *)

(** [for (const decorationKey of matchReplaceKeys.values())] *)
Definition renderLoop (types : gmap string TextEditorDecorationType)
    (opts : gmap string (list DecorationOptions)) (keys : list string)
    (e : TextEditor) : TextEditor :=
  foldl (fun e decorationKey =>
           match types !! decorationKey with
           | Some decorationType =>
               setDecorations decorationType (default [] (opts !! decorationKey)) e
           | None => e
           end) e keys.

(** Whether the last loop of [apply] keeps a key. *)
Definition kept (source : string) (keys : list string) (key : string) : bool :=
  bool_decide (key = source) || bool_decide (key ∈ keys).

(** [for (const key of this.decorationTypeMap.keys())]: the masks that
    were not matched but are still cached. *)
Definition evictLoop (source : string) (keys : list string)
    (entries : list (string * TextEditorDecorationType))
    (st : gmap string TextEditorDecorationType * TextEditor)
    : gmap string TextEditorDecorationType * TextEditor :=
  foldl (fun st kv =>
           if kept source keys kv.1 then st
           else (delete kv.1 st.1, setDecorations kv.2 [] st.2)) st entries.

(** What the matches of this call are decided with. *)
Definition siteOf (mask : Mask.t) (this : t) (w : Window) (e : TextEditor) : Site :=
  {| site_document := document e;
     site_scopedDocument := scopedDocument this;
     site_cursorStyle := JS.orEmpty (cursorStyle w);
     site_mask := mask |}.

(** The first part of [apply], up to the end of the scan. *)
Definition scanOf (pattern : RegExp.t) (mask : Mask.t) (this : t) (w : Window)
    (e : TextEditor) : JS.Outcome Scan :=
  let '(this1, w1) := initialize (RegExp.source pattern) mask this w in
  let text := getText (document e) in
  scan (scanFuel text) (siteOf mask this w e) (selections e) text
    {| pattern := pattern; decorationOptions := ∅;
       matchReplaceKeys := []; this := this1; window := w1 |}.

(** The rest of [apply]: the keys of the replacements are rendered, then the
    source of the pattern, then the other keys are cleared and deleted. *)
Definition commit (source : string) (s : Scan) (e : TextEditor) : t :=
  let types := decorationTypeMap (this s) in
  let e1 := renderLoop types (decorationOptions s) (matchReplaceKeys s) e in
  let e2 := renderLoop types (decorationOptions s) [source] e1 in
  let '(types', e3) :=
    evictLoop source (matchReplaceKeys s) (map_to_list types) (types, e2) in
  {| decorationTypeMap := types';
     scopedDocument := scopedDocument (this s);
     editor := Some e3 |}.

Definition apply (pattern : RegExp.t) (mask : Mask.t) (this : t) (w : Window)
    : JS.Outcome (RegExp.t * t * Window) :=
  match editor this with
  | None => JS.Returns (pattern, this, w)
  | Some e =>
      match scanOf pattern mask this w e with
      | JS.Returns s =>
          JS.Returns (MaskController.pattern s, commit (RegExp.source pattern) s e, window s)
      | JS.Throws => JS.Throws
      | JS.OutOfFuel => JS.OutOfFuel
      end
  end.

End MaskController.

(** ** Small patterns, masks and editors to run the model on *)

Module Fixtures.
Import Vscode.

Fixpoint firstPrefix (alts : list string) (s : string) : option nat :=
  match alts with
  | [] => None
  | a :: rest => if JS.startsWith s a then Some (String.length a) else firstPrefix rest s
  end.

(** The matcher of an alternation of literal strings. *)
Definition literals (alts : list string) (text : string) (i : Z) : option nat :=
  firstPrefix alts (JS.substring text i).

Fixpoint run (c : ascii) (s : string) : nat :=
  match s with
  | String d s' => if Ascii.eqb c d then S (run c s') else O
  | EmptyString => O
  end.

(** The matcher of a starred character, which also matches the empty string. *)
Definition star (c : ascii) (text : string) (i : Z) : option nat :=
  Some (run c (JS.substring text i)).

Definition caret (l ch : Z) : Selection :=
  {| sel_start := {| line := l; character := ch |};
     sel_end := {| line := l; character := ch |} |}.

Definition plain (t : Mask.Text) (sc : option string) : Mask.t :=
  {| Mask.text := t; Mask.scope := sc; Mask.hover := None;
     Mask.backgroundColor := None; Mask.border := None; Mask.borderColor := None;
     Mask.color := None; Mask.fontStyle := None; Mask.fontWeight := None;
     Mask.css := None |}.

Definition entry (t : string) (sc : option string) : Replace.t :=
  {| Replace.text := t; Replace.scope := sc; Replace.hover := None;
     Replace.backgroundColor := None; Replace.border := None; Replace.borderColor := None;
     Replace.color := None; Replace.fontStyle := None; Replace.fontWeight := None;
     Replace.css := None |}.

Definition editorOn (text : string) (sels : list Selection) : TextEditor :=
  {| document := {| getText := text |}; selections := sels; decorations := ∅ |}.

Definition lineWindow : Window := {| decorationTypes := []; cursorStyle := Some "line" |}.

Definition blockWindow : Window := {| decorationTypes := []; cursorStyle := Some "block" |}.

(** [/(a|b)/g] with a replacement for each of the two letters. *)
Definition ab : RegExp.t :=
  {| RegExp.source := "(a|b)"; RegExp.lastIndex := 0;
     RegExp.matcher := literals ["a"; "b"] |}.

Definition abMask (sc : option string) (asc : option string) : Mask.t :=
  plain (Mask.MatchBased (<["a" := entry "x" asc]> (<["b" := entry "y" None]> ∅))) sc.

(** [/a*/g] *)
Definition aStar : RegExp.t :=
  {| RegExp.source := "a*"; RegExp.lastIndex := 0; RegExp.matcher := star "a" |}.

(** A grammar with one token per line, from 0 to 100, in the given scopes. *)
Definition flatGrammar (scopes : list string) : Vsctm.IGrammar :=
  {| Vsctm.tokenizeLine := fun _ _ =>
       {| Vsctm.tokens := [ {| Vsctm.startIndex := 0; Vsctm.endIndex := 100;
                               Vsctm.scopes := scopes |} ];
          Vsctm.ruleStack := [] |} |}.

(** A grammar whose state counts the lines that opened a comment and did
    not close it: a line is a comment when it follows such a line. *)
Definition commentGrammar : Vsctm.IGrammar :=
  {| Vsctm.tokenizeLine := fun l prev =>
       let inside := match prev with Some (_ :: _) => true | _ => false end in
       {| Vsctm.tokens := [ {| Vsctm.startIndex := 0; Vsctm.endIndex := 100;
                               Vsctm.scopes := if inside then ["comment.block"]
                                               else ["source"] |} ];
          Vsctm.ruleStack :=
            if JS.startsWith l "/*" then ["comment"]
            else if JS.startsWith l "*/" then []
            else match prev with Some st => st | None => [] end |} |}.

(** [/abc/g], which matches "0123456789abc" at the offsets 10 to 13. *)
Definition abc : RegExp.t :=
  {| RegExp.source := "abc"; RegExp.lastIndex := 0; RegExp.matcher := literals ["abc"] |}.

Definition abcAt10 : RegExp.ExecArray := {| RegExp.index := 10; RegExp.matched := "abc" |}.

Definition aAt0 : RegExp.ExecArray := {| RegExp.index := 0; RegExp.matched := "a" |}.

(** A controller on an editor with the given text and selections, and a
    document tokenized with the given grammar, if any. *)
Definition controllerOn (text : string) (sels : list Selection)
    (g : option Vsctm.IGrammar) : MaskController.t :=
  MaskController.new (Some (editorOn text sels))
    (Some (ScopedDocument.new (Some {| getText := text |}) g)).

(** The text "a  " with a caret at its end, tokenized in one comparison
    operator scope. *)
Definition scopedOnA : MaskController.t :=
  controllerOn "a  " [caret 0 3] (Some (flatGrammar ["keyword.operator.comparison"])).

Definition editorOnA : TextEditor := editorOn "a  " [caret 0 3].

Definition operatorMask : Mask.t := plain (Mask.Literal "x") (Some "keyword.operator").

(** The text "a  " with a caret at its end and no scoped document. *)
Definition plainOnA : MaskController.t :=
  MaskController.new (Some editorOnA) None.

(** A controller whose cache still has the key of [/abc/g], as after a call
    of [apply] with that pattern, and the window that created its type. *)
Definition afterAbc : MaskController.t :=
  {| MaskController.decorationTypeMap := {[ "abc" := 0%nat ]};
     MaskController.scopedDocument := None;
     MaskController.editor := Some editorOnA |}.

Definition afterAbcWindow : Window :=
  {| decorationTypes := [MaskController.renderOptions (plain (Mask.Literal "x") None)];
     cursorStyle := Some "line" |}.

(** A controller without an editor, with one key in its cache. *)
Definition withoutEditor : MaskController.t :=
  {| MaskController.decorationTypeMap := {[ "abc" := 0%nat ]};
     MaskController.scopedDocument := None;
     MaskController.editor := None |}.

(** The text "a  " without any selection. *)
Definition editorWithoutSelections : TextEditor := editorOn "a  " [].

Definition withoutSelections : MaskController.t :=
  MaskController.new (Some editorWithoutSelections) None.

End Fixtures.

(** ** Notions the properties are stated with *)

Module Notions.
Import Vscode MaskController.

(** The matches the scan of [apply] goes through, in order: the successive
    results of [exec], up to the first failure or empty match. *)
Fixpoint scanned (fuel : nat) (r : RegExp.t) (text : string) : list RegExp.ExecArray :=
  match fuel with
  | O => []
  | S fuel' =>
      match RegExp.exec r text with
      | (None, _) => []
      | (Some m, r') =>
          if JS.length (RegExp.matched m) =? 0 then []
          else m :: scanned fuel' r' text
      end
  end.

(** The matches of a pattern in the text of an editor. *)
Definition matchesOf (pattern : RegExp.t) (e : TextEditor) : list RegExp.ExecArray :=
  scanned (scanFuel (getText (document e))) pattern (getText (document e)).

(** A selection reveals a match. *)
Definition revealedBy (c : Site) (m : RegExp.ExecArray) (selection : Selection) : bool :=
  let '(selectionStart, selectionEnd) := selectionOffsets (site_document c) selection in
  reveals (site_cursorStyle c) selectionStart selectionEnd
    (RegExp.index m) (JS.length (RegExp.matched m)).

(** The scope a match is asked to be in: the one of its replacement, else
    the one of the mask. *)
Definition scopeFilter (mask : Mask.t) (matchReplace : option Replace.t) : option string :=
  if JS.truthy (replaceScope matchReplace) then replaceScope matchReplace
  else if JS.truthy (Mask.scope mask) then Mask.scope mask
  else None.

(** A scope string is within a filter: it is the filter, or it starts with
    the filter and a dot. *)
Definition within (scope filter : string) : bool :=
  String.eqb scope filter || JS.startsWith scope (filter +:+ ".").

(** The token spans a character of its line. *)
Definition tokenAt (p : Position) (token : Vsctm.IToken) : bool :=
  (Vsctm.startIndex token <=? character p) && (character p <? Vsctm.endIndex token).

(** The tokens of the line a match starts on, when there are any. *)
Definition lineTokens (c : Site) (m : RegExp.ExecArray) : option (list Vsctm.IToken) :=
  match site_scopedDocument c with
  | None => None
  | Some sd =>
      match ScopedDocument.getTokens sd
              (line (positionAt (site_document c) (RegExp.index m))) with
      | JS.Returns o => o
      | _ => None
      end
  end.

(** The scope filter of a match, if it has one, matches a token at its start. *)
Definition scopeMatches (c : Site) (m : RegExp.ExecArray) : bool :=
  match scopeFilter (site_mask c) (matchReplaceOf (site_mask c) (RegExp.matched m)) with
  | None => true
  | Some filter =>
      match lineTokens c m with
      | Some tokens =>
          existsb (fun token =>
                     tokenAt (positionAt (site_document c) (RegExp.index m)) token
                     && existsb (fun scope => within scope filter) (Vsctm.scopes token))
            tokens
      | None => false
      end
  end.

(** The rule of the specification: a match is decorated when no selection
    reveals it and its scope filter, if any, matches. *)
Definition collapsedRule (c : Site) (sels : list Selection) (m : RegExp.ExecArray) : bool :=
  negb (existsb (revealedBy c m) sels) && scopeMatches c m.

(** The match is decorated: the loop over the selections ends with
    [decorateSymbol = true]. *)
Definition isDecorated (c : Site) (sels : list Selection) (m : RegExp.ExecArray) : bool :=
  match decorateSymbolOf c sels m with
  | JS.Returns true => true
  | _ => false
  end.

(** The replacement, the key and the option of a decorated match. *)
Definition replaceOf (c : Site) (m : RegExp.ExecArray) : option Replace.t :=
  matchReplaceOf (site_mask c) (RegExp.matched m).

Definition keyOf (source : string) (c : Site) (m : RegExp.ExecArray) : string :=
  decorationKeyOf source (replaceOf c m).

Definition optionOf (c : Site) (m : RegExp.ExecArray) : DecorationOptions :=
  {| range := matchRange (site_document c) m;
     hoverMessage := hoverOf (site_mask c) (replaceOf c m) |}.

(** The options gathered for a key, none when the key has no list. *)
Definition optionsAt (opts : gmap string (list DecorationOptions)) (key : string)
  : list DecorationOptions := default [] (opts !! key).

(** The decorations of a list of matches, one after the other. *)
Definition decorateAll (c : Site) (ms : list RegExp.ExecArray) (s : Scan) : Scan :=
  foldl (fun s m => decorate c m s) s ms.

(** The indices of a text that a pattern has still to try. *)
Definition remaining (text : string) (r : RegExp.t) : nat :=
  Z.to_nat (JS.length text + 1 - Z.max 0 (RegExp.lastIndex r)).

(** The variables of the scan when it starts. *)
Definition scanStart (pattern : RegExp.t) (mask : Mask.t) (this : MaskController.t)
    (w : Window) : Scan :=
  {| pattern := pattern; decorationOptions := ∅; matchReplaceKeys := [];
     this := (initialize (RegExp.source pattern) mask this w).1;
     window := (initialize (RegExp.source pattern) mask this w).2 |}.

(** The matches of a call of [apply] that are decorated, in order. *)
Definition decoratedMatches (pattern : RegExp.t) (mask : Mask.t) (this : MaskController.t)
    (w : Window) (e : TextEditor) : list RegExp.ExecArray :=
  List.filter (isDecorated (siteOf mask this w e) (selections e)) (matchesOf pattern e).

(** The editor after the two rendering steps of [apply], and the cache and
    the editor after its last loop. *)
Definition renderedEditor (source : string) (s : Scan) (e : TextEditor) : TextEditor :=
  renderLoop (decorationTypeMap (this s)) (decorationOptions s) [source]
    (renderLoop (decorationTypeMap (this s)) (decorationOptions s) (matchReplaceKeys s) e).

Definition evicted (source : string) (s : Scan) (e : TextEditor)
  : gmap string TextEditorDecorationType * TextEditor :=
  evictLoop source (matchReplaceKeys s) (map_to_list (decorationTypeMap (this s)))
    (decorationTypeMap (this s), renderedEditor source s e).

(** The cache holds types the window has created, one per key. *)
Definition wellFormed (this : MaskController.t) (w : Window) : Prop :=
  (forall key type, decorationTypeMap this !! key = Some type ->
     (type < List.length (decorationTypes w))%nat) /\
  (forall key1 key2 type,
     decorationTypeMap this !! key1 = Some type ->
     decorationTypeMap this !! key2 = Some type -> key1 = key2).

(** The ranges an editor shows for a key of the cache. *)
Definition shown (this : MaskController.t) (key : string) : option (list DecorationOptions) :=
  match decorationTypeMap this !! key, editor this with
  | Some type, Some e => decorations e !! type
  | _, _ => None
  end.

End Notions.

(** ** [src/extension.ts] *)

Module Extension.
Import Vscode.

(** An entry of [contributes.grammars] in the [package.json] of an
    installed extension; a field that is missing is [None]. *)
Record GrammarContribution := {
  grammar_language : option string;
  grammar_scopeName : option string;
  grammar_path : option string
}.

(** An element of [vscode.extensions.all]: [grammars] is
    [packageJSON.contributes?.grammars] when that is an array. *)
Record InstalledExtension := {
  extensionPath : string;
  grammars : option (list GrammarContribution)
}.

(** [for (const grammar of grammars)], up to the first grammar that passes
    the test of the loop. *)
Fixpoint grammarsLoop (test : GrammarContribution -> bool)
    (grammars : list GrammarContribution) : option GrammarContribution :=
  match grammars with
  | [] => None
  | grammar :: rest => if test grammar then Some grammar else grammarsLoop test rest
  end.

(** [for (const extension of vscode.extensions.all)], up to the first
    extension with such a grammar. *)
Fixpoint extensionsLoop (test : GrammarContribution -> bool)
    (all : list InstalledExtension) : option (InstalledExtension * GrammarContribution) :=
  match all with
  | [] => None
  | extension :: rest =>
      match grammars extension with
      | Some grammars =>
          match grammarsLoop test grammars with
          | Some grammar => Some (extension, grammar)
          | None => extensionsLoop test rest
          end
      | None => extensionsLoop test rest
      end
  end.

(** [getLanguageScopeName(languageId)]: [null] and [undefined] are [None]. *)
Definition getLanguageScopeName (all : list InstalledExtension)
    (languageId : option string) : option string :=
  if JS.truthy languageId
  then match extensionsLoop
               (fun grammar => bool_decide (grammar_language grammar = languageId)) all with
       | Some (_, grammar) => grammar_scopeName grammar
       | None => None
       end
  else None.

(** The [loadGrammar] of the registry options. [readGrammar] stands for the
    file of the grammar being resolved, read and parsed, which may raise;
    [Returns None] is [null]. *)
Definition loadGrammar {R : Type} (readGrammar : string -> option string -> JS.Outcome R)
    (all : list InstalledExtension) (scopeName : string) : JS.Outcome (option R) :=
  match extensionsLoop
          (fun grammar => bool_decide (grammar_scopeName grammar = Some scopeName)) all with
  | Some (extension, grammar) =>
      match readGrammar (extensionPath extension) (grammar_path grammar) with
      | JS.Returns rawGrammar => JS.Returns (Some rawGrammar)
      | JS.Throws => JS.Throws
      | JS.OutOfFuel => JS.OutOfFuel
      end
  | None => JS.Returns None
  end.

(** [pattern.style] of the configuration. *)
Record Style := {
  backgroundColor : option string;
  border : option string;
  borderColor : option string;
  color : option string;
  fontStyle : option string;
  fontWeight : option string;
  css : option string
}.

(** An element of [patterns] in the configuration. *)
Record Pattern := {
  pattern : string;
  ignoreCase : bool;
  replace : Mask.Text;
  scope : option string;
  hover : option string;
  style : option Style
}.

(** An element of [symbolMasks.masks]. *)
Record UserMask := {
  language : string;
  patterns : list Pattern
}.

(** What [updateMasks] asks of the host. *)
Record Host := {
  (** [vscode.languages.match(selector, document)] *)
  languagesMatch : string -> TextDocument -> Z;
  (** [new RegExp(pattern, flags)]: the source and the matcher of the new
      pattern, or [None] when the constructor raises. *)
  newRegExp : string -> string -> option (string * (string -> Z -> option nat))
}.

(** [new RegExp(pattern.pattern, pattern.ignoreCase ? "ig" : "g")] *)
Definition regexOf (h : Host) (p : Pattern) : option RegExp.t :=
  match newRegExp h (pattern p) (if ignoreCase p then "ig" else "g") with
  | Some (source, matcher) =>
      Some {| RegExp.source := source; RegExp.lastIndex := 0; RegExp.matcher := matcher |}
  | None => None
  end.

(** [pattern.style?.field] *)
Definition styleField (field : Style -> option string) (p : Pattern) : option string :=
  match style p with
  | Some st => field st
  | None => None
  end.

(** The mask [updateMasks] passes to [apply]. *)
Definition maskOf (p : Pattern) : Mask.t :=
  {| Mask.text := replace p;
     Mask.scope := scope p;
     Mask.hover := hover p;
     Mask.backgroundColor := styleField backgroundColor p;
     Mask.border := styleField border p;
     Mask.borderColor := styleField borderColor p;
     Mask.color := styleField color p;
     Mask.fontStyle := styleField fontStyle p;
     Mask.fontWeight := styleField fontWeight p;
     Mask.css := styleField css p |}.

(** How a pass of [updateMasks] ends: at the end of its loops, or in its
    [catch]. An exception of [new RegExp] leaves the controller and the
    window as the calls before it left them; what an exception inside
    [apply] leaves is not followed. *)
Inductive Pass :=
| Completed (this : MaskController.t) (w : Window)
| Caught (state : option (MaskController.t * Window)).

(** [for (const pattern of mask.patterns)] *)
Fixpoint patternsLoop (h : Host) (patterns : list Pattern)
    (this : MaskController.t) (w : Window) : Pass :=
  match patterns with
  | [] => Completed this w
  | p :: rest =>
      match regexOf h p with
      | None => Caught (Some (this, w))
      | Some regex =>
          match MaskController.apply regex (maskOf p) this w with
          | JS.Returns (_, this', w') => patternsLoop h rest this' w'
          | _ => Caught None
          end
      end
  end.

(** [for (let mask of userMasks)] *)
Fixpoint masksLoop (h : Host) (document : TextDocument) (userMasks : list UserMask)
    (this : MaskController.t) (w : Window) : Pass :=
  match userMasks with
  | [] => Completed this w
  | mask :: rest =>
      if languagesMatch h (language mask) document >? 0
      then match patternsLoop h (patterns mask) this w with
           | Completed this' w' => masksLoop h document rest this' w'
           | Caught state => Caught state
           end
      else masksLoop h document rest this w
  end.

(** [updateMasks], with the scoped document and the controller of
    [activate]. The map [maskMap], which nothing reads, is left out. *)
Definition updateMasks (h : Host) (userMasks : list UserMask)
    (scopedDocument : ScopedDocument.t) (this : MaskController.t) (w : Window) : Pass :=
  match ScopedDocument.getDocument scopedDocument with
  | Some document => masksLoop h document userMasks this w
  | None => Completed this w
  end.

End Extension.

(** ** Notions the properties of the whole passes are stated with *)

Module PassNotions.
Import Vscode MaskController Extension.

(** The grammars that the installed extensions contribute, in the order the
    loops over them go. *)
Definition contributions (all : list InstalledExtension) : list GrammarContribution :=
  flat_map (fun extension => default [] (grammars extension)) all.

(** The same grammars, each with the extension that contributes it. *)
Definition located (all : list InstalledExtension)
    : list (InstalledExtension * GrammarContribution) :=
  flat_map (fun extension =>
              (fun grammar => (extension, grammar)) <$> default [] (grammars extension))
    all.

(** The patterns a pass of [updateMasks] goes through on a document. *)
Definition selected (h : Host) (document : TextDocument) (userMasks : list UserMask)
    : list Pattern :=
  flat_map (fun mask =>
              if languagesMatch h (language mask) document >? 0
              then patterns mask else []) userMasks.

(** A key that a call of [apply] with this source and mask may cache: the
    source, or the source, the separator and the text of an entry of the map. *)
Definition keyOfCall (source : string) (mask : Mask.t) (key : string) : Prop :=
  key = source \/
  exists matched r,
    matchReplaceOf mask matched = Some r /\ Replace.text r <> "" /\
    key = source +:+ "@@@" +:+ Replace.text r.

(** The options a call of [apply] with this source and mask creates the
    type of a key with: those of the mask for the source, those of an entry
    of the map for the source, the separator and the text of the entry. *)
Definition createdWith (source : string) (mask : Mask.t) (key : string)
    (options : DecorationRenderOptions) : Prop :=
  (key = source /\ options = renderOptions mask) \/
  exists matched r,
    matchReplaceOf mask matched = Some r /\ Replace.text r <> "" /\
    key = source +:+ "@@@" +:+ Replace.text r /\
    options = renderOptions (replaceMask r).

(** No type outside the cache shows a range in the editor. *)
Definition tidy (this : MaskController.t) : Prop :=
  forall e type l,
    editor this = Some e -> decorations e !! type = Some l -> l <> [] ->
    exists key, decorationTypeMap this !! key = Some type.

(** The lines of the editor's document are lines of the document that the
    scoped document holds, if it holds one. *)
Definition covered (c : Site) : Prop :=
  forall sd d,
    site_scopedDocument c = Some sd -> ScopedDocument.document sd = Some d ->
    lineCount (site_document c) <= lineCount d.

(** The selection with its two ends exchanged. *)
Definition reversed (selection : Selection) : Selection :=
  {| sel_start := sel_end selection; sel_end := sel_start selection |}.

(** The matches of a list that are grouped under a key. *)
Definition underKey (source : string) (c : Site) (key : string)
    (ms : list RegExp.ExecArray) : list RegExp.ExecArray :=
  List.filter (fun m => bool_decide (Notions.keyOf source c m = key)) ms.

(** The offset just after a match. *)
Definition matchEnd (m : RegExp.ExecArray) : Z :=
  RegExp.index m + JS.length (RegExp.matched m).

End PassNotions.

(** ** A host and a configuration to run a pass on *)

Module PassFixtures.
Import Vscode Extension.

(** A host whose only language is "typescript" and whose patterns are
    literal strings, "(" being no pattern. *)
Definition literalHost : Host :=
  {| languagesMatch := fun selector _ => if String.eqb selector "typescript" then 10 else 0;
     newRegExp := fun pattern _ =>
       if String.eqb pattern "(" then None
       else Some (pattern, Fixtures.literals [pattern]) |}.

Definition literalPattern (pattern replace : string) : Pattern :=
  {| pattern := pattern; ignoreCase := false; replace := Mask.Literal replace;
     scope := None; hover := None; style := None |}.

(** Two patterns for "typescript" and one for "python". *)
Definition userMasks : list UserMask :=
  [ {| language := "python"; patterns := [literalPattern "b" "y"] |};
    {| language := "typescript";
       patterns := [literalPattern "a" "x"; literalPattern "bc" "z"] |} ].

(** The same with a pattern that is none between the two. *)
Definition brokenMasks : list UserMask :=
  [ {| language := "typescript";
       patterns := [literalPattern "a" "x"; literalPattern "(" "w";
                    literalPattern "bc" "z"] |} ].

(** The text "a bc" with a caret at its end. *)
Definition onABc : MaskController.t :=
  MaskController.new (Some (Fixtures.editorOn "a bc  " [Fixtures.caret 0 6])) None.

Definition scopedABc : ScopedDocument.t :=
  ScopedDocument.new (Some {| getText := "a bc  " |}) None.

(** Two extensions, the second with two grammars for "typescript". *)
Definition installed : list InstalledExtension :=
  [ {| extensionPath := "/ext/theme"; grammars := None |};
    {| extensionPath := "/ext/ts";
       grammars := Some [ {| grammar_language := Some "typescript";
                             grammar_scopeName := Some "source.ts";
                             grammar_path := Some "./ts.json" |};
                          {| grammar_language := Some "typescript";
                             grammar_scopeName := Some "source.tsx";
                             grammar_path := Some "./tsx.json" |} ] |} ].

(** A document of two lines and one of three that starts with the same two. *)
Definition twoLines : TextDocument := {| getText := "/* a
b" |}.

Definition threeLines : TextDocument := {| getText := "/* a
b
*/ c" |}.

(** A selection from the offset 3 back to the offset 1 of a line. *)
Definition backwards : Selection :=
  {| sel_start := {| line := 0; character := 3 |};
     sel_end := {| line := 0; character := 1 |} |}.

End PassFixtures.

(** * Properties *)

(** ** The tokenizer *)

Module ScopedDocumentFacts.
Import Vscode Vsctm ScopedDocument.

Lemma tokenizeFrom_spec (g : IGrammar) (lines : list string) :
  forall (i : Z) (state : gmap Z StackElement),
    let st' := tokenizeFrom g lines i state in
    (forall j, j < i -> st' !! j = state !! j) /\
    (forall j, i + Z.of_nat (List.length lines) <= j -> st' !! j = state !! j) /\
    (forall (k : nat) l, lines !! k = Some l ->
       st' !! (i + Z.of_nat k)
       = Some (ruleStack (tokenizeLine g l (st' !! (i + Z.of_nat k - 1))))).
Proof.
  induction lines as [|l0 rest IH]; intros i state; cbn zeta.
  - repeat split; try done.
  - cbn [tokenizeFrom].
    destruct (IH (i + 1) (<[i := ruleStack (tokenizeLine g l0 (state !! (i - 1)))]> state))
      as (Hlt & Hge & Hat).
    cbn zeta in Hlt, Hge, Hat.
    split; [|split].
    + intros j Hj. rewrite Hlt by lia. apply lookup_insert_ne. lia.
    + intros j Hj. cbn [List.length] in Hj. rewrite Hge by lia.
      apply lookup_insert_ne. lia.
    + intros [|k] l Hk.
      * cbn in Hk. injection Hk as <-.
        replace (i + Z.of_nat 0) with i by lia.
        rewrite !Hlt by lia.
        rewrite lookup_insert_eq, lookup_insert_ne by lia. reflexivity.
      * cbn in Hk.
        replace (i + Z.of_nat (S k)) with (i + 1 + Z.of_nat k) by lia.
        exact (Hat k l Hk).
Qed.

Lemma lineAt_Some (d : TextDocument) (i : Z) (ln : TextLine) :
  lineAt d i = Some ln ->
  0 <= i /\ splitLines (getText d) !! Z.to_nat i = Some (text ln).
Proof.
  unfold lineAt. destruct (i <? 0) eqn:Hi; [done|].
  destruct (splitLines (getText d) !! Z.to_nat i) as [l|] eqn:Hl; [|done].
  intros [= <-]. split; [lia | done].
Qed.

Lemma lineAt_is_Some (d : TextDocument) (i : Z) :
  is_Some (lineAt d i) <-> 0 <= i < lineCount d.
Proof.
  unfold lineAt, lineCount. destruct (i <? 0) eqn:Hi.
  - split; [intros [? [=]] | lia].
  - destruct (splitLines (getText d) !! Z.to_nat i) as [l|] eqn:Hl.
    + apply lookup_lt_Some in Hl. split; [lia | eauto].
    + apply lookup_ge_None in Hl. split; [intros [? [=]] | lia].
Qed.

(** C5. [tokenize] starts from an empty state map, whatever was stored
    before; with a document and a grammar it then stores exactly one
    end-state per line of the document, the state of line [i] being the one
    the grammar gives for the text of line [i] from the state just stored
    for line [i - 1] (from none for line 0); without a document or without
    a grammar the state map is left empty. *)
Theorem tokenize_chained (sd : ScopedDocument.t) :
  document (tokenize sd) = document sd /\
  grammar (tokenize sd) = grammar sd /\
  (forall old,
     tokenize {| document := document sd; grammar := grammar sd; grammarState := old |}
     = tokenize sd) /\
  match document sd, grammar sd with
  | Some d, Some g =>
      (forall i, is_Some (grammarState (tokenize sd) !! i) <-> 0 <= i < lineCount d) /\
      (forall ln, lineAt d 0 = Some ln ->
         grammarState (tokenize sd) !! 0
         = Some (ruleStack (tokenizeLine g (text ln) None))) /\
      (forall i ln, lineAt d i = Some ln ->
         grammarState (tokenize sd) !! i
         = Some (ruleStack (tokenizeLine g (text ln)
                              (grammarState (tokenize sd) !! (i - 1)))))
  | _, _ => grammarState (tokenize sd) = ∅
  end.
Proof.
  split; [|split; [|split]].
  - unfold tokenize. by destruct (document sd), (grammar sd).
  - unfold tokenize. by destruct (document sd), (grammar sd).
  - intros old. unfold tokenize. cbn. by destruct (document sd), (grammar sd).
  - unfold tokenize.
    destruct (document sd) as [d|]; [|done].
    destruct (grammar sd) as [g|]; [|done]. cbn [grammarState].
    destruct (tokenizeFrom_spec g (splitLines (getText d)) 0 ∅) as (Hlt & Hge & Hat).
    cbn zeta in Hlt, Hge, Hat.
    assert (Hchain : forall i ln, lineAt d i = Some ln ->
              tokenizeFrom g (splitLines (getText d)) 0 ∅ !! i
              = Some (ruleStack (tokenizeLine g (text ln)
                   (tokenizeFrom g (splitLines (getText d)) 0 ∅ !! (i - 1))))).
    { intros i ln Hln. apply lineAt_Some in Hln as [Hi Hl].
      specialize (Hat _ _ Hl).
      replace (0 + Z.of_nat (Z.to_nat i)) with i in Hat by lia. exact Hat. }
    split; [|split].
    + intros i. split.
      * intros Hsome.
        destruct (decide (0 <= i < lineCount d)) as [|Hout]; [done|].
        exfalso. destruct Hsome as [x Hx].
        destruct (decide (i < 0)).
        -- rewrite Hlt in Hx by lia. by rewrite lookup_empty in Hx.
        -- rewrite Hge in Hx by (unfold lineCount in Hout; lia).
           by rewrite lookup_empty in Hx.
      * intros Hi. apply lineAt_is_Some in Hi as [ln Hln].
        rewrite (Hchain _ _ Hln). eauto.
    + intros ln Hln. rewrite (Hchain _ _ Hln).
      rewrite (Hlt (0 - 1)) by lia. by rewrite lookup_empty.
    + exact Hchain.
Qed.

(** A comment that runs over the lines 2 to 4: the tokens of line 4 come
    from the state at the end of line 3, and differ from the tokens of the
    same text tokenized on its own. *)
Example chained_tokenization :
  let d := {| getText := "zero
one
/* two
three
four
*/ five" |} in
  let sd := ScopedDocument.new (Some d) (Some Fixtures.commentGrammar) in
  getTokens sd 4
  = JS.Returns (Some [ {| startIndex := 0; endIndex := 100; scopes := ["comment.block"] |} ]) /\
  tokens (tokenizeLine Fixtures.commentGrammar "four" None)
  = [ {| startIndex := 0; endIndex := 100; scopes := ["source"] |} ] /\
  grammarState sd !! 3 = Some ["comment"] /\
  getTokens sd 1 = getTokens (tokenize sd) 1 /\
  getTokens sd 6 = JS.Throws.
Proof. cbv zeta. split_and!; vm_compute; reflexivity. Qed.

End ScopedDocumentFacts.

(** ** Strings *)

Module JSFacts.
Import JS.

Lemma append_cons (c : ascii) (s r : string) : String c s +:+ r = String c (s +:+ r).
Proof. reflexivity. Qed.

Lemma append_empty_r (s : string) : s +:+ "" = s.
Proof. induction s as [|c s IH]; [done|]. by rewrite append_cons, IH. Qed.

Lemma append_assoc (a b c : string) : (a +:+ b) +:+ c = a +:+ b +:+ c.
Proof. induction a as [|x a IH]; [done|]. by rewrite !append_cons, IH. Qed.

Lemma startsWith_append (p r : string) : startsWith (p +:+ r) p = true.
Proof.
  induction p as [|c p IH]; [reflexivity|].
  rewrite append_cons. cbn. by rewrite Ascii.eqb_refl.
Qed.

Lemma startsWith_split (s p : string) :
  startsWith s p = true -> s = p +:+ drop (String.length p) s.
Proof.
  revert s. induction p as [|c p IH]; intros s H; [reflexivity|].
  destruct s as [|d s]; [done|]. cbn in H.
  destruct (Ascii.eqb c d) eqn:Hcd; [|done].
  apply Ascii.eqb_eq in Hcd as ->. rewrite append_cons. cbn. f_equal. by apply IH.
Qed.

Lemma drop_append (p r : string) : drop (String.length p) (p +:+ r) = r.
Proof.
  induction p as [|c p IH]; [by destruct r|]. rewrite append_cons. exact IH.
Qed.

Lemma length_zero (s : string) : JS.length s = 0 -> s = "".
Proof. destruct s; [done|]. unfold JS.length. cbn. lia. Qed.

Lemma take_nonempty (n : nat) (s : string) : JS.length (take n s) <> 0 -> (0 < n)%nat.
Proof. destruct n; [by destruct s | lia]. Qed.

End JSFacts.

(** ** Positions and offsets of a document *)

Module VscodeFacts.
Import Vscode.

Lemma offsetFrom_positionFrom (s : string) :
  forall n : nat, (n <= String.length s)%nat ->
    offsetFrom s (positionFrom s n).1 (positionFrom s n).2 = n.
Proof.
  induction s as [|c s IH]; intros n Hn.
  - cbn in Hn. by replace n with O by lia.
  - destruct n as [|n]; [done|].
    cbn in Hn. assert (Hn' : (n <= String.length s)%nat) by lia.
    specialize (IH n Hn'). cbn [positionFrom].
    destruct (positionFrom s n) as [l ch]. cbn [fst snd] in IH.
    destruct (isNewline c) eqn:Hc.
    + cbn [fst snd offsetFrom]. rewrite Hc. by rewrite IH.
    + destruct l as [|l].
      * cbn [fst snd offsetFrom]. rewrite Hc. by rewrite IH.
      * cbn [fst snd offsetFrom]. rewrite Hc. by rewrite IH.
Qed.

(** An offset of the text is the offset of its position. *)
Lemma offsetAt_positionAt (d : TextDocument) (o : Z) :
  0 <= o <= JS.length (getText d) -> offsetAt d (positionAt d o) = o.
Proof.
  intros Ho. unfold offsetAt, positionAt, JS.length in *.
  pose proof (offsetFrom_positionFrom (getText d) (Z.to_nat o)) as H.
  destruct (positionFrom (getText d) (Z.to_nat o)) as [l ch]. cbn [fst snd] in H.
  cbn [line character].
  destruct (Z.of_nat l <? 0) eqn:Hl; [lia|].
  rewrite !Nat2Z.id, H by lia. lia.
Qed.

Lemma positionAt_inj (d : TextDocument) (o1 o2 : Z) :
  0 <= o1 <= JS.length (getText d) ->
  0 <= o2 <= JS.length (getText d) ->
  positionAt d o1 = positionAt d o2 -> o1 = o2.
Proof.
  intros H1 H2 Heq.
  rewrite <- (offsetAt_positionAt d o1 H1), <- (offsetAt_positionAt d o2 H2).
  by rewrite Heq.
Qed.

End VscodeFacts.

(** ** The decision for one match *)

Module DecisionFacts.
Import Vscode MaskController Notions.

Lemma within_spec (scope filter : string) :
  within scope filter = true <->
  scope = filter \/ exists rest, scope = filter +:+ "." +:+ rest.
Proof.
  unfold within. rewrite orb_true_iff, String.eqb_eq. split.
  - intros [->|H]; [by left|]. right.
    apply JSFacts.startsWith_split in H. rewrite JSFacts.append_assoc in H. eauto.
  - intros [->|[rest ->]]; [by left|]. right.
    rewrite <- JSFacts.append_assoc. apply JSFacts.startsWith_append.
Qed.

(** The test of the source on a scope is the rule of the specification. *)
Lemma withinScope_within (scope filter : string) :
  withinScope scope filter = within scope filter.
Proof.
  apply Bool.eq_iff_eq_true. rewrite within_spec.
  unfold withinScope, JS.substring, JS.length.
  rewrite andb_true_iff, orb_true_iff, Nat2Z.id. split.
  - intros [Hp Hr]. apply JSFacts.startsWith_split in Hp.
    destruct Hr as [H0|Hd].
    + left. apply Z.eqb_eq in H0.
      apply (JSFacts.length_zero (JS.drop (String.length filter) scope)) in H0.
      rewrite H0 in Hp. by rewrite JSFacts.append_empty_r in Hp.
    + right. apply JSFacts.startsWith_split in Hd. rewrite Hd in Hp. eauto.
  - intros [->|[rest ->]].
    + pose proof (JSFacts.startsWith_append filter "") as Hs.
      pose proof (JSFacts.drop_append filter "") as Hd.
      rewrite JSFacts.append_empty_r in Hs, Hd. rewrite Hs, Hd. split; [done | by left].
    + rewrite JSFacts.startsWith_append, JSFacts.drop_append. split; [done | by right].
Qed.

Lemma scopesLoop_spec (filter : string) (scopes : list string) (d : bool) :
  scopesLoop filter scopes d = existsb (fun scope => within scope filter) scopes || d.
Proof.
  induction scopes as [|scope rest IH]; cbn; [done|].
  rewrite withinScope_within. destruct (within scope filter); [done | exact IH].
Qed.

Lemma truthy_orEmpty (o : option string) : JS.truthy o = true -> o = Some (JS.orEmpty o).
Proof. by destruct o as [[|]|]. Qed.

Lemma tokensLoop_spec (mask : Mask.t) (matchReplace : option Replace.t) (p : Position)
    (tokens : list Vsctm.IToken) (d : bool) :
  tokensLoop mask matchReplace p tokens d
  = d || match scopeFilter mask matchReplace with
         | Some filter =>
             existsb (fun token =>
                        tokenAt p token
                        && existsb (fun scope => within scope filter) (Vsctm.scopes token))
               tokens
         | None => false
         end.
Proof.
  revert d. induction tokens as [|token rest IH]; intros d; cbn [tokensLoop].
  - destruct (scopeFilter mask matchReplace); cbn; by rewrite orb_false_r.
  - rewrite IH. clear IH. unfold scopeFilter, tokenAt. rewrite Z.geb_leb.
    destruct (replaceScope matchReplace) as [[|c0 s0]|];
      [destruct (Mask.scope mask) as [[|c1 s1]|] | | destruct (Mask.scope mask) as [[|c1 s1]|]];
      cbn [JS.truthy JS.orEmpty existsb];
      destruct ((Vsctm.startIndex token <=? character p)
                && (character p <? Vsctm.endIndex token));
      rewrite ?scopesLoop_spec; cbn [andb orb];
      repeat match goal with
             | |- context [existsb ?f ?l] => destruct (existsb f l)
             end;
      by destruct d.
Qed.

Lemma scopeFilter_None (mask : Mask.t) (matchReplace : option Replace.t) :
  scopeFilter mask matchReplace = None <->
  JS.truthy (Mask.scope mask) || JS.truthy (replaceScope matchReplace) = false.
Proof.
  unfold scopeFilter.
  destruct (JS.truthy (replaceScope matchReplace)) eqn:Hr.
  - rewrite (truthy_orEmpty _ Hr), orb_true_r. split; done.
  - destruct (JS.truthy (Mask.scope mask)) eqn:Hm.
    + rewrite (truthy_orEmpty _ Hm). split; done.
    + split; done.
Qed.

(** One run of the scope block, from [decorateSymbol = false], decides what
    the rule of the specification says of the scope. *)
Lemma scopeBlock_scopeMatches (c : Site) (m : RegExp.ExecArray) :
  scopeBlock c (matchReplaceOf (site_mask c) (RegExp.matched m))
    (positionAt (site_document c) (RegExp.index m)) false = JS.Returns true
  <-> scopeMatches c m = true.
Proof.
  unfold scopeBlock, scopeMatches, lineTokens, lineAtPosition. cbn [lineNumber].
  pose proof (scopeFilter_None (site_mask c)
                (matchReplaceOf (site_mask c) (RegExp.matched m))) as HN.
  destruct (scopeFilter (site_mask c) (matchReplaceOf (site_mask c) (RegExp.matched m)))
    as [filter|] eqn:Hf.
  - destruct (JS.truthy (Mask.scope (site_mask c))
              || JS.truthy (replaceScope (matchReplaceOf (site_mask c) (RegExp.matched m)))).
    2:{ destruct HN as [_ HN]. by specialize (HN eq_refl). }
    destruct (site_scopedDocument c) as [sd|]; [|done].
    destruct (ScopedDocument.getTokens sd _) as [[tokens|]| |]; try done.
    rewrite tokensLoop_spec, Hf. cbn [orb]. split; [by intros [= ->] | by intros ->].
  - destruct HN as [HN _]. by rewrite (HN eq_refl).
Qed.

Lemma selectionsLoop_step (c : Site) (m : RegExp.ExecArray) (matchReplace : option Replace.t)
    (startPos : Position) (selection : Selection) (rest : list Selection) (d : bool) :
  selectionsLoop c m matchReplace startPos (selection :: rest) d
  = if revealedBy c m selection then JS.Returns false
    else if d then selectionsLoop c m matchReplace startPos rest d
    else match scopeBlock c matchReplace startPos d with
         | JS.Returns d' => selectionsLoop c m matchReplace startPos rest d'
         | JS.Throws => JS.Throws
         | JS.OutOfFuel => JS.OutOfFuel
         end.
Proof.
  cbn [selectionsLoop]. unfold revealedBy.
  by destruct (selectionOffsets (site_document c) selection).
Qed.

(** When the loop over the selections ends with [decorateSymbol = true]. *)
Lemma selectionsLoop_true (c : Site) (m : RegExp.ExecArray) (matchReplace : option Replace.t)
    (startPos : Position) (sels : list Selection) :
  forall d,
    selectionsLoop c m matchReplace startPos sels d = JS.Returns true <->
    (forall selection, selection ∈ sels -> revealedBy c m selection = false) /\
    (d = true \/ (sels <> [] /\ scopeBlock c matchReplace startPos false = JS.Returns true)).
Proof.
  induction sels as [|selection rest IH]; intros d.
  - cbn. split.
    + intros [= ->]. split; [by intros ? ?%elem_of_nil | by left].
    + intros [_ [->|[? _]]]; done.
  - rewrite selectionsLoop_step.
    destruct (revealedBy c m selection) eqn:Hrev.
    { split; [done|]. intros [H _]. specialize (H selection (list_elem_of_here _ _)).
      congruence. }
    assert (Hall : (forall s, s ∈ selection :: rest -> revealedBy c m s = false) <->
                   (forall s, s ∈ rest -> revealedBy c m s = false)).
    { split; intros H s Hs.
      - apply H. by apply list_elem_of_further.
      - apply elem_of_cons in Hs as [->|Hs]; [done | by apply H]. }
    rewrite Hall. destruct d.
    + rewrite IH. split; intros [H _]; (split; [done | by left]).
    + destruct (scopeBlock c matchReplace startPos false) as [b| |] eqn:Hb.
      * rewrite IH. split.
        -- intros [H [->|[_ Hr]]]; (split; [done|]); right; split; congruence.
        -- intros [H [?|[_ Hr]]]; [done|]. split; [done|]. left. congruence.
      * split; [done|]. by intros [_ [?|[_ ?]]].
      * split; [done|]. by intros [_ [?|[_ ?]]].
Qed.

(** A match is decorated when no selection reveals it and, with at least
    one selection, the scope rule lets it be. *)
Lemma decorateSymbolOf_true (c : Site) (sels : list Selection) (m : RegExp.ExecArray) :
  decorateSymbolOf c sels m = JS.Returns true <->
  (forall selection, selection ∈ sels -> revealedBy c m selection = false) /\
  sels <> [] /\ scopeMatches c m = true.
Proof.
  unfold decorateSymbolOf. rewrite selectionsLoop_true, scopeBlock_scopeMatches.
  split.
  - intros [H [?|?]]; [done | by split].
  - intros [H ?]. split; [done | by right].
Qed.

Lemma selectionsLoop_fuel (c : Site) (m : RegExp.ExecArray) (matchReplace : option Replace.t)
    (startPos : Position) (sels : list Selection) :
  forall d, selectionsLoop c m matchReplace startPos sels d <> JS.OutOfFuel.
Proof.
  induction sels as [|selection rest IH]; intros d; [done|].
  rewrite selectionsLoop_step.
  destruct (revealedBy c m selection); [done|].
  destruct d; [apply IH|].
  destruct (scopeBlock c matchReplace startPos false) as [b| |] eqn:Hb; [apply IH | done |].
  exfalso. unfold scopeBlock in Hb.
  destruct (_ || _); [|done].
  destruct (site_scopedDocument c) as [sd|]; [|done].
  unfold ScopedDocument.getTokens in Hb.
  destruct (ScopedDocument.grammar sd); [|done].
  destruct (ScopedDocument.document sd) as [d0|]; [|done].
  by destruct (lineAt d0 _).
Qed.

End DecisionFacts.

(** ** The scan *)

Module ScanFacts.
Import Vscode MaskController Notions.

Lemma search_Some (m : string -> Z -> option nat) (text : string) (n : nat) :
  forall i i' len,
    RegExp.search m text i n = Some (i', len) ->
    i <= i' < i + Z.of_nat n /\ m text i' = Some len.
Proof.
  induction n as [|n IH]; intros i i' len H; [done|].
  cbn in H. destruct (m text i) as [len0|] eqn:Hm.
  - injection H as <- <-. split; [lia | done].
  - apply IH in H as [H1 H2]. split; [lia | done].
Qed.

Lemma exec_Some (r r' : RegExp.t) (text : string) (m : RegExp.ExecArray) :
  RegExp.exec r text = (Some m, r') ->
  Z.max 0 (RegExp.lastIndex r) <= RegExp.index m <= JS.length text /\
  exists len : nat,
    RegExp.matched m = JS.slice text (RegExp.index m) len /\
    r' = RegExp.setLastIndex (RegExp.index m + Z.of_nat len) r.
Proof.
  unfold RegExp.exec.
  destruct (RegExp.search _ _ _ _) as [[i len]|] eqn:Hs; [|done].
  intros [= <- <-]. apply search_Some in Hs as [Hi _]. cbn.
  split; [lia | by exists len].
Qed.

Lemma exec_source (r r' : RegExp.t) (text : string) (o : option RegExp.ExecArray) :
  RegExp.exec r text = (o, r') ->
  RegExp.source r' = RegExp.source r /\ RegExp.matcher r' = RegExp.matcher r.
Proof.
  unfold RegExp.exec.
  destruct (RegExp.search _ _ _ _) as [[i len]|]; by intros [= <- <-].
Qed.

(** A match that is not empty moves [lastIndex] past its index. *)
Lemma exec_progress (r r' : RegExp.t) (text : string) (m : RegExp.ExecArray) :
  RegExp.exec r text = (Some m, r') ->
  JS.length (RegExp.matched m) <> 0 ->
  RegExp.index m < RegExp.lastIndex r' /\
  (remaining text r' < remaining text r)%nat.
Proof.
  intros He Hlen. apply exec_Some in He as (Hi & len & Hm & ->).
  rewrite Hm in Hlen. apply JSFacts.take_nonempty in Hlen.
  unfold remaining. cbn. lia.
Qed.

Lemma scanned_bounds (text : string) (fuel : nat) :
  forall r m, m ∈ scanned fuel r text ->
    Z.max 0 (RegExp.lastIndex r) <= RegExp.index m <= JS.length text.
Proof.
  induction fuel as [|fuel IH]; intros r m Hm; cbn in Hm; [by apply elem_of_nil in Hm|].
  destruct (RegExp.exec r text) as [[m0|] r'] eqn:He; [|by apply elem_of_nil in Hm].
  destruct (JS.length (RegExp.matched m0) =? 0) eqn:Hl; [by apply elem_of_nil in Hm|].
  pose proof (exec_Some _ _ _ _ He) as [Hb _].
  apply elem_of_cons in Hm as [->|Hm]; [done|].
  apply IH in Hm. apply exec_progress in He as [? _]; lia.
Qed.

(** The matches of a scan start at different indices. *)
Lemma scanned_index_inj (text : string) (fuel : nat) :
  forall r m1 m2,
    m1 ∈ scanned fuel r text -> m2 ∈ scanned fuel r text ->
    RegExp.index m1 = RegExp.index m2 -> m1 = m2.
Proof.
  induction fuel as [|fuel IH]; intros r m1 m2 H1 H2 Heq; cbn in H1, H2;
    [by apply elem_of_nil in H1|].
  destruct (RegExp.exec r text) as [[m0|] r'] eqn:He; [|by apply elem_of_nil in H1].
  destruct (JS.length (RegExp.matched m0) =? 0) eqn:Hl; [by apply elem_of_nil in H1|].
  apply exec_progress in He as [Hlt _]; [|lia].
  apply elem_of_cons in H1 as [->|H1]; apply elem_of_cons in H2 as [->|H2].
  - done.
  - apply scanned_bounds in H2. lia.
  - apply scanned_bounds in H1. lia.
  - by apply (IH r').
Qed.

(** Matches of a scan with the same range are the same match. *)
Lemma scanned_range_inj (d : TextDocument) (fuel : nat) (r : RegExp.t)
    (m1 m2 : RegExp.ExecArray) :
  m1 ∈ scanned fuel r (getText d) -> m2 ∈ scanned fuel r (getText d) ->
  matchRange d m1 = matchRange d m2 -> m1 = m2.
Proof.
  intros H1 H2 Heq. apply (scanned_index_inj _ _ _ _ _ H1 H2).
  apply scanned_bounds in H1, H2.
  apply (VscodeFacts.positionAt_inj d); [lia | lia |].
  unfold matchRange in Heq. congruence.
Qed.

(** The three ways through [decorate]: no replacement text, a key that
    the scan has already, a key that is new. *)
Ltac decorate_cases :=
  destruct (keyedReplace _); [|done];
  destruct (bool_decide _); [done|];
  by destruct (initialize _ _ _ _).

Lemma decorate_pattern (c : Site) (m : RegExp.ExecArray) (s : Scan) :
  pattern (decorate c m s) = pattern s.
Proof.
  unfold decorate. decorate_cases.
Qed.

Lemma decorate_setPattern (c : Site) (m : RegExp.ExecArray) (r : RegExp.t) (s : Scan) :
  RegExp.source r = RegExp.source (pattern s) ->
  decorate c m (setPattern r s) = setPattern r (decorate c m s).
Proof.
  intros Hs. unfold decorate, setPattern. cbn. rewrite Hs. decorate_cases.
Qed.

Lemma decorateAll_setPattern (c : Site) (ms : list RegExp.ExecArray) (r : RegExp.t) :
  forall s, RegExp.source r = RegExp.source (pattern s) ->
    decorateAll c ms (setPattern r s) = setPattern r (decorateAll c ms s).
Proof.
  induction ms as [|m ms IH]; intros s Hs; [done|].
  unfold decorateAll in *. cbn [foldl].
  rewrite decorate_setPattern by done. apply IH. by rewrite decorate_pattern.
Qed.

(** The scan does not run out of rounds when it is given more of them than
    there are indices left to try. *)
Lemma scan_fuel (c : Site) (sels : list Selection) (text : string) :
  forall fuel s,
    (remaining text (pattern s) < fuel)%nat ->
    scan fuel c sels text s <> JS.OutOfFuel.
Proof.
  induction fuel as [|fuel IH]; intros s Hf; [lia|].
  cbn [scan]. destruct (RegExp.exec (pattern s) text) as [[m|] r] eqn:He; [|done].
  destruct (JS.length (RegExp.matched m) =? 0) eqn:Hl; [done|].
  apply exec_progress in He as [_ Hlt]; [|lia].
  pose proof (DecisionFacts.selectionsLoop_fuel c m
                (matchReplaceOf (site_mask c) (RegExp.matched m))
                (positionAt (site_document c) (RegExp.index m)) sels false) as Hd.
  fold (decorateSymbolOf c sels m) in Hd.
  destruct (decorateSymbolOf c sels m) as [[|]| |]; [| |done|done].
  - apply IH. rewrite decorate_pattern. cbn. lia.
  - apply IH. cbn. lia.
Qed.

Lemma remaining_scanFuel (text : string) (r : RegExp.t) :
  (remaining text r < scanFuel text)%nat.
Proof. unfold remaining, scanFuel, JS.length. lia. Qed.

(** More rounds than needed change nothing. *)
Lemma scan_more_fuel (c : Site) (sels : list Selection) (text : string) :
  forall fuel1 fuel2 s,
    (remaining text (pattern s) < fuel1)%nat ->
    (remaining text (pattern s) < fuel2)%nat ->
    scan fuel1 c sels text s = scan fuel2 c sels text s.
Proof.
  induction fuel1 as [|fuel1 IH]; intros fuel2 s H1 H2; [lia|].
  destruct fuel2 as [|fuel2]; [lia|]. cbn [scan].
  destruct (RegExp.exec (pattern s) text) as [[m|] r] eqn:He; [|done].
  destruct (JS.length (RegExp.matched m) =? 0) eqn:Hl; [done|].
  apply exec_progress in He as [_ Hlt]; [|lia].
  destruct (decorateSymbolOf c sels m) as [[|]| |]; [| |done|done].
  - apply IH; rewrite decorate_pattern; cbn; lia.
  - apply IH; cbn; lia.
Qed.

(** Whether a scan returns, and the pattern it leaves, depend on the
    pattern alone among the variables of the scan. *)
Lemma scan_returns_same (c : Site) (sels : list Selection) (text : string) :
  forall fuel s1 s1' s2,
    scan fuel c sels text s1 = JS.Returns s1' ->
    pattern s2 = pattern s1 ->
    exists s2', scan fuel c sels text s2 = JS.Returns s2' /\ pattern s2' = pattern s1'.
Proof.
  induction fuel as [|fuel IH]; intros s1 s1' s2 H Hp; [done|].
  cbn [scan] in *. rewrite Hp.
  destruct (RegExp.exec (pattern s1) text) as [[m|] r] eqn:He.
  2:{ revert H. intros [= <-]. by eexists. }
  destruct (JS.length (RegExp.matched m) =? 0) eqn:Hl.
  { revert H. intros [= <-]. by eexists. }
  destruct (decorateSymbolOf c sels m) as [[|]| |]; [| |done|done].
  - apply (IH _ _ _ H). by rewrite !decorate_pattern.
  - by apply (IH _ _ _ H).
Qed.

(** A scan changes nothing of its pattern but [lastIndex]. *)
Lemma scan_pattern (c : Site) (sels : list Selection) (text : string) :
  forall fuel s s',
    scan fuel c sels text s = JS.Returns s' ->
    pattern s' = RegExp.setLastIndex (RegExp.lastIndex (pattern s')) (pattern s).
Proof.
  assert (Hstep : forall r r' o, RegExp.exec r text = (o, r') ->
            r' = RegExp.setLastIndex (RegExp.lastIndex r') r).
  { intros r r' o He. apply exec_source in He as [Hs Hm].
    destruct r'. cbn in *. unfold RegExp.setLastIndex. cbn. by rewrite Hs, Hm. }
  induction fuel as [|fuel IH]; intros s s' H; [done|].
  cbn [scan] in H.
  destruct (RegExp.exec (pattern s) text) as [[m|] r] eqn:He.
  2:{ revert H. intros [= <-]. cbn. by apply (Hstep _ _ _ He). }
  destruct (JS.length (RegExp.matched m) =? 0) eqn:Hl.
  { revert H. intros [= <-]. cbn. by apply (Hstep _ _ _ He). }
  apply Hstep in He.
  destruct (decorateSymbolOf c sels m) as [[|]| |]; [| |done|done];
    apply IH in H; rewrite ?decorate_pattern in H; cbn in H;
    rewrite H, He; reflexivity.
Qed.

(** A scan that returns has decorated, in order, the matches it went
    through that were to be decorated, and stopped the pattern where its last
    [exec] left it. *)
Lemma scan_fold (c : Site) (sels : list Selection) (text : string) :
  forall fuel s s',
    scan fuel c sels text s = JS.Returns s' ->
    RegExp.source (pattern s') = RegExp.source (pattern s) /\
    s' = setPattern (pattern s')
           (decorateAll c (List.filter (isDecorated c sels) (scanned fuel (pattern s) text)) s).
Proof.
  induction fuel as [|fuel IH]; intros s s' H; [done|].
  cbn [scan scanned] in *.
  destruct (RegExp.exec (pattern s) text) as [[m|] r] eqn:He.
  2:{ revert H. intros [= <-]. apply exec_source in He as [Hs _]. by split. }
  pose proof (exec_source _ _ _ _ He) as [Hs _].
  destruct (JS.length (RegExp.matched m) =? 0) eqn:Hl.
  { revert H. intros [= <-]. by split. }
  cbn [List.filter]. unfold isDecorated at 1.
  destruct (decorateSymbolOf c sels m) as [[|]| |] eqn:Hd; [| |done|done].
  - apply IH in H as [H1 H2]. rewrite decorate_pattern in H1, H2. cbn in H1, H2.
    split; [congruence|].
    rewrite H2 at 1. unfold decorateAll at 2. cbn [foldl]. fold (decorateAll c).
    rewrite decorate_setPattern by done.
    rewrite (decorateAll_setPattern c _ r) by (by rewrite decorate_pattern).
    reflexivity.
  - apply IH in H as [H1 H2]. cbn in H1, H2. split; [congruence|].
    rewrite H2 at 1. rewrite (decorateAll_setPattern c _ r) by done.
    reflexivity.
Qed.

(** *** What [initialize] does to the cache *)

Lemma initialize_cached (id : string) (mask : Mask.t) (this : MaskController.t) (w : Window) :
  is_Some (decorationTypeMap this !! id) -> initialize id mask this w = (this, w).
Proof. intros [type H]. unfold initialize. by rewrite H. Qed.

Lemma initialize_spec (id : string) (mask : Mask.t) (this : MaskController.t) (w : Window) :
  is_Some (decorationTypeMap (initialize id mask this w).1 !! id) /\
  (forall key type, decorationTypeMap this !! key = Some type ->
     decorationTypeMap (initialize id mask this w).1 !! key = Some type) /\
  (forall key, key <> id ->
     decorationTypeMap (initialize id mask this w).1 !! key = decorationTypeMap this !! key) /\
  scopedDocument (initialize id mask this w).1 = scopedDocument this /\
  editor (initialize id mask this w).1 = editor this /\
  cursorStyle (initialize id mask this w).2 = cursorStyle w.
Proof.
  unfold initialize. destruct (decorationTypeMap this !! id) as [type0|] eqn:Hid; cbn.
  - by rewrite Hid.
  - rewrite lookup_insert_eq. repeat split; try done.
    + intros key type Hk. rewrite lookup_insert_ne; [done | congruence].
    + intros key Hk. by rewrite lookup_insert_ne.
Qed.

Lemma initialize_wellFormed (id : string) (mask : Mask.t) (this : MaskController.t)
    (w : Window) :
  wellFormed this w ->
  wellFormed (initialize id mask this w).1 (initialize id mask this w).2.
Proof.
  intros [Hlt Hinj]. unfold initialize.
  destruct (decorationTypeMap this !! id) as [type0|] eqn:Hid; [done|].
  split; cbn.
  - intros key type. rewrite length_app. cbn.
    destruct (decide (id = key)) as [->|Hne].
    + rewrite lookup_insert_eq. intros [= <-]. lia.
    + rewrite lookup_insert_ne by done. intros H%Hlt. lia.
  - intros key1 key2 type.
    destruct (decide (id = key1)) as [He1|Hne1]; destruct (decide (id = key2)) as [He2|Hne2];
      subst; rewrite ?lookup_insert_eq, ?lookup_insert_ne by done.
    + done.
    + intros [= <-] H%Hlt. lia.
    + intros H%Hlt [= <-]. lia.
    + apply Hinj.
Qed.

(** *** What one decoration does to the variables of the scan *)

Lemma optionsAt_push (key key' : string) (o : DecorationOptions)
    (opts : gmap string (list DecorationOptions)) :
  optionsAt (pushOption key o opts) key'
  = if decide (key = key') then optionsAt opts key ++ [o] else optionsAt opts key'.
Proof.
  unfold optionsAt, pushOption. destruct (decide (key = key')) as [->|Hne].
  - by rewrite lookup_insert_eq.
  - by rewrite lookup_insert_ne.
Qed.

Lemma decorate_options (c : Site) (m : RegExp.ExecArray) (s : Scan) :
  decorationOptions (decorate c m s)
  = pushOption (keyOf (RegExp.source (pattern s)) c m) (optionOf c m) (decorationOptions s).
Proof.
  unfold decorate, keyOf, optionOf, replaceOf. decorate_cases.
Qed.

Lemma decorate_keys (c : Site) (m : RegExp.ExecArray) (s : Scan) :
  matchReplaceKeys (decorate c m s)
  = match keyedReplace (replaceOf c m) with
    | Some _ =>
        if bool_decide (keyOf (RegExp.source (pattern s)) c m ∈ matchReplaceKeys s)
        then matchReplaceKeys s
        else matchReplaceKeys s ++ [keyOf (RegExp.source (pattern s)) c m]
    | None => matchReplaceKeys s
    end.
Proof.
  unfold decorate, keyOf, replaceOf. decorate_cases.
Qed.

Lemma decorate_state (c : Site) (m : RegExp.ExecArray) (s : Scan) :
  (this (decorate c m s), window (decorate c m s))
  = match keyedReplace (replaceOf c m) with
    | Some r =>
        if bool_decide (keyOf (RegExp.source (pattern s)) c m ∈ matchReplaceKeys s)
        then (this s, window s)
        else initialize (keyOf (RegExp.source (pattern s)) c m) (replaceMask r)
               (this s) (window s)
    | None => (this s, window s)
    end.
Proof.
  unfold decorate, keyOf, replaceOf. decorate_cases.
Qed.

Lemma decorateAll_cons (c : Site) (m : RegExp.ExecArray) (ms : list RegExp.ExecArray)
    (s : Scan) :
  decorateAll c (m :: ms) s = decorateAll c ms (decorate c m s).
Proof. reflexivity. Qed.


(** *** What the decorations of a scan add up to *)

(** Every option gathered was there before or is the option of one of the
    decorated matches, under the key of that match. *)
Lemma decorateAll_options_sound (c : Site) (ms : list RegExp.ExecArray) :
  forall s key o,
    o ∈ optionsAt (decorationOptions (decorateAll c ms s)) key ->
    o ∈ optionsAt (decorationOptions s) key \/
    exists m, m ∈ ms /\ o = optionOf c m /\ key = keyOf (RegExp.source (pattern s)) c m.
Proof.
  induction ms as [|m ms IH]; intros s key o Ho; [by left|].
  rewrite decorateAll_cons in Ho. apply IH in Ho as [Ho|(m' & Hm' & -> & ->)].
  - rewrite decorate_options, optionsAt_push in Ho.
    destruct (decide _) as [<-|Hne]; [|by left].
    apply elem_of_app in Ho as [Ho|Ho%list_elem_of_singleton]; [by left|].
    right. exists m. split; [apply list_elem_of_here | done].
  - right. exists m'. rewrite decorate_pattern.
    split; [by apply list_elem_of_further | done].
Qed.

Lemma decorateAll_options_mono (c : Site) (ms : list RegExp.ExecArray) :
  forall s key o,
    o ∈ optionsAt (decorationOptions s) key ->
    o ∈ optionsAt (decorationOptions (decorateAll c ms s)) key.
Proof.
  induction ms as [|m ms IH]; intros s key o Ho; [done|].
  rewrite decorateAll_cons. apply IH.
  rewrite decorate_options, optionsAt_push.
  destruct (decide _) as [<-|Hne]; [|done]. apply elem_of_app. by left.
Qed.

(** The option of every decorated match is gathered under its key. *)
Lemma decorateAll_options_complete (c : Site) (ms : list RegExp.ExecArray) :
  forall s m, m ∈ ms ->
    optionOf c m
    ∈ optionsAt (decorationOptions (decorateAll c ms s)) (keyOf (RegExp.source (pattern s)) c m).
Proof.
  induction ms as [|m0 ms IH]; intros s m Hm; [by apply elem_of_nil in Hm|].
  rewrite decorateAll_cons. apply elem_of_cons in Hm as [->|Hm].
  - apply decorateAll_options_mono.
    rewrite decorate_options, optionsAt_push.
    destruct (decide _); [|done]. apply elem_of_app. right. by apply list_elem_of_singleton.
  - specialize (IH (decorate c m0 s) m Hm). by rewrite decorate_pattern in IH.
Qed.

(** The keys of the replacements: those there before, and the keys of the
    decorated matches that have a replacement text. *)
Lemma decorateAll_keys (c : Site) (ms : list RegExp.ExecArray) :
  forall s key,
    key ∈ matchReplaceKeys (decorateAll c ms s) <->
    key ∈ matchReplaceKeys s \/
    exists m, m ∈ ms /\ is_Some (keyedReplace (replaceOf c m)) /\
              key = keyOf (RegExp.source (pattern s)) c m.
Proof.
  induction ms as [|m ms IH]; intros s key.
  - split; [by left|]. intros [?|(m & Hm & _)]; [done | by apply elem_of_nil in Hm].
  - rewrite decorateAll_cons, IH, decorate_pattern, decorate_keys. split.
    + intros [Hk|(m' & Hm' & Hr & ->)].
      * destruct (keyedReplace (replaceOf c m)) as [r|] eqn:Hr; [|by left].
        destruct (bool_decide _); [by left|].
        apply elem_of_app in Hk as [Hk|Hk%list_elem_of_singleton]; [by left|].
        right. exists m. rewrite Hr. split; [apply list_elem_of_here | by eauto].
      * right. exists m'. split; [by apply list_elem_of_further | done].
    + intros [Hk|(m' & Hm' & Hr & ->)].
      * left. destruct (keyedReplace (replaceOf c m)); [|done].
        destruct (bool_decide _); [done|]. apply elem_of_app. by left.
      * apply elem_of_cons in Hm' as [->|Hm'].
        -- left. destruct Hr as [r Hr]. rewrite Hr.
           destruct (bool_decide _) eqn:Hb; [by apply bool_decide_eq_true in Hb|].
           apply elem_of_app. right. by apply list_elem_of_singleton.
        -- right. by exists m'.
Qed.

Lemma decorate_frame (c : Site) (m : RegExp.ExecArray) (s : Scan) :
  (forall key type, decorationTypeMap (this s) !! key = Some type ->
     decorationTypeMap (this (decorate c m s)) !! key = Some type) /\
  scopedDocument (this (decorate c m s)) = scopedDocument (this s) /\
  editor (this (decorate c m s)) = editor (this s) /\
  cursorStyle (window (decorate c m s)) = cursorStyle (window s) /\
  (wellFormed (this s) (window s) ->
   wellFormed (this (decorate c m s)) (window (decorate c m s))) /\
  (forall key, key ∈ matchReplaceKeys (decorate c m s) ->
     key ∈ matchReplaceKeys s \/ is_Some (decorationTypeMap (this (decorate c m s)) !! key)).
Proof.
  pose proof (decorate_state c m s) as Hst. pose proof (decorate_keys c m s) as Hk.
  destruct (keyedReplace (replaceOf c m)) as [r|].
  2:{ injection Hst as -> ->. rewrite Hk. split_and!; try done. by left. }
  destruct (bool_decide _).
  { injection Hst as -> ->. rewrite Hk. split_and!; try done. by left. }
  pose proof (initialize_spec (keyOf (RegExp.source (pattern s)) c m) (replaceMask r)
                (this s) (window s)) as (Hin & Hmono & _ & Hsd & Hed & Hcs).
  pose proof (initialize_wellFormed (keyOf (RegExp.source (pattern s)) c m) (replaceMask r)
                (this s) (window s)) as Hwf.
  rewrite <- Hst in Hin, Hmono, Hsd, Hed, Hcs, Hwf. cbn [fst snd] in *.
  split_and!; try done.
  intros key. rewrite Hk.
  intros [?|Hx%list_elem_of_singleton]%elem_of_app; [by left | subst key; by right].
Qed.

Lemma decorateAll_frame (c : Site) (ms : list RegExp.ExecArray) :
  forall s,
    (forall key type, decorationTypeMap (this s) !! key = Some type ->
       decorationTypeMap (this (decorateAll c ms s)) !! key = Some type) /\
    scopedDocument (this (decorateAll c ms s)) = scopedDocument (this s) /\
    editor (this (decorateAll c ms s)) = editor (this s) /\
    cursorStyle (window (decorateAll c ms s)) = cursorStyle (window s) /\
    (wellFormed (this s) (window s) ->
     wellFormed (this (decorateAll c ms s)) (window (decorateAll c ms s))) /\
    (forall key, key ∈ matchReplaceKeys (decorateAll c ms s) ->
       key ∈ matchReplaceKeys s \/
       is_Some (decorationTypeMap (this (decorateAll c ms s)) !! key)).
Proof.
  induction ms as [|m ms IH]; intros s.
  - split_and!; try done. by left.
  - rewrite decorateAll_cons.
    destruct (IH (decorate c m s)) as (Hmono & Hsd & Hed & Hcs & Hwf & Hkeys).
    destruct (decorate_frame c m s) as (Hmono1 & Hsd1 & Hed1 & Hcs1 & Hwf1 & Hkeys1).
    split_and!; try congruence; [by eauto | by eauto |].
    intros key [Hk|Hk]%Hkeys; [|by right].
    apply Hkeys1 in Hk as [?|[type Hk]]; [by left|]. right. eauto.
Qed.

(** The options and the keys gathered do not depend on the cache. *)
Lemma decorateAll_cache_irrelevant (c : Site) (ms : list RegExp.ExecArray) :
  forall s1 s2,
    RegExp.source (pattern s1) = RegExp.source (pattern s2) ->
    decorationOptions s1 = decorationOptions s2 ->
    matchReplaceKeys s1 = matchReplaceKeys s2 ->
    decorationOptions (decorateAll c ms s1) = decorationOptions (decorateAll c ms s2) /\
    matchReplaceKeys (decorateAll c ms s1) = matchReplaceKeys (decorateAll c ms s2).
Proof.
  induction ms as [|m ms IH]; intros s1 s2 Hs Ho Hk; [done|].
  rewrite !decorateAll_cons. apply IH.
  - by rewrite !decorate_pattern.
  - by rewrite !decorate_options, Hs, Ho.
  - by rewrite !decorate_keys, Hs, Hk.
Qed.

(** With every new key in the cache already, the cache and the window are
    left as they were. *)
Lemma decorateAll_cached (c : Site) (ms : list RegExp.ExecArray) :
  forall s,
    (forall key, key ∈ matchReplaceKeys (decorateAll c ms s) ->
       key ∈ matchReplaceKeys s \/ is_Some (decorationTypeMap (this s) !! key)) ->
    this (decorateAll c ms s) = this s /\ window (decorateAll c ms s) = window s.
Proof.
  induction ms as [|m ms IH]; intros s Hall; [done|].
  rewrite decorateAll_cons in *.
  assert (Hstep : this (decorate c m s) = this s /\ window (decorate c m s) = window s).
  { pose proof (decorate_state c m s) as Hst. pose proof (decorate_keys c m s) as Hk.
    destruct (keyedReplace (replaceOf c m)) as [r|]; [|by injection Hst].
    destruct (bool_decide _) eqn:Hb; [by injection Hst|].
    apply bool_decide_eq_false in Hb.
    destruct (Hall (keyOf (RegExp.source (pattern s)) c m)) as [?|Hc]; [|done|].
    - apply decorateAll_keys. left. rewrite Hk. apply elem_of_app. right.
      by apply list_elem_of_singleton.
    - rewrite (initialize_cached _ _ _ _ Hc) in Hst. by injection Hst. }
  destruct Hstep as [Ht Hw].
  destruct (IH (decorate c m s)) as [Ht' Hw']; [|split; congruence].
  intros key Hk. rewrite Ht. destruct (Hall key Hk) as [Hin|?]; [|by right].
  left. rewrite decorate_keys. destruct (keyedReplace _); [|done].
  destruct (bool_decide _); [done|]. apply elem_of_app. by left.
Qed.

End ScanFacts.

(** ** Rendering and eviction *)

Module CommitFacts.
Import Vscode MaskController Notions.

Lemma setDecorations_id (type : TextEditorDecorationType) (options : list DecorationOptions)
    (e : TextEditor) :
  decorations e !! type = Some options -> setDecorations type options e = e.
Proof.
  intros H. unfold setDecorations. rewrite (insert_id _ _ _ H). by destruct e.
Qed.

Lemma renderLoop_cons (types : gmap string TextEditorDecorationType)
    (opts : gmap string (list DecorationOptions)) (key : string) (keys : list string)
    (e : TextEditor) :
  renderLoop types opts (key :: keys) e
  = renderLoop types opts keys
      (match types !! key with
       | Some type => setDecorations type (optionsAt opts key) e
       | None => e
       end).
Proof. reflexivity. Qed.

Lemma renderLoop_document (types : gmap string TextEditorDecorationType)
    (opts : gmap string (list DecorationOptions)) (keys : list string) :
  forall e,
    document (renderLoop types opts keys e) = document e /\
    selections (renderLoop types opts keys e) = selections e.
Proof.
  induction keys as [|key keys IH]; intros e; [done|].
  rewrite renderLoop_cons. destruct (IH (match types !! key with
                                         | Some type => setDecorations type (optionsAt opts key) e
                                         | None => e
                                         end)) as [-> ->].
  by destruct (types !! key).
Qed.

(** What a type shows after the loop: the options of one of the keys that
    are rendered with this type, or what it showed before when there is none. *)
Lemma renderLoop_lookup (types : gmap string TextEditorDecorationType)
    (opts : gmap string (list DecorationOptions)) (keys : list string)
    (type : TextEditorDecorationType) :
  forall e,
    (exists key, key ∈ keys /\ types !! key = Some type /\
       decorations (renderLoop types opts keys e) !! type = Some (optionsAt opts key)) \/
    ((forall key, key ∈ keys -> types !! key <> Some type) /\
     decorations (renderLoop types opts keys e) !! type = decorations e !! type).
Proof.
  induction keys as [|key keys IH]; intros e.
  - right. split; [by intros ? ?%elem_of_nil | done].
  - rewrite renderLoop_cons.
    destruct (IH (match types !! key with
                  | Some type => setDecorations type (optionsAt opts key) e
                  | None => e
                  end)) as [(key' & Hin & Hty & Hlk)|[Hnone Hlk]].
    + left. exists key'. split; [by apply list_elem_of_further | done].
    + destruct (types !! key) as [type'|] eqn:Hty.
      * destruct (decide (type' = type)) as [->|Hne].
        -- left. exists key. split; [apply list_elem_of_here|]. split; [done|].
           rewrite Hlk. cbn. apply lookup_insert_eq.
        -- right. split.
           ++ intros k [->|Hk]%elem_of_cons; [congruence | by apply Hnone].
           ++ rewrite Hlk. cbn. by apply lookup_insert_ne.
      * right. split; [|done].
        intros k [->|Hk]%elem_of_cons; [congruence | by apply Hnone].
Qed.

(** With one key per type, a rendered key shows its own options. *)
Lemma renderLoop_rendered (types : gmap string TextEditorDecorationType)
    (opts : gmap string (list DecorationOptions)) (keys : list string)
    (e : TextEditor) (key : string) (type : TextEditorDecorationType) :
  (forall key1 key2 type, types !! key1 = Some type -> types !! key2 = Some type ->
     key1 = key2) ->
  key ∈ keys -> types !! key = Some type ->
  decorations (renderLoop types opts keys e) !! type = Some (optionsAt opts key).
Proof.
  intros Hinj Hin Hty.
  destruct (renderLoop_lookup types opts keys type e) as [(key' & _ & Hty' & Hlk)|[Hnone _]].
  - by rewrite (Hinj _ _ _ Hty Hty').
  - by destruct (Hnone key Hin).
Qed.

(** A loop that renders what is shown already changes nothing. *)
Lemma renderLoop_id (types : gmap string TextEditorDecorationType)
    (opts : gmap string (list DecorationOptions)) (keys : list string) :
  forall e,
    (forall key type, key ∈ keys -> types !! key = Some type ->
       decorations e !! type = Some (optionsAt opts key)) ->
    renderLoop types opts keys e = e.
Proof.
  induction keys as [|key keys IH]; intros e H; [done|].
  rewrite renderLoop_cons.
  assert (Hstep : match types !! key with
                  | Some type => setDecorations type (optionsAt opts key) e
                  | None => e
                  end = e).
  { destruct (types !! key) as [type|] eqn:Hty; [|done].
    apply setDecorations_id. apply (H key); [apply list_elem_of_here | done]. }
  rewrite Hstep. apply IH. intros k type Hk. apply H. by apply list_elem_of_further.
Qed.

Lemma evictLoop_cons (source : string) (keys : list string)
    (kv : string * TextEditorDecorationType)
    (entries : list (string * TextEditorDecorationType))
    (st : gmap string TextEditorDecorationType * TextEditor) :
  evictLoop source keys (kv :: entries) st
  = evictLoop source keys entries
      (if kept source keys kv.1 then st
       else (delete kv.1 st.1, setDecorations kv.2 [] st.2)).
Proof. reflexivity. Qed.

Lemma evictLoop_document (source : string) (keys : list string)
    (entries : list (string * TextEditorDecorationType)) :
  forall st,
    document (evictLoop source keys entries st).2 = document st.2 /\
    selections (evictLoop source keys entries st).2 = selections st.2.
Proof.
  induction entries as [|kv entries IH]; intros st; [done|].
  rewrite evictLoop_cons.
  destruct (IH (if kept source keys kv.1 then st
                else (delete kv.1 st.1, setDecorations kv.2 [] st.2))) as [-> ->].
  by destruct (kept source keys kv.1).
Qed.

(** The keys the last loop leaves in the cache. *)
Lemma evictLoop_types (source : string) (keys : list string)
    (entries : list (string * TextEditorDecorationType)) (key : string) :
  forall st,
    (evictLoop source keys entries st).1 !! key
    = if kept source keys key || negb (bool_decide (key ∈ entries.*1))
      then st.1 !! key else None.
Proof.
  induction entries as [|[k h] entries IH]; intros st.
  - cbn. rewrite bool_decide_eq_false_2 by apply not_elem_of_nil.
    by rewrite orb_true_r.
  - rewrite evictLoop_cons, IH. cbn [fst snd fmap list_fmap].
    destruct (kept source keys key) eqn:Hkey; cbn [orb].
    + destruct (kept source keys k) eqn:Hk; [done|]. cbn.
      rewrite lookup_delete_ne; [done | congruence].
    + destruct (decide (key = k)) as [->|Hne].
      * rewrite Hkey. cbn.
        rewrite (bool_decide_eq_true_2 (k ∈ k :: entries.*1)) by apply list_elem_of_here.
        cbn. rewrite lookup_delete_eq. by destruct (negb _).
      * assert (Hiff : bool_decide (key ∈ k :: entries.*1) = bool_decide (key ∈ entries.*1)).
        { apply bool_decide_ext. rewrite elem_of_cons.
          split; [by intros [?|?] | by right]. }
        rewrite Hiff. destruct (negb _); [|done].
        destruct (kept source keys k); [done|]. cbn. by rewrite lookup_delete_ne.
Qed.

(** What a type shows after the last loop. *)
Lemma evictLoop_lookup (source : string) (keys : list string)
    (entries : list (string * TextEditorDecorationType)) (type : TextEditorDecorationType) :
  forall st,
    ((exists key, (key, type) ∈ entries /\ kept source keys key = false) /\
     decorations (evictLoop source keys entries st).2 !! type = Some []) \/
    ((forall key, (key, type) ∈ entries -> kept source keys key = true) /\
     decorations (evictLoop source keys entries st).2 !! type = decorations st.2 !! type).
Proof.
  induction entries as [|[k h] entries IH]; intros st.
  - right. split; [by intros ? ?%elem_of_nil | done].
  - rewrite evictLoop_cons. cbn [fst snd].
    destruct (IH (if kept source keys k then st
                  else (delete k st.1, setDecorations h [] st.2)))
      as [[(key & Hin & Hk) Hlk]|[Hall Hlk]].
    + left. split; [|done]. exists key. split; [by apply list_elem_of_further | done].
    + destruct (kept source keys k) eqn:Hk.
      * right. split; [|done].
        intros key [Heq|Hin]%elem_of_cons; [by simplify_eq | by apply Hall].
      * destruct (decide (h = type)) as [->|Hne].
        -- left. split; [exists k; split; [apply list_elem_of_here | done]|].
           rewrite Hlk. cbn. apply lookup_insert_eq.
        -- right. split.
           ++ intros key [Heq|Hin]%elem_of_cons; [by simplify_eq | by apply Hall].
           ++ rewrite Hlk. cbn. by apply lookup_insert_ne.
Qed.

(** The last loop changes nothing when it keeps every key. *)
Lemma evictLoop_id (source : string) (keys : list string)
    (entries : list (string * TextEditorDecorationType)) :
  forall st,
    (forall kv, kv ∈ entries -> kept source keys kv.1 = true) ->
    evictLoop source keys entries st = st.
Proof.
  induction entries as [|kv entries IH]; intros st H; [done|].
  rewrite evictLoop_cons, (H kv) by apply list_elem_of_here.
  apply IH. intros kv' Hin. apply H. by apply list_elem_of_further.
Qed.

Lemma kept_spec (source : string) (keys : list string) (key : string) :
  kept source keys key = true <-> key = source \/ key ∈ keys.
Proof.
  unfold kept. rewrite orb_true_iff, !bool_decide_eq_true. done.
Qed.

End CommitFacts.

(** ** [apply], from the scan to the cache *)

Module ApplyFacts.
Import Vscode MaskController Notions.

Lemma apply_inv (pattern r' : RegExp.t) (mask : Mask.t) (this this' : MaskController.t)
    (w w' : Window) (e : TextEditor) :
  editor this = Some e ->
  apply pattern mask this w = JS.Returns (r', this', w') ->
  exists s, scanOf pattern mask this w e = JS.Returns s /\
            r' = MaskController.pattern s /\
            this' = commit (RegExp.source pattern) s e /\
            w' = window s.
Proof.
  intros He. unfold apply. rewrite He.
  destruct (scanOf pattern mask this w e) as [s| |]; [|done|done].
  intros [= <- <- <-]. by exists s.
Qed.

(** The variables of a scan that returns. *)
Lemma scanOf_inv (pattern : RegExp.t) (mask : Mask.t) (this : MaskController.t)
    (w : Window) (e : TextEditor) (s : Scan) :
  scanOf pattern mask this w e = JS.Returns s ->
  RegExp.source (MaskController.pattern s) = RegExp.source pattern /\
  s = setPattern (MaskController.pattern s)
        (decorateAll (siteOf mask this w e) (decoratedMatches pattern mask this w e)
           (scanStart pattern mask this w)).
Proof.
  unfold scanOf, scanStart, decoratedMatches, matchesOf.
  destruct (initialize (RegExp.source pattern) mask this w) as [this1 w1].
  intros H. by apply ScanFacts.scan_fold in H.
Qed.

Lemma decoratedMatches_spec (pattern : RegExp.t) (mask : Mask.t) (this : MaskController.t)
    (w : Window) (e : TextEditor) (m : RegExp.ExecArray) :
  m ∈ decoratedMatches pattern mask this w e <->
  m ∈ matchesOf pattern e /\
  decorateSymbolOf (siteOf mask this w e) (selections e) m = JS.Returns true.
Proof.
  unfold decoratedMatches. rewrite !list_elem_of_In, filter_In. unfold isDecorated.
  destruct (decorateSymbolOf _ _ m) as [[|]| |]; intuition congruence.
Qed.

(** Every option gathered by the scan is the option of a decorated match. *)
Lemma scanOf_options_sound (pattern : RegExp.t) (mask : Mask.t) (this : MaskController.t)
    (w : Window) (e : TextEditor) (s : Scan) (key : string) (o : DecorationOptions) :
  scanOf pattern mask this w e = JS.Returns s ->
  o ∈ optionsAt (decorationOptions s) key ->
  exists m, m ∈ decoratedMatches pattern mask this w e /\
            o = optionOf (siteOf mask this w e) m /\
            key = keyOf (RegExp.source pattern) (siteOf mask this w e) m.
Proof.
  intros Hscan. destruct (scanOf_inv _ _ _ _ _ _ Hscan) as [_ ->].
  cbn [setPattern decorationOptions].
  intros [Ho|H]%ScanFacts.decorateAll_options_sound; [|done].
  unfold optionsAt in Ho. cbn in Ho. rewrite lookup_empty in Ho.
  by apply elem_of_nil in Ho.
Qed.

Lemma scanOf_options_complete (pattern : RegExp.t) (mask : Mask.t)
    (this : MaskController.t) (w : Window) (e : TextEditor) (s : Scan)
    (m : RegExp.ExecArray) :
  scanOf pattern mask this w e = JS.Returns s ->
  m ∈ decoratedMatches pattern mask this w e ->
  optionOf (siteOf mask this w e) m
  ∈ optionsAt (decorationOptions s) (keyOf (RegExp.source pattern) (siteOf mask this w e) m).
Proof.
  intros Hscan. destruct (scanOf_inv _ _ _ _ _ _ Hscan) as [_ ->].
  cbn [setPattern decorationOptions].
  apply ScanFacts.decorateAll_options_complete.
Qed.

Lemma scanOf_keys (pattern : RegExp.t) (mask : Mask.t) (this : MaskController.t)
    (w : Window) (e : TextEditor) (s : Scan) (key : string) :
  scanOf pattern mask this w e = JS.Returns s ->
  key ∈ matchReplaceKeys s <->
  exists m, m ∈ decoratedMatches pattern mask this w e /\
            is_Some (keyedReplace (replaceOf (siteOf mask this w e) m)) /\
            key = keyOf (RegExp.source pattern) (siteOf mask this w e) m.
Proof.
  intros Hscan. destruct (scanOf_inv _ _ _ _ _ _ Hscan) as [_ ->].
  cbn [setPattern matchReplaceKeys].
  rewrite ScanFacts.decorateAll_keys. cbn. split; [|by right].
  intros [?%elem_of_nil|?]; done.
Qed.

(** The cache after the scan: it has grown, and has the source of the
    pattern and the keys of the replacements. *)
Lemma scanOf_cache (pattern : RegExp.t) (mask : Mask.t) (this : MaskController.t)
    (w : Window) (e : TextEditor) (s : Scan) :
  scanOf pattern mask this w e = JS.Returns s ->
  is_Some (decorationTypeMap (MaskController.this s) !! RegExp.source pattern) /\
  (forall key type, decorationTypeMap this !! key = Some type ->
     decorationTypeMap (MaskController.this s) !! key = Some type) /\
  (forall key, key ∈ matchReplaceKeys s ->
     is_Some (decorationTypeMap (MaskController.this s) !! key)) /\
  scopedDocument (MaskController.this s) = scopedDocument this /\
  editor (MaskController.this s) = editor this /\
  cursorStyle (window s) = cursorStyle w /\
  (wellFormed this w -> wellFormed (MaskController.this s) (window s)).
Proof.
  intros Hscan. destruct (scanOf_inv _ _ _ _ _ _ Hscan) as [_ ->].
  cbn [setPattern MaskController.this window matchReplaceKeys].
  destruct (ScanFacts.decorateAll_frame (siteOf mask this w e)
              (decoratedMatches pattern mask this w e)
              (scanStart pattern mask this w)) as (Hmono & Hsd & Hed & Hcs & Hwf & Hkeys).
  destruct (ScanFacts.initialize_spec (RegExp.source pattern) mask this w)
    as (Hin & Hmono0 & _ & Hsd0 & Hed0 & Hcs0).
  pose proof (ScanFacts.initialize_wellFormed (RegExp.source pattern) mask this w) as Hwf0.
  cbn [scanStart MaskController.this window matchReplaceKeys] in *.
  split_and!.
  - destruct Hin as [type Hin]. eauto.
  - eauto.
  - intros key [?%elem_of_nil|?]%Hkeys; done.
  - congruence.
  - congruence.
  - congruence.
  - eauto.
Qed.

(** *** The cache and the editor after [commit] *)

Lemma commit_eq (source : string) (s : Scan) (e : TextEditor) :
  commit source s e
  = {| decorationTypeMap := (evicted source s e).1;
       scopedDocument := scopedDocument (MaskController.this s);
       editor := Some (evicted source s e).2 |}.
Proof.
  unfold commit, evicted, renderedEditor. by destruct (evictLoop _ _ _ _).
Qed.

Lemma map_to_list_keys (types : gmap string TextEditorDecorationType) (key : string) :
  key ∈ (map_to_list types).*1 <-> is_Some (types !! key).
Proof.
  rewrite list_elem_of_fmap. split.
  - intros ([k h] & -> & Hin). apply elem_of_map_to_list in Hin. by exists h.
  - intros [h Hk]. exists (key, h). split; [done | by apply elem_of_map_to_list].
Qed.

(** The cache keeps the source of the pattern and the keys of the
    replacements, and nothing else. *)
Lemma commit_types (source : string) (s : Scan) (e : TextEditor) (key : string) :
  decorationTypeMap (commit source s e) !! key
  = if kept source (matchReplaceKeys s) key
    then decorationTypeMap (MaskController.this s) !! key
    else None.
Proof.
  rewrite commit_eq. cbn [decorationTypeMap]. unfold evicted.
  rewrite CommitFacts.evictLoop_types. cbn [fst].
  destruct (kept source (matchReplaceKeys s) key); [done|]. cbn [orb].
  destruct (bool_decide _) eqn:Hb; [done|]. cbn.
  apply bool_decide_eq_false in Hb. rewrite map_to_list_keys in Hb.
  destruct (decorationTypeMap (MaskController.this s) !! key) eqn:Hk; [|done].
  destruct Hb. by eexists.
Qed.

Lemma commit_frame (source : string) (s : Scan) (e : TextEditor) :
  scopedDocument (commit source s e) = scopedDocument (MaskController.this s) /\
  exists e', editor (commit source s e) = Some e' /\
             document e' = document e /\ selections e' = selections e.
Proof.
  rewrite commit_eq. split; [done|]. eexists. split; [done|]. cbn. unfold evicted.
  destruct (CommitFacts.evictLoop_document source (matchReplaceKeys s)
              (map_to_list (decorationTypeMap (MaskController.this s)))
              (decorationTypeMap (MaskController.this s), renderedEditor source s e))
    as [-> ->].
  cbn [snd]. unfold renderedEditor.
  destruct (CommitFacts.renderLoop_document (decorationTypeMap (MaskController.this s))
              (decorationOptions s) [source]
              (renderLoop (decorationTypeMap (MaskController.this s)) (decorationOptions s)
                 (matchReplaceKeys s) e)) as [-> ->].
  apply CommitFacts.renderLoop_document.
Qed.

(** Whatever is shown for a key of the cache was gathered by the scan. *)
Lemma commit_shown_sound (source : string) (s : Scan) (e : TextEditor) (key : string)
    (l : list DecorationOptions) (o : DecorationOptions) :
  shown (commit source s e) key = Some l -> o ∈ l ->
  exists key', o ∈ optionsAt (decorationOptions s) key'.
Proof.
  unfold shown. rewrite commit_types.
  destruct (kept source (matchReplaceKeys s) key) eqn:Hkept; [|done].
  destruct (decorationTypeMap (MaskController.this s) !! key) as [type|] eqn:Hty; [|done].
  rewrite commit_eq. cbn [editor]. unfold evicted. intros Hl Ho.
  destruct (CommitFacts.evictLoop_lookup source (matchReplaceKeys s)
              (map_to_list (decorationTypeMap (MaskController.this s))) type
              (decorationTypeMap (MaskController.this s), renderedEditor source s e))
    as [[_ Hlk]|[_ Hlk]]; rewrite Hlk in Hl.
  { injection Hl as <-. by apply elem_of_nil in Ho. }
  cbn [snd] in Hl. unfold renderedEditor in Hl.
  destruct (CommitFacts.renderLoop_lookup (decorationTypeMap (MaskController.this s))
              (decorationOptions s) [source] type
              (renderLoop (decorationTypeMap (MaskController.this s)) (decorationOptions s)
                 (matchReplaceKeys s) e))
    as [(k & _ & _ & Hlk2)|[Hno2 Hlk2]]; rewrite Hlk2 in Hl.
  { injection Hl as <-. by exists k. }
  destruct (CommitFacts.renderLoop_lookup (decorationTypeMap (MaskController.this s))
              (decorationOptions s) (matchReplaceKeys s) type e)
    as [(k & _ & _ & Hlk1)|[Hno1 _]].
  { rewrite Hlk1 in Hl. injection Hl as <-. by exists k. }
  exfalso. apply CommitFacts.kept_spec in Hkept as [->|Hin].
  - by apply (Hno2 source); [apply list_elem_of_here|].
  - by apply (Hno1 key).
Qed.

(** A key that is not kept is deleted, and its type shows nothing. *)
Lemma commit_evicted (source : string) (s : Scan) (e : TextEditor) (key : string)
    (type : TextEditorDecorationType) :
  decorationTypeMap (MaskController.this s) !! key = Some type ->
  kept source (matchReplaceKeys s) key = false ->
  decorationTypeMap (commit source s e) !! key = None /\
  exists e', editor (commit source s e) = Some e' /\ decorations e' !! type = Some [].
Proof.
  intros Hty Hkept. split; [by rewrite commit_types, Hkept|].
  rewrite commit_eq. eexists. split; [done|]. unfold evicted.
  destruct (CommitFacts.evictLoop_lookup source (matchReplaceKeys s)
              (map_to_list (decorationTypeMap (MaskController.this s))) type
              (decorationTypeMap (MaskController.this s), renderedEditor source s e))
    as [[_ Hlk]|[Hall _]]; [done|].
  apply elem_of_map_to_list in Hty. specialize (Hall key Hty). congruence.
Qed.

(** With one key per type, a kept key shows the options gathered for it. *)
Lemma commit_shown_rendered (source : string) (s : Scan) (e : TextEditor) (key : string) :
  (forall key1 key2 type,
     decorationTypeMap (MaskController.this s) !! key1 = Some type ->
     decorationTypeMap (MaskController.this s) !! key2 = Some type -> key1 = key2) ->
  kept source (matchReplaceKeys s) key = true ->
  is_Some (decorationTypeMap (MaskController.this s) !! key) ->
  shown (commit source s e) key = Some (optionsAt (decorationOptions s) key).
Proof.
  intros Hinj Hkept [type Hty]. unfold shown. rewrite commit_types, Hkept, Hty.
  rewrite commit_eq. cbn [editor]. unfold evicted.
  destruct (CommitFacts.evictLoop_lookup source (matchReplaceKeys s)
              (map_to_list (decorationTypeMap (MaskController.this s))) type
              (decorationTypeMap (MaskController.this s), renderedEditor source s e))
    as [[(k & Hin & Hk) _]|[_ ->]].
  { apply elem_of_map_to_list in Hin. rewrite (Hinj _ _ _ Hin Hty) in Hk. congruence. }
  cbn [snd]. unfold renderedEditor.
  destruct (CommitFacts.renderLoop_lookup (decorationTypeMap (MaskController.this s))
              (decorationOptions s) [source] type
              (renderLoop (decorationTypeMap (MaskController.this s)) (decorationOptions s)
                 (matchReplaceKeys s) e))
    as [(k & _ & Hk & ->)|[Hno2 ->]].
  { by rewrite (Hinj _ _ _ Hk Hty). }
  apply CommitFacts.kept_spec in Hkept as [->|Hin].
  - by destruct (Hno2 source); [apply list_elem_of_here|].
  - by apply CommitFacts.renderLoop_rendered.
Qed.

(** *** A second [commit] *)

(** Rendering and evicting again, from the cache and the editor that
    [commit] left, changes nothing. *)
Lemma commit_again (source : string) (s s2 : Scan) (e e1 : TextEditor) :
  (forall key1 key2 type,
     decorationTypeMap (MaskController.this s) !! key1 = Some type ->
     decorationTypeMap (MaskController.this s) !! key2 = Some type -> key1 = key2) ->
  decorationOptions s2 = decorationOptions s ->
  matchReplaceKeys s2 = matchReplaceKeys s ->
  MaskController.this s2 = commit source s e ->
  editor (commit source s e) = Some e1 ->
  commit source s2 e1 = commit source s e.
Proof.
  intros Hinj Hopts Hkeys Hthis He1.
  assert (Hin : forall key type,
            decorationTypeMap (commit source s e) !! key = Some type ->
            kept source (matchReplaceKeys s) key = true /\
            decorationTypeMap (MaskController.this s) !! key = Some type).
  { intros key type. rewrite commit_types. by destruct (kept _ _ key). }
  assert (Hshown : forall key type,
            decorationTypeMap (commit source s e) !! key = Some type ->
            decorations e1 !! type = Some (optionsAt (decorationOptions s) key)).
  { intros key type Hty. destruct (Hin _ _ Hty) as [Hkept Hty'].
    pose proof (commit_shown_rendered source s e key Hinj Hkept (mk_is_Some _ _ Hty')) as Hs.
    unfold shown in Hs. by rewrite Hty, He1 in Hs. }
  assert (Hrender : renderedEditor source s2 e1 = e1).
  { unfold renderedEditor. rewrite Hopts, Hkeys, Hthis.
    rewrite (CommitFacts.renderLoop_id _ _ (matchReplaceKeys s) e1)
      by (intros key type _; apply Hshown).
    apply CommitFacts.renderLoop_id. intros key type _. apply Hshown. }
  assert (Hevict : evicted source s2 e1 = (decorationTypeMap (commit source s e), e1)).
  { unfold evicted. rewrite Hrender, Hkeys, Hthis.
    apply CommitFacts.evictLoop_id. intros [key type] Hkv.
    apply elem_of_map_to_list in Hkv. by destruct (Hin _ _ Hkv). }
  rewrite (commit_eq source s2 e1), Hevict, Hthis. cbn [fst snd].
  rewrite <- He1. by destruct (commit source s e).
Qed.

End ApplyFacts.

(** ** The claims on [apply] *)

Module MaskControllerFacts.
Import Vscode MaskController Notions.

(** Runs [apply] on a closed input and names what it returns. *)
Ltac returns_by_computation :=
  eexists _, _, _; split; [vm_compute; reflexivity|].

(** A range that is shown after [apply] is the range of a decorated match. *)
Lemma shown_range_decorated (pattern r' : RegExp.t) (mask : Mask.t)
    (this this' : MaskController.t) (w w' : Window) (e : TextEditor)
    (m : RegExp.ExecArray) (key : string) (l : list DecorationOptions)
    (o : DecorationOptions) :
  editor this = Some e ->
  apply pattern mask this w = JS.Returns (r', this', w') ->
  m ∈ matchesOf pattern e ->
  shown this' key = Some l -> o ∈ l -> range o = matchRange (document e) m ->
  decorateSymbolOf (siteOf mask this w e) (selections e) m = JS.Returns true.
Proof.
  intros He Happly Hm Hshown Ho Hrange.
  destruct (ApplyFacts.apply_inv _ _ _ _ _ _ _ _ He Happly) as (s & Hscan & _ & -> & _).
  destruct (ApplyFacts.commit_shown_sound _ _ _ _ _ _ Hshown Ho) as [key' Hin].
  destruct (ApplyFacts.scanOf_options_sound _ _ _ _ _ _ _ _ Hscan Hin)
    as (m' & Hm' & -> & _).
  apply ApplyFacts.decoratedMatches_spec in Hm' as [Hm' Hdec].
  cbn in Hrange.
  by rewrite <- (ScanFacts.scanned_range_inj _ _ _ _ _ Hm' Hm Hrange).
Qed.

(** C1. A match that a selection of the editor intersects is not decorated,
    whatever the scopes: with a line-shaped caret the selection is compared
    with the bounds of the match, with any other caret (block, underline) with
    the start of the match moved one character to the left. The loop over
    the selections does not end with [decorateSymbol = true], and the range
    of the match is in no list shown for a key of the cache after [apply]. *)
Theorem apply_reveals_under_selection (pattern r' : RegExp.t) (mask : Mask.t)
    (this this' : MaskController.t) (w w' : Window) (e : TextEditor)
    (m : RegExp.ExecArray) (selection : Selection) (selectionStart selectionEnd : Z) :
  editor this = Some e ->
  apply pattern mask this w = JS.Returns (r', this', w') ->
  m ∈ matchesOf pattern e ->
  selection ∈ selections e ->
  selectionOffsets (document e) selection = (selectionStart, selectionEnd) ->
  (if JS.startsWith (JS.orEmpty (cursorStyle w)) "line"
   then RegExp.index m else RegExp.index m - 1) <= selectionEnd ->
  selectionStart <= RegExp.index m + JS.length (RegExp.matched m) ->
  isDecorated (siteOf mask this w e) (selections e) m = false /\
  forall key l o, shown this' key = Some l -> o ∈ l ->
    range o <> matchRange (document e) m.
Proof.
  intros He Happly Hm Hsel Hoff Hlo Hhi.
  assert (Hrev : revealedBy (siteOf mask this w e) m selection = true).
  { unfold revealedBy, reveals. cbn [siteOf site_document site_cursorStyle]. rewrite Hoff.
    destruct (JS.startsWith _ _); lia. }
  assert (Hnot : decorateSymbolOf (siteOf mask this w e) (selections e) m <> JS.Returns true).
  { intros [Hall _]%DecisionFacts.decorateSymbolOf_true. specialize (Hall _ Hsel). congruence. }
  split.
  - unfold isDecorated. by destruct (decorateSymbolOf _ _ m) as [[|]| |].
  - intros key l o Hshown Ho Hrange. apply Hnot.
    by apply (shown_range_decorated _ _ _ _ _ _ _ _ _ _ _ _ He Happly Hm Hshown Ho).
Qed.

(** With a line-shaped caret at offset 11, the match of [abc] at the offsets
    10 to 13 is not decorated. *)
Lemma apply_reveals_under_selection_witness :
  exists r' this' w',
    apply Fixtures.abc (Fixtures.plain (Mask.Literal "x") None)
      (Fixtures.controllerOn "0123456789abc" [Fixtures.caret 0 11] None)
      Fixtures.lineWindow = JS.Returns (r', this', w') /\
    (isDecorated
       (siteOf (Fixtures.plain (Mask.Literal "x") None)
          (Fixtures.controllerOn "0123456789abc" [Fixtures.caret 0 11] None)
          Fixtures.lineWindow (Fixtures.editorOn "0123456789abc" [Fixtures.caret 0 11]))
       [Fixtures.caret 0 11] Fixtures.abcAt10 = false /\
     forall key l o, shown this' key = Some l -> o ∈ l ->
       range o <> matchRange {| getText := "0123456789abc" |} Fixtures.abcAt10).
Proof.
  returns_by_computation.
  eapply (apply_reveals_under_selection Fixtures.abc _
           (Fixtures.plain (Mask.Literal "x") None)
           (Fixtures.controllerOn "0123456789abc" [Fixtures.caret 0 11] None) _
           Fixtures.lineWindow _
           (Fixtures.editorOn "0123456789abc" [Fixtures.caret 0 11])
           Fixtures.abcAt10 (Fixtures.caret 0 11) 11 11).
  - reflexivity.
  - vm_compute. reflexivity.
  - vm_compute. apply list_elem_of_here.
  - apply list_elem_of_here.
  - vm_compute. reflexivity.
  - vm_compute. discriminate.
  - vm_compute. discriminate.
Defined.

(** A decorated match that is asked to be in a scope starts in a token of
    its line that has this scope or a scope under it. *)
Lemma decorated_scope (c : Site) (sels : list Selection) (m : RegExp.ExecArray)
    (filter : string) :
  decorateSymbolOf c sels m = JS.Returns true ->
  scopeFilter (site_mask c) (replaceOf c m) = Some filter ->
  exists sd tokens token scope,
    site_scopedDocument c = Some sd /\
    is_Some (ScopedDocument.grammar sd) /\
    ScopedDocument.getTokens sd (line (positionAt (site_document c) (RegExp.index m)))
    = JS.Returns (Some tokens) /\
    token ∈ tokens /\
    Vsctm.startIndex token <= character (positionAt (site_document c) (RegExp.index m))
      < Vsctm.endIndex token /\
    scope ∈ Vsctm.scopes token /\
    (scope = filter \/ exists rest, scope = filter +:+ "." +:+ rest).
Proof.
  intros (_ & _ & Hscope)%DecisionFacts.decorateSymbolOf_true Hfilter.
  unfold scopeMatches in Hscope. fold (replaceOf c m) in Hscope. rewrite Hfilter in Hscope.
  unfold lineTokens in Hscope.
  destruct (site_scopedDocument c) as [sd|]; [|done].
  destruct (ScopedDocument.getTokens sd _) as [[tokens|]| |] eqn:Htok; try done.
  apply existsb_exists in Hscope as (token & Hin & Htoken).
  apply andb_true_iff in Htoken as [Hat Hex].
  apply existsb_exists in Hex as (scope & Hsc & Hwithin).
  apply DecisionFacts.within_spec in Hwithin.
  exists sd, tokens, token, scope. split_and!; try done.
  - unfold ScopedDocument.getTokens in Htok. by destruct (ScopedDocument.grammar sd).
  - by apply list_elem_of_In.
  - unfold tokenAt in Hat. lia.
  - unfold tokenAt in Hat. lia.
  - by apply list_elem_of_In.
Qed.

(** C2. A match that is decided under a scope filter (the scope of its
    replacement, else the scope of the mask) and whose range is shown after
    [apply] starts in a token, among the tokens the scoped document gives for
    its line with a grammar loaded, that has a scope equal to the filter or
    made of the filter, a dot and more; and the test of the source on a scope
    is this rule, so a scope that only starts with the characters of the
    filter does not pass. *)
Theorem apply_scope_filter (pattern r' : RegExp.t) (mask : Mask.t)
    (this this' : MaskController.t) (w w' : Window) (e : TextEditor)
    (m : RegExp.ExecArray) (filter key : string) (l : list DecorationOptions)
    (o : DecorationOptions) :
  editor this = Some e ->
  apply pattern mask this w = JS.Returns (r', this', w') ->
  m ∈ matchesOf pattern e ->
  scopeFilter mask (matchReplaceOf mask (RegExp.matched m)) = Some filter ->
  shown this' key = Some l -> o ∈ l -> range o = matchRange (document e) m ->
  (exists sd tokens token scope,
     scopedDocument this = Some sd /\
     is_Some (ScopedDocument.grammar sd) /\
     ScopedDocument.getTokens sd (line (positionAt (document e) (RegExp.index m)))
     = JS.Returns (Some tokens) /\
     token ∈ tokens /\
     Vsctm.startIndex token <= character (positionAt (document e) (RegExp.index m))
       < Vsctm.endIndex token /\
     scope ∈ Vsctm.scopes token /\
     (scope = filter \/ exists rest, scope = filter +:+ "." +:+ rest)) /\
  (forall scope, withinScope scope filter = true <->
     scope = filter \/ exists rest, scope = filter +:+ "." +:+ rest).
Proof.
  intros He Happly Hm Hfilter Hshown Ho Hrange. split.
  - pose proof (shown_range_decorated _ _ _ _ _ _ _ _ _ _ _ _
                  He Happly Hm Hshown Ho Hrange) as Hdec.
    exact (decorated_scope _ _ _ _ Hdec Hfilter).
  - intros scope. rewrite DecisionFacts.withinScope_within. apply DecisionFacts.within_spec.
Qed.

(** The filter [keyword.operator] on a token in [keyword.operator.comparison]. *)
Lemma apply_scope_filter_witness :
  exists r' this' w',
    apply Fixtures.ab Fixtures.operatorMask Fixtures.scopedOnA Fixtures.lineWindow
    = JS.Returns (r', this', w') /\
    ((exists sd tokens token scope,
        scopedDocument Fixtures.scopedOnA = Some sd /\
        is_Some (ScopedDocument.grammar sd) /\
        ScopedDocument.getTokens sd
          (line (positionAt (document Fixtures.editorOnA) (RegExp.index Fixtures.aAt0)))
        = JS.Returns (Some tokens) /\
        token ∈ tokens /\
        Vsctm.startIndex token
        <= character (positionAt (document Fixtures.editorOnA) (RegExp.index Fixtures.aAt0))
        < Vsctm.endIndex token /\
        scope ∈ Vsctm.scopes token /\
        (scope = "keyword.operator" \/
         exists rest, scope = "keyword.operator" +:+ "." +:+ rest)) /\
     (forall scope, withinScope scope "keyword.operator" = true <->
        scope = "keyword.operator" \/
        exists rest, scope = "keyword.operator" +:+ "." +:+ rest)).
Proof.
  returns_by_computation.
  eapply (apply_scope_filter Fixtures.ab _ Fixtures.operatorMask Fixtures.scopedOnA _
            Fixtures.lineWindow _ Fixtures.editorOnA Fixtures.aAt0
            "keyword.operator" "(a|b)").
  - reflexivity.
  - vm_compute. reflexivity.
  - vm_compute. apply list_elem_of_here.
  - reflexivity.
  - vm_compute. reflexivity.
  - apply list_elem_of_here.
  - vm_compute. reflexivity.
Defined.

(** The boundary of a scope is a dot. *)
Example scope_boundary :
  withinScope "keyword.operator.comparison" "keyword.operator" = true /\
  withinScope "keyword.operator" "keyword.operator" = true /\
  withinScope "keyword.operatorx" "keyword.operator" = false.
Proof. repeat split. Qed.

(** C10. With a scope on the mask and a map of replacements, a match whose
    replacement has no scope of its own is decided under the scope of the
    mask: when its range is shown after [apply], it starts in a token that
    has the scope of the mask or a scope under it. *)
Theorem apply_keyed_hit_uniform_scope (pattern r' : RegExp.t) (mask : Mask.t)
    (this this' : MaskController.t) (w w' : Window) (e : TextEditor)
    (m : RegExp.ExecArray) (replace : gmap string Replace.t) (r : Replace.t)
    (filter key : string) (l : list DecorationOptions) (o : DecorationOptions) :
  editor this = Some e ->
  apply pattern mask this w = JS.Returns (r', this', w') ->
  m ∈ matchesOf pattern e ->
  Mask.text mask = Mask.MatchBased replace ->
  replace !! RegExp.matched m = Some r ->
  JS.truthy (Replace.scope r) = false ->
  Mask.scope mask = Some filter -> filter <> "" ->
  shown this' key = Some l -> o ∈ l -> range o = matchRange (document e) m ->
  exists sd tokens token scope,
    scopedDocument this = Some sd /\
    is_Some (ScopedDocument.grammar sd) /\
    ScopedDocument.getTokens sd (line (positionAt (document e) (RegExp.index m)))
    = JS.Returns (Some tokens) /\
    token ∈ tokens /\
    Vsctm.startIndex token <= character (positionAt (document e) (RegExp.index m))
      < Vsctm.endIndex token /\
    scope ∈ Vsctm.scopes token /\
    (scope = filter \/ exists rest, scope = filter +:+ "." +:+ rest).
Proof.
  intros He Happly Hm Htext Hr Hnone Hmask Hne Hshown Ho Hrange.
  pose proof (shown_range_decorated _ _ _ _ _ _ _ _ _ _ _ _
                He Happly Hm Hshown Ho Hrange) as Hdec.
  apply (decorated_scope _ _ _ _ Hdec).
  unfold scopeFilter, replaceOf, matchReplaceOf. cbn [siteOf site_mask].
  rewrite Htext, Hr. cbn [replaceScope]. rewrite Hnone, Hmask.
  by destruct filter.
Qed.

(** The letter [a], replaced by an entry without a scope, under the scope
    [keyword.operator] of the mask. *)
Lemma apply_keyed_hit_uniform_scope_witness :
  exists r' this' w',
    apply Fixtures.ab (Fixtures.abMask (Some "keyword.operator") None)
      Fixtures.scopedOnA Fixtures.lineWindow
    = JS.Returns (r', this', w') /\
    exists sd tokens token scope,
      scopedDocument Fixtures.scopedOnA = Some sd /\
      is_Some (ScopedDocument.grammar sd) /\
      ScopedDocument.getTokens sd
        (line (positionAt (document Fixtures.editorOnA) (RegExp.index Fixtures.aAt0)))
      = JS.Returns (Some tokens) /\
      token ∈ tokens /\
      Vsctm.startIndex token
      <= character (positionAt (document Fixtures.editorOnA) (RegExp.index Fixtures.aAt0))
      < Vsctm.endIndex token /\
      scope ∈ Vsctm.scopes token /\
      (scope = "keyword.operator" \/
       exists rest, scope = "keyword.operator" +:+ "." +:+ rest).
Proof.
  returns_by_computation.
  eapply (apply_keyed_hit_uniform_scope Fixtures.ab _
            (Fixtures.abMask (Some "keyword.operator") None) Fixtures.scopedOnA _
            Fixtures.lineWindow _ Fixtures.editorOnA Fixtures.aAt0
            _ (Fixtures.entry "x" None) "keyword.operator" "(a|b)@@@x").
  - reflexivity.
  - vm_compute. reflexivity.
  - vm_compute. apply list_elem_of_here.
  - reflexivity.
  - vm_compute. reflexivity.
  - reflexivity.
  - reflexivity.
  - discriminate.
  - vm_compute. reflexivity.
  - apply list_elem_of_here.
  - vm_compute. reflexivity.
Defined.

(** *** The key of a replacement *)

Lemma wellFormed_new (e : option TextEditor) (sd : option ScopedDocument.t) (w : Window) :
  wellFormed (MaskController.new e sd) w.
Proof.
  split; cbn; intros key; intros; by rewrite lookup_empty in *.
Qed.

Lemma replacement_key_not_literal (sep : string) :
  "(a|b)" +:+ sep +:+ "a" <> "(a|b)@@@x".
Proof.
  intros H. injection H as H.
  destruct sep as [|c1 sep]; [discriminate H|]. injection H as _ H.
  destruct sep as [|c2 sep]; [discriminate H|]. injection H as _ H.
  destruct sep as [|c3 sep]; [discriminate H|]. injection H as _ H.
  destruct sep as [|c4 sep]; [discriminate H|]. injection H as _ H.
  by destruct sep.
Qed.

(** C3, as it fails. With the map [a -> x, b -> y] on the text "a", the
    match [a] is a key of the map and is decorated, and its range is shown
    under the key made of the source and the replacement text [x]; under a
    key made of the source, any separator and the matched text [a], nothing
    is shown. *)
Lemma keyed_key_is_not_matched_text :
  exists r' this' w',
    apply Fixtures.ab (Fixtures.abMask None None) Fixtures.plainOnA Fixtures.lineWindow
    = JS.Returns (r', this', w') /\
    Fixtures.aAt0 ∈ decoratedMatches Fixtures.ab (Fixtures.abMask None None)
                      Fixtures.plainOnA Fixtures.lineWindow Fixtures.editorOnA /\
    matchReplaceOf (Fixtures.abMask None None) (RegExp.matched Fixtures.aAt0)
    = Some (Fixtures.entry "x" None) /\
    shown this' "(a|b)@@@x"
    = Some [ {| range := matchRange (document Fixtures.editorOnA) Fixtures.aAt0;
                hoverMessage := None |} ] /\
    forall sep, shown this' ("(a|b)" +:+ sep +:+ "a") = None.
Proof.
  returns_by_computation. split_and!.
  - vm_compute. apply list_elem_of_here.
  - vm_compute. reflexivity.
  - vm_compute. reflexivity.
  - intros sep. unfold shown. cbn [decorationTypeMap].
    match goal with
    | |- match ?types !! _ with _ => _ end = None =>
        replace types
          with (<["(a|b)@@@x" := 1%nat]> (<["(a|b)" := 0%nat]> ∅)
                : gmap string TextEditorDecorationType)
          by (vm_compute; reflexivity)
    end.
    rewrite lookup_insert_ne by (intros H; by apply (replacement_key_not_literal sep)).
    rewrite lookup_insert_ne; [by rewrite lookup_empty|].
    intros H. by destruct sep.
Qed.

(** C3, amended. With a map of replacements, a decorated match whose text
    is a key of the map is shown after [apply] under the key made of the
    source of the pattern, the separator [@@@] and the replacement text of its
    entry (not the matched text), with the hover of the entry; when the
    replacement text is empty, it is shown under the source of the pattern
    alone, with the hover of the mask. *)
Theorem apply_keyed_replacement_key (pattern r' : RegExp.t) (mask : Mask.t)
    (this this' : MaskController.t) (w w' : Window) (e : TextEditor)
    (m : RegExp.ExecArray) (replace : gmap string Replace.t) (r : Replace.t) :
  editor this = Some e ->
  wellFormed this w ->
  apply pattern mask this w = JS.Returns (r', this', w') ->
  m ∈ decoratedMatches pattern mask this w e ->
  Mask.text mask = Mask.MatchBased replace ->
  replace !! RegExp.matched m = Some r ->
  exists l,
    shown this' (match Replace.text r with
                 | EmptyString => RegExp.source pattern
                 | _ => RegExp.source pattern +:+ "@@@" +:+ Replace.text r
                 end) = Some l /\
    {| range := matchRange (document e) m;
       hoverMessage := match Replace.text r with
                       | EmptyString => Mask.hover mask
                       | _ => Replace.hover r
                       end |} ∈ l.
Proof.
  intros He Hwf Happly Hm Htext Hr.
  destruct (ApplyFacts.apply_inv _ _ _ _ _ _ _ _ He Happly) as (s & Hscan & _ & -> & _).
  assert (Hrep : replaceOf (siteOf mask this w e) m = Some r).
  { unfold replaceOf, matchReplaceOf. cbn [siteOf site_mask]. by rewrite Htext. }
  pose proof (ApplyFacts.scanOf_options_complete _ _ _ _ _ _ _ Hscan Hm) as Hin.
  destruct (ApplyFacts.scanOf_cache _ _ _ _ _ _ Hscan)
    as (Hsrc & _ & Hkeys & _ & _ & _ & Hwf').
  destruct (Hwf' Hwf) as [_ Hinj].
  unfold keyOf, optionOf, decorationKeyOf, hoverOf in Hin. rewrite Hrep in Hin.
  cbn [siteOf site_document site_mask] in Hin.
  destruct (Replace.text r) as [|c0 text0] eqn:Htxt.
  - assert (Hkeyed : keyedReplace (Some r) = None) by (cbn; by rewrite Htxt).
    rewrite Hkeyed in Hin. eexists. split; [|exact Hin].
    apply ApplyFacts.commit_shown_rendered; [done | | done].
    apply CommitFacts.kept_spec. by left.
  - assert (Hkeyed : keyedReplace (Some r) = Some r) by (cbn; by rewrite Htxt).
    rewrite Hkeyed, Htxt in Hin.
    assert (Hmrk : RegExp.source pattern +:+ "@@@" +:+ String c0 text0 ∈ matchReplaceKeys s).
    { apply (ApplyFacts.scanOf_keys _ _ _ _ _ _ _ Hscan). exists m.
      unfold keyOf, decorationKeyOf. rewrite Hrep, Hkeyed, Htxt.
      split; [done|]. split; [by eexists | done]. }
    eexists. split; [|exact Hin].
    apply ApplyFacts.commit_shown_rendered; [done | | by apply Hkeys].
    apply CommitFacts.kept_spec. by right.
Qed.

(** The letter [a] of the text "a", replaced by [x]. *)
Lemma apply_keyed_replacement_key_witness :
  exists r' this' w',
    apply Fixtures.ab (Fixtures.abMask None None) Fixtures.plainOnA Fixtures.lineWindow
    = JS.Returns (r', this', w') /\
    exists l,
      shown this' "(a|b)@@@x" = Some l /\
      {| range := matchRange (document Fixtures.editorOnA) Fixtures.aAt0;
         hoverMessage := None |} ∈ l.
Proof.
  returns_by_computation.
  eapply (apply_keyed_replacement_key Fixtures.ab _ (Fixtures.abMask None None)
            Fixtures.plainOnA _ Fixtures.lineWindow _ Fixtures.editorOnA Fixtures.aAt0
            _ (Fixtures.entry "x" None)).
  - reflexivity.
  - apply wellFormed_new.
  - vm_compute. reflexivity.
  - vm_compute. apply list_elem_of_here.
  - reflexivity.
  - vm_compute. reflexivity.
Defined.

(** *** The cache after [apply] *)

(** C4. After a call of [apply] on an editor, the keys of the cache are
    the source of the pattern and the keys of the replacements of this call
    (the keys of its decorated matches that have a replacement text), and
    every key that was in the cache before and is neither is out of the
    cache, its type showing no range. *)
Theorem apply_evicts_stale_keys (pattern r' : RegExp.t) (mask : Mask.t)
    (this this' : MaskController.t) (w w' : Window) (e : TextEditor) :
  editor this = Some e ->
  apply pattern mask this w = JS.Returns (r', this', w') ->
  exists s,
    scanOf pattern mask this w e = JS.Returns s /\
    (forall key, key ∈ matchReplaceKeys s <->
       exists m, m ∈ decoratedMatches pattern mask this w e /\
                 is_Some (keyedReplace (replaceOf (siteOf mask this w e) m)) /\
                 key = keyOf (RegExp.source pattern) (siteOf mask this w e) m) /\
    dom (decorationTypeMap this')
    = ({[ RegExp.source pattern ]} ∪ list_to_set (matchReplaceKeys s) : gset string) /\
    (forall key type,
       decorationTypeMap this !! key = Some type ->
       key <> RegExp.source pattern -> key ∉ matchReplaceKeys s ->
       decorationTypeMap this' !! key = None /\
       exists e', editor this' = Some e' /\ decorations e' !! type = Some []).
Proof.
  intros He Happly.
  destruct (ApplyFacts.apply_inv _ _ _ _ _ _ _ _ He Happly) as (s & Hscan & _ & -> & _).
  destruct (ApplyFacts.scanOf_cache _ _ _ _ _ _ Hscan) as (Hsrc & Hmono & Hkeys & _).
  exists s. split_and!; [done | intros key; apply (ApplyFacts.scanOf_keys _ _ _ _ _ _ key Hscan) | |].
  - apply set_eq. intros key.
    rewrite elem_of_dom, ApplyFacts.commit_types, elem_of_union, elem_of_singleton,
      elem_of_list_to_set.
    destruct (kept (RegExp.source pattern) (matchReplaceKeys s) key) eqn:Hkept.
    + apply CommitFacts.kept_spec in Hkept. split; [done|].
      intros [->|Hin]; [done | by apply Hkeys].
    + split; [by intros [? ?]|]. intros Hk%CommitFacts.kept_spec. congruence.
  - intros key type Hty Hne Hnin. apply ApplyFacts.commit_evicted; [by apply Hmono|].
    destruct (kept _ _ key) eqn:Hkept; [|done].
    by apply CommitFacts.kept_spec in Hkept as [?|?].
Qed.

(** After [/abc/g], a call with [/(a|b)/g] alone. *)
Lemma apply_evicts_stale_keys_witness :
  exists r' this' w',
    apply Fixtures.ab (Fixtures.abMask None None) Fixtures.afterAbc Fixtures.afterAbcWindow
    = JS.Returns (r', this', w') /\
    exists s,
      scanOf Fixtures.ab (Fixtures.abMask None None) Fixtures.afterAbc
        Fixtures.afterAbcWindow Fixtures.editorOnA = JS.Returns s /\
      (forall key, key ∈ matchReplaceKeys s <->
         exists m, m ∈ decoratedMatches Fixtures.ab (Fixtures.abMask None None)
                         Fixtures.afterAbc Fixtures.afterAbcWindow Fixtures.editorOnA /\
                   is_Some (keyedReplace
                              (replaceOf (siteOf (Fixtures.abMask None None) Fixtures.afterAbc
                                            Fixtures.afterAbcWindow Fixtures.editorOnA) m)) /\
                   key = keyOf (RegExp.source Fixtures.ab)
                           (siteOf (Fixtures.abMask None None) Fixtures.afterAbc
                              Fixtures.afterAbcWindow Fixtures.editorOnA) m) /\
      dom (decorationTypeMap this')
      = ({[ RegExp.source Fixtures.ab ]} ∪ list_to_set (matchReplaceKeys s) : gset string) /\
      (forall key type,
         decorationTypeMap Fixtures.afterAbc !! key = Some type ->
         key <> RegExp.source Fixtures.ab -> key ∉ matchReplaceKeys s ->
         decorationTypeMap this' !! key = None /\
         exists e', editor this' = Some e' /\ decorations e' !! type = Some []).
Proof.
  returns_by_computation.
  eapply (apply_evicts_stale_keys Fixtures.ab _ (Fixtures.abMask None None)
            Fixtures.afterAbc _ Fixtures.afterAbcWindow _ Fixtures.editorOnA).
  - reflexivity.
  - vm_compute. reflexivity.
Defined.

(** The stale key of the example is evicted. *)
Example stale_eviction :
  exists r' this' w',
    apply Fixtures.ab (Fixtures.abMask None None) Fixtures.afterAbc Fixtures.afterAbcWindow
    = JS.Returns (r', this', w') /\
    decorationTypeMap Fixtures.afterAbc !! "abc" = Some 0%nat /\
    decorationTypeMap this' !! "abc" = None /\
    (decorations <$> editor this') = Some (<[0%nat := []]> (<[2%nat := [
        {| range := matchRange (document Fixtures.editorOnA) Fixtures.aAt0;
           hoverMessage := None |} ]]> (<[1%nat := []]> ∅))).
Proof.
  returns_by_computation.
  split_and!; vm_compute; reflexivity.
Qed.

(** *** The end of the scan *)

(** C6. For every text and every pattern, whatever its [lastIndex], the
    scan of [apply] ends within the rounds it is given: it returns or raises,
    and more rounds change nothing. A first empty match ends it at once,
    with the options and the keys gathered so far as they are and no other
    match gone through. [apply] itself never runs out of rounds. *)
Theorem scan_terminates (c : Site) (sels : list Selection) (text : string) (s : Scan)
    (pattern : RegExp.t) (mask : Mask.t) (this : MaskController.t) (w : Window) :
  ((exists s', scan (scanFuel text) c sels text s = JS.Returns s') \/
   scan (scanFuel text) c sels text s = JS.Throws) /\
  (forall fuel, (scanFuel text <= fuel)%nat ->
     scan fuel c sels text s = scan (scanFuel text) c sels text s) /\
  (forall fuel m r,
     RegExp.exec (MaskController.pattern s) text = (Some m, r) ->
     JS.length (RegExp.matched m) = 0 ->
     scan (S fuel) c sels text s = JS.Returns (setPattern r s) /\
     scanned (S fuel) (MaskController.pattern s) text = []) /\
  ((exists out, apply pattern mask this w = JS.Returns out) \/
   apply pattern mask this w = JS.Throws).
Proof.
  split_and!.
  - pose proof (ScanFacts.scan_fuel c sels text (scanFuel text) s
                  (ScanFacts.remaining_scanFuel _ _)) as H.
    destruct (scan (scanFuel text) c sels text s); [left; by eexists | by right | done].
  - intros fuel Hfuel. apply ScanFacts.scan_more_fuel.
    + pose proof (ScanFacts.remaining_scanFuel text (MaskController.pattern s)). lia.
    + apply ScanFacts.remaining_scanFuel.
  - intros fuel m r He Hl. cbn [scan scanned]. rewrite He.
    by rewrite (proj2 (Z.eqb_eq _ _) Hl).
  - unfold apply. destruct (editor this) as [e|]; [|left; by eexists].
    unfold scanOf. destruct (initialize _ _ _ _) as [this1 w1].
    match goal with
    | |- context [scan ?f ?c0 ?sels0 ?text0 ?s0] =>
        pose proof (ScanFacts.scan_fuel c0 sels0 text0 f s0
                      (ScanFacts.remaining_scanFuel _ _)) as H;
        destruct (scan f c0 sels0 text0 s0)
    end; [left; by eexists | by right | done].
Qed.

(** [/a*/g] on "aab": one match, then the empty match at offset 2 ends the
    scan, where nothing but the first two letters is decorated. *)
Example empty_match_ends_scan :
  matchesOf Fixtures.aStar (Fixtures.editorOn "aab" [Fixtures.caret 0 3])
  = [ {| RegExp.index := 0; RegExp.matched := "aa" |} ] /\
  exists r' this' w',
    apply Fixtures.aStar (Fixtures.plain (Mask.Literal "x") None)
      (Fixtures.controllerOn "aab" [Fixtures.caret 0 3] None) Fixtures.lineWindow
    = JS.Returns (r', this', w') /\
    RegExp.lastIndex r' = 2 /\
    shown this' "a*"
    = Some [ {| range := {| start := {| line := 0; character := 0 |};
                            end_ := {| line := 0; character := 2 |} |};
                hoverMessage := None |} ].
Proof.
  split; [vm_compute; reflexivity|].
  returns_by_computation.
  split; vm_compute; reflexivity.
Qed.

(** *** [apply], twice *)

(** The scan of a second call, on what the first call left, gathers the
    same options under the same keys and leaves the cache as it is. *)
Lemma scanOf_again (pattern : RegExp.t) (mask : Mask.t) (this : MaskController.t)
    (w : Window) (e e1 : TextEditor) (s : Scan) :
  scanOf pattern mask this w e = JS.Returns s ->
  editor (commit (RegExp.source pattern) s e) = Some e1 ->
  exists s2,
    scanOf pattern mask (commit (RegExp.source pattern) s e) (window s) e1 = JS.Returns s2 /\
    MaskController.pattern s2 = MaskController.pattern s /\
    decorationOptions s2 = decorationOptions s /\
    matchReplaceKeys s2 = matchReplaceKeys s /\
    MaskController.this s2 = commit (RegExp.source pattern) s e /\
    window s2 = window s.
Proof.
  intros Hscan He1.
  destruct (ApplyFacts.scanOf_cache _ _ _ _ _ _ Hscan) as (Hsrc & _ & Hkeys & Hsd & _ & Hcs & _).
  destruct (ApplyFacts.commit_frame (RegExp.source pattern) s e)
    as (Hsd1 & e1' & He1' & Hdoc & Hsels).
  rewrite He1 in He1'. injection He1' as <-.
  assert (Hcached : forall key,
            kept (RegExp.source pattern) (matchReplaceKeys s) key = true ->
            is_Some (decorationTypeMap (MaskController.this s) !! key) ->
            is_Some (decorationTypeMap (commit (RegExp.source pattern) s e) !! key)).
  { intros key Hkept Hk. by rewrite ApplyFacts.commit_types, Hkept. }
  assert (Hsite : siteOf mask (commit (RegExp.source pattern) s e) (window s) e1
                  = siteOf mask this w e).
  { unfold siteOf. by rewrite Hdoc, Hsd1, Hsd, Hcs. }
  unfold scanOf in Hscan |- *.
  rewrite ScanFacts.initialize_cached
    by (apply Hcached; [apply CommitFacts.kept_spec; by left | done]).
  rewrite Hsite, Hdoc, Hsels.
  destruct (initialize (RegExp.source pattern) mask this w) as [this0 w0].
  match type of Hscan with
  | scan ?fuel ?c ?sels ?text ?start1 = _ =>
      match goal with
      | |- exists s2, scan _ _ _ _ ?start2 = _ /\ _ =>
          destruct (ScanFacts.scan_returns_same c sels text fuel start1 s start2
                      Hscan eq_refl) as (s2 & Hs2 & Hp2);
          destruct (ScanFacts.scan_fold c sels text fuel start1 s Hscan) as [_ Hf1];
          destruct (ScanFacts.scan_fold c sels text fuel start2 s2 Hs2) as [_ Hf2];
          cbn [MaskController.pattern] in Hf1, Hf2;
          destruct (ScanFacts.decorateAll_cache_irrelevant c
                      (List.filter (isDecorated c sels) (scanned fuel pattern text))
                      start2 start1 eq_refl eq_refl eq_refl) as [Ho Hk];
          pose proof (ScanFacts.decorateAll_cached c
                        (List.filter (isDecorated c sels) (scanned fuel pattern text))
                        start2) as Hsame
      end
  end.
  pose proof (f_equal decorationOptions Hf1) as Ho1.
  pose proof (f_equal matchReplaceKeys Hf1) as Hk1.
  pose proof (f_equal decorationOptions Hf2) as Ho2.
  pose proof (f_equal matchReplaceKeys Hf2) as Hk2.
  pose proof (f_equal MaskController.this Hf2) as Ht2.
  pose proof (f_equal window Hf2) as Hw2.
  cbn [setPattern decorationOptions matchReplaceKeys MaskController.this window]
    in Ho1, Hk1, Ho2, Hk2, Ht2, Hw2.
  destruct Hsame as [Ht Hw].
  { intros key Hkey. right. cbn [MaskController.this].
    rewrite Hk, <- Hk1 in Hkey.
    apply Hcached; [apply CommitFacts.kept_spec; by right | by apply Hkeys]. }
  cbn [MaskController.this window] in Ht, Hw.
  exists s2. split; [exact Hs2|]. split_and!; congruence.
Qed.

(** C7. [apply] is idempotent: on a cache with one created type per key, a
    second call with the same pattern and the same mask, on the controller
    and the window the first call left (the same text, selections, caret
    style and tokens), returns with the same pattern, cache, shown ranges
    and window as the first. The pattern of the second call has the
    [lastIndex] it had at the first; the pattern as the first call left it
    does as well when this is its [lastIndex]. *)
Theorem apply_idempotent (pattern r1 : RegExp.t) (mask : Mask.t)
    (this this1 : MaskController.t) (w w1 : Window) :
  wellFormed this w ->
  apply pattern mask this w = JS.Returns (r1, this1, w1) ->
  apply pattern mask this1 w1 = JS.Returns (r1, this1, w1) /\
  (RegExp.lastIndex r1 = RegExp.lastIndex pattern ->
   apply r1 mask this1 w1 = JS.Returns (r1, this1, w1)).
Proof.
  intros Hwf Happly.
  assert (Hr1 : r1 = RegExp.setLastIndex (RegExp.lastIndex r1) pattern).
  { destruct (editor this) as [e|] eqn:He.
    - destruct (ApplyFacts.apply_inv _ _ _ _ _ _ _ _ He Happly) as (s & Hscan & -> & _).
      unfold scanOf in Hscan. destruct (initialize _ _ _ _) as [this0 w0].
      by apply ScanFacts.scan_pattern in Hscan.
    - unfold apply in Happly. rewrite He in Happly.
      revert Happly. intros [= <- <- <-]. by destruct pattern. }
  assert (Hagain : apply pattern mask this1 w1 = JS.Returns (r1, this1, w1)).
  { destruct (editor this) as [e|] eqn:He.
    2:{ unfold apply in Happly |- *. rewrite He in Happly.
        revert Happly. intros [= <- <- <-]. by rewrite He. }
    destruct (ApplyFacts.apply_inv _ _ _ _ _ _ _ _ He Happly) as (s & Hscan & -> & -> & ->).
    destruct (ApplyFacts.scanOf_cache _ _ _ _ _ _ Hscan) as (_ & _ & _ & _ & _ & _ & Hwf').
    destruct (Hwf' Hwf) as [_ Hinj].
    destruct (ApplyFacts.commit_frame (RegExp.source pattern) s e) as (_ & e1 & He1 & _).
    destruct (scanOf_again _ _ _ _ _ _ _ Hscan He1) as (s2 & Hs2 & Hp & Ho & Hk & Ht & Hw2).
    unfold apply. rewrite He1, Hs2, Hp, Hw2.
    by rewrite (ApplyFacts.commit_again _ s s2 e e1 Hinj Ho Hk Ht He1). }
  split; [exact Hagain|].
  intros Hlast.
  assert (Hsame : r1 = pattern) by (rewrite Hr1, Hlast; by destruct pattern).
  rewrite Hsame in Hagain |- *. exact Hagain.
Qed.

(** Two calls on the text "a b a" with the map of replacements. *)
Lemma apply_idempotent_witness :
  exists r1 this1 w1,
    apply Fixtures.ab (Fixtures.abMask None None)
      (Fixtures.controllerOn "a b a  " [Fixtures.caret 0 7] None) Fixtures.lineWindow
    = JS.Returns (r1, this1, w1) /\
    (apply Fixtures.ab (Fixtures.abMask None None) this1 w1 = JS.Returns (r1, this1, w1) /\
     (RegExp.lastIndex r1 = RegExp.lastIndex Fixtures.ab ->
      apply r1 (Fixtures.abMask None None) this1 w1 = JS.Returns (r1, this1, w1))).
Proof.
  returns_by_computation.
  eapply (apply_idempotent Fixtures.ab _ (Fixtures.abMask None None)
            (Fixtures.controllerOn "a b a  " [Fixtures.caret 0 7] None) _
            Fixtures.lineWindow _).
  - apply wellFormed_new.
  - vm_compute. reflexivity.
Defined.

(** The replacements of the text "a b a": two ranges under [x], one under
    [y], none under the source of the pattern. *)
Example keyed_replacement :
  exists r' this' w',
    apply Fixtures.ab (Fixtures.abMask None None)
      (Fixtures.controllerOn "a b a  " [Fixtures.caret 0 7] None) Fixtures.lineWindow
    = JS.Returns (r', this', w') /\
    (List.length <$> shown this' "(a|b)@@@x") = Some 2%nat /\
    (List.length <$> shown this' "(a|b)@@@y") = Some 1%nat /\
    shown this' "(a|b)" = Some [].
Proof.
  returns_by_computation.
  split_and!; vm_compute; reflexivity.
Qed.

(** *** The loop over the selections and the rule of the specification *)


(** Why the rule is stated for a list with a selection in it. The host
    gives an editor at least one selection. On an empty list, which it
    never passes, the loop over the selections does not run, and the match
    [a] of "a  " is not decorated ([apply] shows no range for the pattern),
    while the rule, with no selection to reveal the match and no scope
    asked for, decorates it. *)
Lemma collapsed_rule_without_selections :
  Fixtures.aAt0 ∈ matchesOf Fixtures.ab Fixtures.editorWithoutSelections /\
  isDecorated
    (siteOf (Fixtures.plain (Mask.Literal "x") None) Fixtures.withoutSelections
       Fixtures.lineWindow Fixtures.editorWithoutSelections)
    (selections Fixtures.editorWithoutSelections) Fixtures.aAt0 = false /\
  collapsedRule
    (siteOf (Fixtures.plain (Mask.Literal "x") None) Fixtures.withoutSelections
       Fixtures.lineWindow Fixtures.editorWithoutSelections)
    (selections Fixtures.editorWithoutSelections) Fixtures.aAt0 = true /\
  exists r' this' w',
    apply Fixtures.ab (Fixtures.plain (Mask.Literal "x") None) Fixtures.withoutSelections
      Fixtures.lineWindow = JS.Returns (r', this', w') /\
    shown this' "(a|b)" = Some [].
Proof.
  split_and!.
  - vm_compute. apply list_elem_of_here.
  - vm_compute. reflexivity.
  - vm_compute. reflexivity.
  - eexists _, _, _. split; vm_compute; reflexivity.
Qed.



(** *** Without an editor *)

(** C9, as it fails. Without an editor, [clear] empties the cache: the key
    that was in it is no longer there. *)
Lemma clear_without_editor_empties_cache :
  editor Fixtures.withoutEditor = None /\
  decorationTypeMap Fixtures.withoutEditor !! "abc" = Some 0%nat /\
  decorationTypeMap (clear Fixtures.withoutEditor) !! "abc" = None.
Proof. split_and!; vm_compute; reflexivity. Qed.

(** C9, amended. Without an editor, [apply] returns at once and leaves the
    pattern, the controller (its cache too) and the window as they are:
    nothing is created, rendered or evicted. [clear] renders nothing and
    leaves the editor and the scoped document as they are, but it empties
    the cache. *)
Theorem no_editor_operations (pattern : RegExp.t) (mask : Mask.t)
    (this : MaskController.t) (w : Window) :
  editor this = None ->
  apply pattern mask this w = JS.Returns (pattern, this, w) /\
  clear this = setDecorationTypeMap ∅ this.
Proof.
  intros He. split.
  - unfold apply. by rewrite He.
  - unfold clear, setDecorationTypeMap. by rewrite He.
Qed.

Lemma no_editor_operations_witness :
  apply Fixtures.ab (Fixtures.abMask None None) Fixtures.withoutEditor Fixtures.lineWindow
  = JS.Returns (Fixtures.ab, Fixtures.withoutEditor, Fixtures.lineWindow) /\
  clear Fixtures.withoutEditor = setDecorationTypeMap ∅ Fixtures.withoutEditor.
Proof.
  apply (no_editor_operations Fixtures.ab (Fixtures.abMask None None)
           Fixtures.withoutEditor Fixtures.lineWindow).
  reflexivity.
Defined.

(** *** The cache stays well formed *)

Lemma wellFormed_clear (this : MaskController.t) (w : Window) :
  wellFormed (clear this) w.
Proof. split; cbn; intros key; intros; by rewrite lookup_empty in *. Qed.

Lemma wellFormed_apply (pattern r' : RegExp.t) (mask : Mask.t)
    (this this' : MaskController.t) (w w' : Window) :
  wellFormed this w ->
  apply pattern mask this w = JS.Returns (r', this', w') ->
  wellFormed this' w'.
Proof.
  intros Hwf Happly. destruct (editor this) as [e|] eqn:He.
  2:{ unfold apply in Happly. rewrite He in Happly. revert Happly. by intros [= <- <- <-]. }
  destruct (ApplyFacts.apply_inv _ _ _ _ _ _ _ _ He Happly) as (s & Hscan & _ & -> & ->).
  destruct (ApplyFacts.scanOf_cache _ _ _ _ _ _ Hscan) as (_ & _ & _ & _ & _ & _ & Hwf').
  destruct (Hwf' Hwf) as [Hlt Hinj].
  assert (Hsub : forall key type,
            decorationTypeMap (commit (RegExp.source pattern) s e) !! key = Some type ->
            decorationTypeMap (MaskController.this s) !! key = Some type).
  { intros key type. rewrite ApplyFacts.commit_types. by destruct (kept _ _ key). }
  split.
  - intros key type Hk%Hsub. by apply (Hlt key).
  - intros key1 key2 type H1%Hsub H2%Hsub. by apply (Hinj key1 key2 type).
Qed.

(** *** The examples of the specification on the caret and on a reused pattern *)

(** The match of [abc] at the offsets 10 to 13: revealed with a line-shaped
    caret at offset 11, decorated with the caret at offset 20; with a
    block-shaped caret, revealed from offset 9 on. *)
Example caret_proximity :
  let mask := Fixtures.plain (Mask.Literal "x") None in
  let text := "0123456789abc0123456789" in
  let shownWith w ch :=
    match apply Fixtures.abc mask (Fixtures.controllerOn text [Fixtures.caret 0 ch] None) w with
    | JS.Returns (_, this', _) => List.length <$> shown this' "abc"
    | _ => None
    end in
  shownWith Fixtures.lineWindow 11 = Some 0%nat /\
  shownWith Fixtures.lineWindow 20 = Some 1%nat /\
  shownWith Fixtures.lineWindow 9 = Some 1%nat /\
  shownWith Fixtures.blockWindow 9 = Some 0%nat /\
  shownWith Fixtures.blockWindow 8 = Some 1%nat.
Proof. cbv zeta. split_and!; vm_compute; reflexivity. Qed.

(** A pattern that is passed again as the first call left it, after a scan
    that an empty match ended, starts its second scan at that empty match:
    [/a*/g] on "aab" decorates the first two letters in the first call and
    nothing in the second. Passed with the [lastIndex] it had, it decorates
    them again. *)
Example reused_pattern_after_empty_match :
  let mask := Fixtures.plain (Mask.Literal "x") None in
  exists r1 this1 w1,
    apply Fixtures.aStar mask
      (Fixtures.controllerOn "aab" [Fixtures.caret 0 3] None) Fixtures.lineWindow
    = JS.Returns (r1, this1, w1) /\
    RegExp.lastIndex r1 = 2 /\
    (List.length <$> shown this1 "a*") = Some 1%nat /\
    (exists r2 this2 w2,
       apply r1 mask this1 w1 = JS.Returns (r2, this2, w2) /\
       shown this2 "a*" = Some []) /\
    apply Fixtures.aStar mask this1 w1 = JS.Returns (r1, this1, w1).
Proof.
  cbv zeta. eexists _, _, _. split; [vm_compute; reflexivity|].
  split_and!; try (vm_compute; reflexivity).
  eexists _, _, _. split; vm_compute; reflexivity.
Qed.

End MaskControllerFacts.

(** ** The tokens of a line *)

Module TokenFacts.
Import Vscode Vsctm ScopedDocument.

Lemma tokenize_state (sd : ScopedDocument.t) (d : TextDocument) (g : IGrammar)
    (i : Z) (ln : TextLine) :
  document sd = Some d -> grammar sd = Some g -> lineAt d i = Some ln ->
  grammarState (tokenize sd) !! i
  = Some (ruleStack (tokenizeLine g (text ln) (grammarState (tokenize sd) !! (i - 1)))).
Proof.
  intros Hd Hg Hln.
  destruct (ScopedDocumentFacts.lineAt_Some _ _ _ Hln) as [Hi Hl].
  unfold tokenize. rewrite Hd, Hg. cbn.
  destruct (ScopedDocumentFacts.tokenizeFrom_spec g (splitLines (getText d)) 0 ∅)
    as (_ & _ & Hk).
  specialize (Hk _ _ Hl). cbv zeta in Hk.
  replace (0 + Z.of_nat (Z.to_nat i)) with i in Hk by lia. exact Hk.
Qed.

Lemma getTokens_tokenize (sd : ScopedDocument.t) (d : TextDocument) (g : IGrammar)
    (i : Z) (ln : TextLine) :
  document sd = Some d -> grammar sd = Some g -> lineAt d i = Some ln ->
  getTokens (tokenize sd) i
  = JS.Returns (Some (tokens (tokenizeLine g (text ln)
                                (grammarState (tokenize sd) !! (i - 1))))).
Proof.
  intros Hd Hg Hln. unfold getTokens, tokenize. rewrite Hd, Hg. cbn. by rewrite Hln.
Qed.

(** X1. After [tokenize], the tokens that [getTokens] returns for a line of the
    document and the state stored for that line are the two parts of one
    call of [tokenizeLine]: on the text of the line, from the state stored
    for the line before. *)
Theorem getTokens_after_tokenize (sd : ScopedDocument.t) (d : TextDocument) (g : IGrammar)
    (i : Z) (ln : TextLine) :
  document sd = Some d -> grammar sd = Some g -> lineAt d i = Some ln ->
  getTokens (tokenize sd) i
  = JS.Returns (Some (tokens (tokenizeLine g (text ln)
                                (grammarState (tokenize sd) !! (i - 1))))) /\
  grammarState (tokenize sd) !! i
  = Some (ruleStack (tokenizeLine g (text ln) (grammarState (tokenize sd) !! (i - 1)))).
Proof.
  intros Hd Hg Hln. split.
  - by apply (getTokens_tokenize sd d).
  - by apply (tokenize_state sd d).
Qed.

Lemma getTokens_after_tokenize_witness :
  getTokens (tokenize (ScopedDocument.new (Some PassFixtures.threeLines)
                         (Some Fixtures.commentGrammar))) 1
  = JS.Returns (Some (tokens (tokenizeLine Fixtures.commentGrammar "b"
      (grammarState (tokenize (ScopedDocument.new (Some PassFixtures.threeLines)
                                 (Some Fixtures.commentGrammar))) !! (1 - 1))))) /\
  grammarState (tokenize (ScopedDocument.new (Some PassFixtures.threeLines)
                            (Some Fixtures.commentGrammar))) !! 1
  = Some (ruleStack (tokenizeLine Fixtures.commentGrammar "b"
      (grammarState (tokenize (ScopedDocument.new (Some PassFixtures.threeLines)
                                 (Some Fixtures.commentGrammar))) !! (1 - 1)))).
Proof.
  apply (getTokens_after_tokenize
           (ScopedDocument.new (Some PassFixtures.threeLines) (Some Fixtures.commentGrammar))
           PassFixtures.threeLines Fixtures.commentGrammar 1
           {| lineNumber := 1; text := "b" |}); reflexivity.
Defined.

(** X3. Tokenization goes from the top: two documents that have the same first
    [k] lines get, with one grammar, the same state and the same tokens for
    each of these lines, whatever follows them. *)
Theorem tokenize_prefix (sd1 sd2 : ScopedDocument.t) (d1 d2 : TextDocument) (g : IGrammar)
    (k : Z) :
  document sd1 = Some d1 -> document sd2 = Some d2 ->
  grammar sd1 = Some g -> grammar sd2 = Some g ->
  (forall i, 0 <= i < k -> exists ln, lineAt d1 i = Some ln /\ lineAt d2 i = Some ln) ->
  forall i, i < k ->
    grammarState (tokenize sd1) !! i = grammarState (tokenize sd2) !! i /\
    (0 <= i -> getTokens (tokenize sd1) i = getTokens (tokenize sd2) i).
Proof.
  intros Hd1 Hd2 Hg1 Hg2 Hlines.
  assert (Hstate : forall n : nat, forall i, i < k -> i < Z.of_nat n ->
            grammarState (tokenize sd1) !! i = grammarState (tokenize sd2) !! i).
  { induction n as [|n IH]; intros i Hik Hin.
    - unfold tokenize. rewrite Hd1, Hd2, Hg1, Hg2. cbn.
      destruct (ScopedDocumentFacts.tokenizeFrom_spec g (splitLines (getText d1)) 0 ∅)
        as (Hlow1 & _).
      destruct (ScopedDocumentFacts.tokenizeFrom_spec g (splitLines (getText d2)) 0 ∅)
        as (Hlow2 & _).
      cbv zeta in Hlow1, Hlow2. rewrite Hlow1, Hlow2 by lia. done.
    - destruct (decide (i < Z.of_nat n)) as [Hlt|Hge]; [by apply IH|].
      assert (0 <= i < k) as Hi by lia.
      destruct (Hlines i Hi) as (ln & Hl1 & Hl2).
      rewrite (tokenize_state sd1 d1 g i ln Hd1 Hg1 Hl1).
      rewrite (tokenize_state sd2 d2 g i ln Hd2 Hg2 Hl2).
      rewrite (IH (i - 1)) by lia. done. }
  intros i Hik. split.
  - apply (Hstate (Z.to_nat i + 1)%nat); lia.
  - intros Hi. destruct (Hlines i (conj Hi Hik)) as (ln & Hl1 & Hl2).
    rewrite (getTokens_tokenize sd1 d1 g i ln Hd1 Hg1 Hl1).
    rewrite (getTokens_tokenize sd2 d2 g i ln Hd2 Hg2 Hl2).
    rewrite (Hstate (Z.to_nat i)) by lia. done.
Qed.

Lemma tokenize_prefix_witness :
  grammarState (tokenize (ScopedDocument.new (Some PassFixtures.twoLines)
                            (Some Fixtures.commentGrammar))) !! 1
  = grammarState (tokenize (ScopedDocument.new (Some PassFixtures.threeLines)
                              (Some Fixtures.commentGrammar))) !! 1 /\
  (0 <= 1 ->
   getTokens (tokenize (ScopedDocument.new (Some PassFixtures.twoLines)
                          (Some Fixtures.commentGrammar))) 1
   = getTokens (tokenize (ScopedDocument.new (Some PassFixtures.threeLines)
                            (Some Fixtures.commentGrammar))) 1).
Proof.
  apply (tokenize_prefix
           (ScopedDocument.new (Some PassFixtures.twoLines) (Some Fixtures.commentGrammar))
           (ScopedDocument.new (Some PassFixtures.threeLines) (Some Fixtures.commentGrammar))
           PassFixtures.twoLines PassFixtures.threeLines Fixtures.commentGrammar 2);
    try reflexivity.
  intros i Hi. assert (i = 0 \/ i = 1) as [-> | ->] by lia; eexists; split; reflexivity.
Defined.

End TokenFacts.

(** ** The grammar of a language *)

Module GrammarFacts.
Import Extension PassNotions.

Lemma grammarsLoop_find (test : GrammarContribution -> bool)
    (gs : list GrammarContribution) :
  grammarsLoop test gs = List.find test gs.
Proof. induction gs as [|g gs IH]; [done|]. cbn. by rewrite IH. Qed.

Lemma find_app {A : Type} (test : A -> bool) (l1 l2 : list A) :
  List.find test (l1 ++ l2)
  = match List.find test l1 with
    | Some a => Some a
    | None => List.find test l2
    end.
Proof. induction l1 as [|a l1 IH]; [done|]. cbn. by destruct (test a). Qed.

Lemma extensionsLoop_find (test : GrammarContribution -> bool)
    (all : list InstalledExtension) :
  snd <$> extensionsLoop test all = List.find test (contributions all).
Proof.
  induction all as [|extension all IH]; [done|].
  unfold contributions in *. cbn. rewrite find_app.
  destruct (grammars extension) as [gs|]; cbn; [|exact IH].
  rewrite grammarsLoop_find. by destruct (List.find test gs).
Qed.

Lemma extensionsLoop_Some (test : GrammarContribution -> bool)
    (all : list InstalledExtension) (extension : InstalledExtension)
    (grammar : GrammarContribution) :
  extensionsLoop test all = Some (extension, grammar) ->
  extension ∈ all /\
  exists gs, grammars extension = Some gs /\ grammar ∈ gs /\ test grammar = true.
Proof.
  induction all as [|x all IH]; [done|]. cbn.
  destruct (grammars x) as [gs|] eqn:Hgs.
  - rewrite grammarsLoop_find. destruct (List.find test gs) as [g|] eqn:Hfind.
    + intros [= <- <-]. split; [left|]. exists gs.
      apply find_some in Hfind as [Hin Ht]. by rewrite list_elem_of_In.
    + intros [Hin H]%IH. split; [by right|done].
  - intros [Hin H]%IH. split; [by right|done].
Qed.

Lemma extensionsLoop_None (test : GrammarContribution -> bool)
    (all : list InstalledExtension) (grammar : GrammarContribution) :
  extensionsLoop test all = None -> grammar ∈ contributions all -> test grammar = false.
Proof.
  intros Hnone Hin. pose proof (extensionsLoop_find test all) as Hfind.
  rewrite Hnone in Hfind. cbn in Hfind. symmetry in Hfind.
  apply (find_none _ _ Hfind). by rewrite <- list_elem_of_In.
Qed.

(** X4. [getLanguageScopeName] returns nothing for a language id that is
    missing or empty; for another it returns the scope name of the first
    grammar for that language, in the order of the installed extensions and
    of the grammars of each, and nothing when there is no such grammar or
    when that first grammar has no scope name. *)
Theorem getLanguageScopeName_first (all : list InstalledExtension)
    (languageId : option string) :
  getLanguageScopeName all languageId
  = match languageId with
    | None | Some "" => None
    | Some _ =>
        List.find (fun grammar => bool_decide (grammar_language grammar = languageId))
          (contributions all) ≫= grammar_scopeName
    end.
Proof.
  unfold getLanguageScopeName.
  destruct languageId as [[|c s]|]; cbn; [done| |done].
  rewrite <- extensionsLoop_find.
  by destruct (extensionsLoop _ all) as [[extension grammar]|].
Qed.

Lemma grammarsLoop_located (test : GrammarContribution -> bool)
    (extension : InstalledExtension) (gs : list GrammarContribution) :
  List.find (fun eg : InstalledExtension * GrammarContribution => test eg.2)
    ((fun grammar => (extension, grammar)) <$> gs)
  = match grammarsLoop test gs with
    | Some grammar => Some (extension, grammar)
    | None => None
    end.
Proof.
  induction gs as [|g gs IH]; [done|]. cbn. by destruct (test g).
Qed.

Lemma extensionsLoop_located (test : GrammarContribution -> bool)
    (all : list InstalledExtension) :
  extensionsLoop test all
  = List.find (fun eg : InstalledExtension * GrammarContribution => test eg.2) (located all).
Proof.
  induction all as [|extension all IH]; [done|].
  unfold located in *. cbn [extensionsLoop flat_map].
  rewrite find_app, grammarsLoop_located.
  destruct (grammars extension) as [gs|]; cbn [default from_option id]; [|exact IH].
  destruct (grammarsLoop test gs); [done | exact IH].
Qed.

(** X5. The scope name that [getLanguageScopeName] returns is one that
    [loadGrammar] finds: the loader reads the file of the first grammar with
    that scope name, in the order of the installed extensions and of the
    grammars of each (which need not be the grammar of the language), from
    the path of the extension that contributes it, and does not return
    [null]. *)
Theorem loadGrammar_of_language_scope {R : Type}
    (readGrammar : string -> option string -> JS.Outcome R)
    (all : list InstalledExtension) (languageId : option string) (scopeName : string) :
  getLanguageScopeName all languageId = Some scopeName ->
  exists extension grammar,
    List.find (fun eg : InstalledExtension * GrammarContribution =>
                 bool_decide (grammar_scopeName eg.2 = Some scopeName)) (located all)
    = Some (extension, grammar) /\
    grammar_scopeName grammar = Some scopeName /\
    loadGrammar readGrammar all scopeName
    = match readGrammar (extensionPath extension) (grammar_path grammar) with
      | JS.Returns rawGrammar => JS.Returns (Some rawGrammar)
      | JS.Throws => JS.Throws
      | JS.OutOfFuel => JS.OutOfFuel
      end /\
    loadGrammar readGrammar all scopeName <> JS.Returns None.
Proof.
  unfold getLanguageScopeName. destruct (JS.truthy languageId); [|done].
  destruct (extensionsLoop _ all) as [[extension0 grammar0]|] eqn:Hlang; [|done].
  intros Hscope.
  apply extensionsLoop_Some in Hlang as (Hin0 & gs0 & Hgs0 & Hg0 & _).
  destruct (extensionsLoop
              (fun grammar => bool_decide (grammar_scopeName grammar = Some scopeName)) all)
    as [[extension grammar]|] eqn:Hload.
  - pose proof Hload as (_ & _ & _ & _ & Ht)%extensionsLoop_Some.
    apply bool_decide_eq_true in Ht.
    exists extension, grammar. split_and!; try done.
    + rewrite <- Hload. symmetry.
      apply (extensionsLoop_located
               (fun grammar => bool_decide (grammar_scopeName grammar = Some scopeName))).
    + unfold loadGrammar. by rewrite Hload.
    + unfold loadGrammar. rewrite Hload. by destruct (readGrammar _ _).
  - assert (grammar0 ∈ contributions all) as Hc.
    { unfold contributions. rewrite list_elem_of_In. apply in_flat_map.
      exists extension0. rewrite <- !list_elem_of_In. by rewrite Hgs0. }
    apply (extensionsLoop_None _ _ _ Hload) in Hc.
    apply bool_decide_eq_false in Hc. done.
Qed.

Lemma loadGrammar_of_language_scope_witness :
  exists extension grammar,
    List.find (fun eg : InstalledExtension * GrammarContribution =>
                 bool_decide (grammar_scopeName eg.2 = Some "source.ts"))
      (located PassFixtures.installed)
    = Some (extension, grammar) /\
    grammar_scopeName grammar = Some "source.ts" /\
    loadGrammar (fun dir file => JS.Returns (dir, file)) PassFixtures.installed "source.ts"
    = match (fun dir file => JS.Returns (dir, file))
              (extensionPath extension) (grammar_path grammar) with
      | JS.Returns rawGrammar => JS.Returns (Some rawGrammar)
      | JS.Throws => JS.Throws
      | JS.OutOfFuel => JS.OutOfFuel
      end /\
    loadGrammar (fun dir file => JS.Returns (dir, file)) PassFixtures.installed "source.ts"
    <> JS.Returns None.
Proof.
  apply (loadGrammar_of_language_scope (fun dir file => JS.Returns (dir, file))
           PassFixtures.installed (Some "typescript") "source.ts").
  reflexivity.
Defined.

End GrammarFacts.

(** ** The cache and the ranges that are shown *)

Module CacheFacts.
Import Vscode MaskController Notions PassNotions.

(** *** [clear] *)

Lemma clearLoop_lookup (entries : list (string * TextEditorDecorationType))
    (type : TextEditorDecorationType) :
  forall e,
    document (clearLoop entries e) = document e /\
    selections (clearLoop entries e) = selections e /\
    decorations (clearLoop entries e) !! type
    = if bool_decide (type ∈ entries.*2) then Some [] else decorations e !! type.
Proof.
  induction entries as [|[k h] entries IH]; intros e.
  - done.
  - change (clearLoop ((k, h) :: entries) e)
      with (clearLoop entries (setDecorations h [] e)).
    destruct (IH (setDecorations h [] e)) as (-> & -> & ->).
    split_and!; try done. cbn [fmap list_fmap snd setDecorations decorations].
    case_bool_decide as Hin.
    + rewrite bool_decide_eq_true_2; [done | by right].
    + destruct (decide (type = h)) as [->|Hne].
      * rewrite lookup_insert_eq. rewrite bool_decide_eq_true_2; [done | by left].
      * rewrite lookup_insert_ne by done.
        rewrite bool_decide_eq_false_2; [done|].
        by intros [?|?]%elem_of_cons.
Qed.

Lemma map_to_list_types (types : gmap string TextEditorDecorationType)
    (type : TextEditorDecorationType) :
  type ∈ (map_to_list types).*2 <-> exists key, types !! key = Some type.
Proof.
  rewrite list_elem_of_fmap. split.
  - intros ([k h] & -> & Hin). apply elem_of_map_to_list in Hin. by exists k.
  - intros [k Hk]. exists (k, type). split; [done | by apply elem_of_map_to_list].
Qed.

(** X6. [clear] on an editor: every type of the cache shows no range
    afterwards, the types that are not in the cache show what they showed,
    the cache is empty, and the document, the selections and the scoped
    document are as before. When no type outside the cache showed a range,
    the editor shows none at all. *)
Theorem clear_hides_cached_types (this : MaskController.t) (e : TextEditor) :
  editor this = Some e ->
  decorationTypeMap (clear this) = ∅ /\
  scopedDocument (clear this) = scopedDocument this /\
  exists e',
    editor (clear this) = Some e' /\
    document e' = document e /\ selections e' = selections e /\
    (forall key type, decorationTypeMap this !! key = Some type ->
       decorations e' !! type = Some []) /\
    (forall type, (forall key, decorationTypeMap this !! key <> Some type) ->
       decorations e' !! type = decorations e !! type) /\
    (tidy this -> forall type l, decorations e' !! type = Some l -> l = []).
Proof.
  intros He. unfold clear. rewrite He.
  cbn [decorationTypeMap scopedDocument editor].
  split; [done|]. split; [done|]. eexists. split; [done|].
  pose proof (fun type => clearLoop_lookup (map_to_list (decorationTypeMap this)) type e)
    as Hlk.
  split_and!.
  - apply (Hlk 0%nat).
  - apply (Hlk 0%nat).
  - intros key type Hk. destruct (Hlk type) as (_ & _ & Heq).
    etrans; [exact Heq|].
    rewrite bool_decide_eq_true_2; [done|]. apply map_to_list_types. by exists key.
  - intros type Hno. destruct (Hlk type) as (_ & _ & Heq).
    etrans; [exact Heq|].
    rewrite bool_decide_eq_false_2; [done|].
    intros [key Hk]%map_to_list_types. by apply (Hno key).
  - intros Htidy type l Hl. destruct (Hlk type) as (_ & _ & Heq).
    assert (Hl' : (if bool_decide (type ∈ (map_to_list (decorationTypeMap this)).*2)
                   then Some [] else decorations e !! type) = Some l)
      by (etrans; [symmetry; exact Heq | exact Hl]).
    clear Heq Hl. revert Hl'.
    case_bool_decide as Hin; [by intros [= <-]|].
    intros Hl. destruct l as [|o l]; [done|]. exfalso.
    destruct (Htidy e type (o :: l) He Hl) as [key Hk]; [done|].
    apply Hin, map_to_list_types. by exists key.
Qed.

Lemma clear_hides_cached_types_witness :
  decorationTypeMap (clear Fixtures.afterAbc) = ∅ /\
  scopedDocument (clear Fixtures.afterAbc) = scopedDocument Fixtures.afterAbc /\
  exists e',
    editor (clear Fixtures.afterAbc) = Some e' /\
    document e' = document Fixtures.editorOnA /\
    selections e' = selections Fixtures.editorOnA /\
    (forall key type, decorationTypeMap Fixtures.afterAbc !! key = Some type ->
       decorations e' !! type = Some []) /\
    (forall type, (forall key, decorationTypeMap Fixtures.afterAbc !! key <> Some type) ->
       decorations e' !! type = decorations Fixtures.editorOnA !! type) /\
    (tidy Fixtures.afterAbc -> forall type l, decorations e' !! type = Some l -> l = []).
Proof.
  apply (clear_hides_cached_types Fixtures.afterAbc Fixtures.editorOnA). reflexivity.
Defined.

(** *** The types that the window has created *)

Lemma initialize_types (id : string) (mask : Mask.t) (this : MaskController.t) (w : Window) :
  decorationTypes (initialize id mask this w).2
  = decorationTypes w ++ match decorationTypeMap this !! id with
                         | Some _ => []
                         | None => [renderOptions mask]
                         end.
Proof.
  unfold initialize. destruct (decorationTypeMap this !! id); cbn; [|done].
  by rewrite app_nil_r.
Qed.

Lemma decorate_types (c : Site) (m : RegExp.ExecArray) (s : Scan) :
  exists added, decorationTypes (window (decorate c m s)) = decorationTypes (window s) ++ added.
Proof.
  pose proof (ScanFacts.decorate_state c m s) as Hst.
  apply (f_equal snd) in Hst. cbn [snd] in Hst. rewrite Hst.
  destruct (keyedReplace (replaceOf c m)); [|exists []; by rewrite app_nil_r].
  destruct (bool_decide _); [exists []; by rewrite app_nil_r|].
  rewrite initialize_types. eauto.
Qed.

Lemma decorateAll_types (c : Site) (ms : list RegExp.ExecArray) :
  forall s, exists added,
    decorationTypes (window (decorateAll c ms s)) = decorationTypes (window s) ++ added.
Proof.
  induction ms as [|m ms IH]; intros s.
  - exists []. by rewrite app_nil_r.
  - rewrite ScanFacts.decorateAll_cons.
    destruct (IH (decorate c m s)) as [added2 ->].
    destruct (decorate_types c m s) as [added1 ->].
    exists (added1 ++ added2). by rewrite app_assoc.
Qed.

Lemma scanOf_types (pattern : RegExp.t) (mask : Mask.t) (this : MaskController.t)
    (w : Window) (e : TextEditor) (s : Scan) :
  scanOf pattern mask this w e = JS.Returns s ->
  exists added, decorationTypes (window s) = decorationTypes w ++ added.
Proof.
  intros Hscan. destruct (ApplyFacts.scanOf_inv _ _ _ _ _ _ Hscan) as [_ ->].
  cbn [setPattern window].
  destruct (decorateAll_types (siteOf mask this w e)
              (decoratedMatches pattern mask this w e) (scanStart pattern mask this w))
    as [added2 ->].
  cbn [scanStart window]. rewrite initialize_types.
  eexists. by rewrite <- app_assoc.
Qed.

Lemma scanOf_pattern (pattern : RegExp.t) (mask : Mask.t) (this : MaskController.t)
    (w : Window) (e : TextEditor) (s : Scan) :
  scanOf pattern mask this w e = JS.Returns s ->
  MaskController.pattern s
  = RegExp.setLastIndex (RegExp.lastIndex (MaskController.pattern s)) pattern.
Proof.
  unfold scanOf. destruct (initialize (RegExp.source pattern) mask this w) as [this1 w1].
  intros H. by apply ScanFacts.scan_pattern in H.
Qed.

(** X7. What [apply] leaves alone: a call that returns changes neither the
    document of the editor nor its selections, neither the scoped document
    of the controller nor the cursor style of the window; a controller with
    an editor still has one and a controller without one has none; of the
    pattern, only [lastIndex] may have changed. *)
Theorem apply_frame (pattern r' : RegExp.t) (mask : Mask.t)
    (this this' : MaskController.t) (w w' : Window) :
  apply pattern mask this w = JS.Returns (r', this', w') ->
  scopedDocument this' = scopedDocument this /\
  cursorStyle w' = cursorStyle w /\
  r' = RegExp.setLastIndex (RegExp.lastIndex r') pattern /\
  match editor this with
  | Some e => exists e', editor this' = Some e' /\
                         document e' = document e /\ selections e' = selections e
  | None => editor this' = None
  end.
Proof.
  intros Happly. destruct (editor this) as [e|] eqn:He.
  - destruct (ApplyFacts.apply_inv _ _ _ _ _ _ _ _ He Happly) as (s & Hscan & -> & -> & ->).
    destruct (ApplyFacts.scanOf_cache _ _ _ _ _ _ Hscan) as (_ & _ & _ & Hsd & _ & Hcs & _).
    destruct (ApplyFacts.commit_frame (RegExp.source pattern) s e) as (Hsd' & Hed).
    split_and!; [congruence | done | by apply (scanOf_pattern _ mask this w e) | done].
  - unfold apply in Happly. rewrite He in Happly. revert Happly. intros [= <- <- <-].
    split_and!; try done. by destruct pattern.
Qed.

Lemma apply_frame_witness :
  exists r' this' w',
    apply Fixtures.ab (Fixtures.abMask None None) Fixtures.afterAbc Fixtures.afterAbcWindow
    = JS.Returns (r', this', w') /\
    (scopedDocument this' = scopedDocument Fixtures.afterAbc /\
     cursorStyle w' = cursorStyle Fixtures.afterAbcWindow /\
     r' = RegExp.setLastIndex (RegExp.lastIndex r') Fixtures.ab /\
     match editor Fixtures.afterAbc with
     | Some e => exists e', editor this' = Some e' /\
                            document e' = document e /\ selections e' = selections e
     | None => editor this' = None
     end).
Proof.
  eexists _, _, _. split; [vm_compute; reflexivity|].
  eapply (apply_frame Fixtures.ab _ (Fixtures.abMask None None)
            Fixtures.afterAbc _ Fixtures.afterAbcWindow _).
  vm_compute. reflexivity.
Defined.

(** X8. [apply] reuses what is cached: the types the window has created
    keep their place and their options, new ones come after them; a key
    that was cached is, after the call, cached with the same type or not at
    all; and the key of the pattern, when it was cached, keeps its type,
    whatever the mask of this call asks for. *)
Theorem apply_reuses_types (pattern r' : RegExp.t) (mask : Mask.t)
    (this this' : MaskController.t) (w w' : Window) :
  apply pattern mask this w = JS.Returns (r', this', w') ->
  (exists added, decorationTypes w' = decorationTypes w ++ added) /\
  (forall type options, decorationTypes w !! type = Some options ->
     decorationTypes w' !! type = Some options) /\
  (forall key type, decorationTypeMap this !! key = Some type ->
     decorationTypeMap this' !! key = Some type \/ decorationTypeMap this' !! key = None) /\
  (forall type, decorationTypeMap this !! RegExp.source pattern = Some type ->
     decorationTypeMap this' !! RegExp.source pattern = Some type).
Proof.
  intros Happly. destruct (editor this) as [e|] eqn:He.
  2:{ unfold apply in Happly. rewrite He in Happly. revert Happly. intros [= <- <- <-].
      split_and!; eauto. exists []. by rewrite app_nil_r. }
  destruct (ApplyFacts.apply_inv _ _ _ _ _ _ _ _ He Happly) as (s & Hscan & -> & -> & ->).
  destruct (ApplyFacts.scanOf_cache _ _ _ _ _ _ Hscan) as (_ & Hmono & _).
  destruct (scanOf_types _ _ _ _ _ _ Hscan) as [added Hadded].
  split_and!.
  - by exists added.
  - intros type options Hty. rewrite Hadded. by apply lookup_app_l_Some.
  - intros key type Hk%Hmono. rewrite ApplyFacts.commit_types.
    destruct (kept _ _ key); eauto.
  - intros type Hk%Hmono. rewrite ApplyFacts.commit_types.
    unfold kept. by rewrite bool_decide_eq_true_2.
Qed.

Lemma apply_reuses_types_witness :
  exists r' this' w',
    apply Fixtures.abc (Fixtures.plain (Mask.Literal "other") None)
      Fixtures.afterAbc Fixtures.afterAbcWindow
    = JS.Returns (r', this', w') /\
    ((exists added,
        decorationTypes w' = decorationTypes Fixtures.afterAbcWindow ++ added) /\
     (forall type options, decorationTypes Fixtures.afterAbcWindow !! type = Some options ->
        decorationTypes w' !! type = Some options) /\
     (forall key type, decorationTypeMap Fixtures.afterAbc !! key = Some type ->
        decorationTypeMap this' !! key = Some type \/
        decorationTypeMap this' !! key = None) /\
     (forall type,
        decorationTypeMap Fixtures.afterAbc !! RegExp.source Fixtures.abc = Some type ->
        decorationTypeMap this' !! RegExp.source Fixtures.abc = Some type)).
Proof.
  eexists _, _, _. split; [vm_compute; reflexivity|].
  eapply (apply_reuses_types Fixtures.abc _ (Fixtures.plain (Mask.Literal "other") None)
            Fixtures.afterAbc _ Fixtures.afterAbcWindow _).
  vm_compute. reflexivity.
Defined.

End CacheFacts.

(** ** What an editor shows after [apply] *)

Module ShownFacts.
Import Vscode MaskController Notions PassNotions.

Lemma decorateAll_options_exact (c : Site) (ms : list RegExp.ExecArray) :
  forall s key,
    optionsAt (decorationOptions (decorateAll c ms s)) key
    = optionsAt (decorationOptions s) key
      ++ (optionOf c <$> underKey (RegExp.source (pattern s)) c key ms).
Proof.
  induction ms as [|m ms IH]; intros s key.
  - cbn. by rewrite app_nil_r.
  - rewrite ScanFacts.decorateAll_cons, IH, ScanFacts.decorate_pattern,
      ScanFacts.decorate_options, ScanFacts.optionsAt_push.
    unfold underKey. cbn [List.filter].
    destruct (decide (keyOf (RegExp.source (pattern s)) c m = key)) as [Heq|Hne].
    + rewrite bool_decide_eq_true_2 by done. rewrite Heq. cbn.
      by rewrite <- app_assoc.
    + by rewrite bool_decide_eq_false_2 by done.
Qed.

Lemma scanOf_options_exact (pattern : RegExp.t) (mask : Mask.t) (this : MaskController.t)
    (w : Window) (e : TextEditor) (s : Scan) (key : string) :
  scanOf pattern mask this w e = JS.Returns s ->
  optionsAt (decorationOptions s) key
  = optionOf (siteOf mask this w e)
    <$> underKey (RegExp.source pattern) (siteOf mask this w e) key
          (decoratedMatches pattern mask this w e).
Proof.
  intros Hscan. destruct (ApplyFacts.scanOf_inv _ _ _ _ _ _ Hscan) as [_ ->].
  cbn [setPattern decorationOptions]. rewrite decorateAll_options_exact.
  cbn [scanStart decorationOptions MaskController.pattern].
  unfold optionsAt at 1. by rewrite lookup_empty.
Qed.

(** X9. What [apply] shows, exactly: on a cache with one created type per
    key, each key that is cached after a call on an editor shows the ranges
    of the decorated matches that are grouped under it, each once, in the
    order of the scan, with the hover of its group, and nothing else. *)
Theorem apply_shows_exactly (pattern r' : RegExp.t) (mask : Mask.t)
    (this this' : MaskController.t) (w w' : Window) (e : TextEditor) (key : string) :
  editor this = Some e ->
  wellFormed this w ->
  apply pattern mask this w = JS.Returns (r', this', w') ->
  is_Some (decorationTypeMap this' !! key) ->
  shown this' key
  = Some (optionOf (siteOf mask this w e)
          <$> underKey (RegExp.source pattern) (siteOf mask this w e) key
                (decoratedMatches pattern mask this w e)).
Proof.
  intros He Hwf Happly Hkey.
  destruct (ApplyFacts.apply_inv _ _ _ _ _ _ _ _ He Happly) as (s & Hscan & _ & -> & _).
  destruct (ApplyFacts.scanOf_cache _ _ _ _ _ _ Hscan) as (_ & _ & _ & _ & _ & _ & Hwf').
  destruct (Hwf' Hwf) as [_ Hinj].
  rewrite ApplyFacts.commit_types in Hkey.
  destruct (kept (RegExp.source pattern) (matchReplaceKeys s) key) eqn:Hkept;
    [|by destruct Hkey].
  rewrite (ApplyFacts.commit_shown_rendered _ _ _ _ Hinj Hkept Hkey).
  by rewrite (scanOf_options_exact _ _ _ _ _ _ key Hscan).
Qed.

Lemma apply_shows_exactly_witness :
  exists r' this' w',
    apply Fixtures.ab (Fixtures.abMask None None) Fixtures.plainOnA Fixtures.lineWindow
    = JS.Returns (r', this', w') /\
    shown this' "(a|b)@@@x"
    = Some (optionOf (siteOf (Fixtures.abMask None None) Fixtures.plainOnA
                        Fixtures.lineWindow Fixtures.editorOnA)
            <$> underKey (RegExp.source Fixtures.ab)
                  (siteOf (Fixtures.abMask None None) Fixtures.plainOnA
                     Fixtures.lineWindow Fixtures.editorOnA) "(a|b)@@@x"
                  (decoratedMatches Fixtures.ab (Fixtures.abMask None None)
                     Fixtures.plainOnA Fixtures.lineWindow Fixtures.editorOnA)).
Proof.
  eexists _, _, _. split; [vm_compute; reflexivity|].
  eapply (apply_shows_exactly Fixtures.ab _ (Fixtures.abMask None None)
            Fixtures.plainOnA _ Fixtures.lineWindow _ Fixtures.editorOnA "(a|b)@@@x").
  - reflexivity.
  - apply MaskControllerFacts.wellFormed_new.
  - vm_compute. reflexivity.
  - vm_compute. eauto.
Defined.

Lemma filter_all {A : Type} (f : A -> bool) (l : list A) :
  (forall a, a ∈ l -> f a = true) -> List.filter f l = l.
Proof.
  induction l as [|a l IH]; intros Hall; [done|]. cbn.
  rewrite (Hall a) by left. rewrite IH; [done|]. intros b Hb. apply Hall. by right.
Qed.

(** X10. A mask whose text is a string, or that has no text, uses one
    type: on a cache with one created type per key, after a call on an
    editor the cache holds the source of the pattern and no other key, and
    that key shows the ranges of all the decorated matches, in the order of
    the scan, each with the hover of the mask. *)
Theorem apply_unkeyed_single_type (pattern r' : RegExp.t) (mask : Mask.t)
    (this this' : MaskController.t) (w w' : Window) (e : TextEditor) :
  editor this = Some e ->
  wellFormed this w ->
  (forall replace, Mask.text mask <> Mask.MatchBased replace) ->
  apply pattern mask this w = JS.Returns (r', this', w') ->
  dom (decorationTypeMap this') = ({[ RegExp.source pattern ]} : gset string) /\
  shown this' (RegExp.source pattern)
  = Some ((fun m => {| range := matchRange (document e) m;
                       hoverMessage := Mask.hover mask |})
          <$> decoratedMatches pattern mask this w e).
Proof.
  intros He Hwf Htext Happly.
  destruct (ApplyFacts.apply_inv _ _ _ _ _ _ _ _ He Happly) as (s & Hscan & _ & -> & _).
  destruct (ApplyFacts.scanOf_cache _ _ _ _ _ _ Hscan)
    as (Hsrc & _ & _ & _ & _ & _ & Hwf').
  destruct (Hwf' Hwf) as [_ Hinj].
  assert (Hnone : forall matched, matchReplaceOf mask matched = None).
  { intros matched. unfold matchReplaceOf.
    destruct (Mask.text mask) as [| |replace] eqn:Ht; try done. by destruct (Htext replace). }
  assert (Hkeys : matchReplaceKeys s = []).
  { destruct (matchReplaceKeys s) as [|key keys] eqn:Hk; [done|]. exfalso.
    assert (key ∈ matchReplaceKeys s) as Hin by (rewrite Hk; left).
    apply (ApplyFacts.scanOf_keys _ _ _ _ _ _ key Hscan) in Hin as (m & _ & Hsome & _).
    unfold replaceOf in Hsome. cbn in Hsome. rewrite Hnone in Hsome.
    by destruct Hsome. }
  assert (Hkept : kept (RegExp.source pattern) (matchReplaceKeys s) (RegExp.source pattern)
                  = true).
  { unfold kept. by rewrite bool_decide_eq_true_2. }
  split.
  - apply set_eq. intros key. rewrite elem_of_dom, elem_of_singleton.
    rewrite ApplyFacts.commit_types, Hkeys. unfold kept.
    case_bool_decide as Heq.
    + subst key. cbn. by split.
    + rewrite bool_decide_eq_false_2 by apply not_elem_of_nil. cbn.
      split; [by intros [? ?]|done].
  - rewrite (ApplyFacts.commit_shown_rendered _ _ _ _ Hinj Hkept Hsrc).
    rewrite (scanOf_options_exact _ _ _ _ _ _ _ Hscan). f_equal.
    unfold underKey. rewrite filter_all.
    + apply list_fmap_ext. intros i m _. unfold optionOf, replaceOf. cbn.
      by rewrite Hnone.
    + intros m _. apply bool_decide_eq_true. unfold keyOf, replaceOf. cbn.
      by rewrite Hnone.
Qed.

Lemma apply_unkeyed_single_type_witness :
  exists r' this' w',
    apply Fixtures.abc (Fixtures.plain (Mask.Literal "x") None)
      (Fixtures.controllerOn "0123456789abc" [Fixtures.caret 0 1] None) Fixtures.lineWindow
    = JS.Returns (r', this', w') /\
    (dom (decorationTypeMap this') = ({[ RegExp.source Fixtures.abc ]} : gset string) /\
     shown this' (RegExp.source Fixtures.abc)
     = Some ((fun m => {| range := matchRange
                                     (document (Fixtures.editorOn "0123456789abc"
                                                  [Fixtures.caret 0 1])) m;
                          hoverMessage := Mask.hover (Fixtures.plain (Mask.Literal "x") None) |})
             <$> decoratedMatches Fixtures.abc (Fixtures.plain (Mask.Literal "x") None)
                   (Fixtures.controllerOn "0123456789abc" [Fixtures.caret 0 1] None)
                   Fixtures.lineWindow
                   (Fixtures.editorOn "0123456789abc" [Fixtures.caret 0 1]))).
Proof.
  eexists _, _, _. split; [vm_compute; reflexivity|].
  eapply (apply_unkeyed_single_type Fixtures.abc _ (Fixtures.plain (Mask.Literal "x") None)
            (Fixtures.controllerOn "0123456789abc" [Fixtures.caret 0 1] None) _
            Fixtures.lineWindow _ (Fixtures.editorOn "0123456789abc" [Fixtures.caret 0 1])).
  - reflexivity.
  - apply MaskControllerFacts.wellFormed_new.
  - done.
  - vm_compute. reflexivity.
Defined.

(** *** No range outside the cache *)

Lemma commit_visible (source : string) (s : Scan) (e e' : TextEditor)
    (type : TextEditorDecorationType) (l : list DecorationOptions) :
  editor (commit source s e) = Some e' ->
  decorations e' !! type = Some l -> l <> [] ->
  (exists key, kept source (matchReplaceKeys s) key = true /\
               decorationTypeMap (MaskController.this s) !! key = Some type) \/
  (decorations e !! type = Some l /\
   forall key, decorationTypeMap (MaskController.this s) !! key = Some type ->
     kept source (matchReplaceKeys s) key = true).
Proof.
  rewrite ApplyFacts.commit_eq. cbn [editor]. intros [= <-]. unfold evicted.
  destruct (CommitFacts.evictLoop_lookup source (matchReplaceKeys s)
              (map_to_list (decorationTypeMap (MaskController.this s))) type
              (decorationTypeMap (MaskController.this s), renderedEditor source s e))
    as [[_ Hlk]|[Hall Hlk]]; rewrite Hlk.
  { by intros [= <-]. }
  cbn [snd]. unfold renderedEditor.
  destruct (CommitFacts.renderLoop_lookup (decorationTypeMap (MaskController.this s))
              (decorationOptions s) [source] type
              (renderLoop (decorationTypeMap (MaskController.this s)) (decorationOptions s)
                 (matchReplaceKeys s) e))
    as [(k & Hin & Hk & _)|[_ Hlk2]].
  { intros _ _. left. exists k. split; [|done].
    apply CommitFacts.kept_spec. left. by apply list_elem_of_singleton in Hin. }
  rewrite Hlk2.
  destruct (CommitFacts.renderLoop_lookup (decorationTypeMap (MaskController.this s))
              (decorationOptions s) (matchReplaceKeys s) type e)
    as [(k & Hin & Hk & _)|[_ Hlk1]].
  { intros _ _. left. exists k. split; [|done]. apply CommitFacts.kept_spec. by right. }
  rewrite Hlk1. intros Hl _. right. split; [done|].
  intros key Hk. apply Hall. by apply elem_of_map_to_list.
Qed.

Lemma apply_tidy (pattern r' : RegExp.t) (mask : Mask.t)
    (this this' : MaskController.t) (w w' : Window) :
  tidy this -> apply pattern mask this w = JS.Returns (r', this', w') -> tidy this'.
Proof.
  intros Htidy Happly. destruct (editor this) as [e|] eqn:He.
  2:{ unfold apply in Happly. rewrite He in Happly. revert Happly. by intros [= <- <- <-]. }
  destruct (ApplyFacts.apply_inv _ _ _ _ _ _ _ _ He Happly) as (s & Hscan & _ & -> & _).
  destruct (ApplyFacts.scanOf_cache _ _ _ _ _ _ Hscan) as (_ & Hmono & _).
  intros e' type l He' Hl Hne.
  destruct (commit_visible _ _ _ _ _ _ He' Hl Hne) as [(key & Hkept & Hk)|[Hl0 Hall]].
  - exists key. by rewrite ApplyFacts.commit_types, Hkept.
  - destruct (Htidy e type l He Hl0 Hne) as [key Hk%Hmono].
    exists key. by rewrite ApplyFacts.commit_types, (Hall key Hk).
Qed.

Lemma apply_cache_keys (pattern r' : RegExp.t) (mask : Mask.t)
    (this this' : MaskController.t) (w w' : Window) (e : TextEditor) (key : string) :
  editor this = Some e ->
  apply pattern mask this w = JS.Returns (r', this', w') ->
  is_Some (decorationTypeMap this' !! key) ->
  keyOfCall (RegExp.source pattern) mask key.
Proof.
  intros He Happly Hkey.
  destruct (ApplyFacts.apply_inv _ _ _ _ _ _ _ _ He Happly) as (s & Hscan & _ & -> & _).
  rewrite ApplyFacts.commit_types in Hkey.
  destruct (kept (RegExp.source pattern) (matchReplaceKeys s) key) eqn:Hkept;
    [|by destruct Hkey].
  apply CommitFacts.kept_spec in Hkept as [->|Hin]; [by left|].
  apply (ApplyFacts.scanOf_keys _ _ _ _ _ _ key Hscan) in Hin as (m & _ & [r Hr] & ->).
  right. unfold keyOf, decorationKeyOf. rewrite Hr.
  unfold keyedReplace, replaceOf in Hr. cbn [siteOf site_mask] in Hr.
  destruct (matchReplaceOf mask (RegExp.matched m)) as [r0|] eqn:Hm; [|done].
  exists (RegExp.matched m), r0.
  destruct (Replace.text r0) as [|ch rest] eqn:Ht; [done|].
  cbn in Hr. revert Hr. intros [= <-]. by rewrite Ht.
Qed.

(** X11. After a call of [apply] the editor shows nothing but the masks
    of this call: when no type outside the cache showed a range before, then
    after a call that returns every type that shows a range is cached, under
    the source of the pattern or under the source, the separator "@@@" and
    the text of an entry of the replacement map; whatever other patterns
    had shown is gone. *)
Theorem apply_shows_only_its_keys (pattern r' : RegExp.t) (mask : Mask.t)
    (this this' : MaskController.t) (w w' : Window) :
  tidy this ->
  apply pattern mask this w = JS.Returns (r', this', w') ->
  tidy this' /\
  forall e' type l,
    editor this' = Some e' -> decorations e' !! type = Some l -> l <> [] ->
    exists key, decorationTypeMap this' !! key = Some type /\
                keyOfCall (RegExp.source pattern) mask key.
Proof.
  intros Htidy Happly. pose proof (apply_tidy _ _ _ _ _ _ _ Htidy Happly) as Htidy'.
  split; [done|]. intros e' type l He' Hl Hne.
  destruct (Htidy' e' type l He' Hl Hne) as [key Hk]. exists key. split; [done|].
  destruct (editor this) as [e|] eqn:He.
  - by apply (apply_cache_keys pattern r' mask this this' w w' e).
  - unfold apply in Happly. rewrite He in Happly. revert Happly. intros [= <- <- <-].
    congruence.
Qed.

Lemma apply_shows_only_its_keys_witness :
  exists r' this' w',
    apply Fixtures.ab (Fixtures.abMask None None) Fixtures.afterAbc Fixtures.afterAbcWindow
    = JS.Returns (r', this', w') /\
    (tidy this' /\
     forall e' type l,
       editor this' = Some e' -> decorations e' !! type = Some l -> l <> [] ->
       exists key, decorationTypeMap this' !! key = Some type /\
                   keyOfCall (RegExp.source Fixtures.ab) (Fixtures.abMask None None) key).
Proof.
  eexists _, _, _. split; [vm_compute; reflexivity|].
  eapply (apply_shows_only_its_keys Fixtures.ab _ (Fixtures.abMask None None)
            Fixtures.afterAbc _ Fixtures.afterAbcWindow _).
  - intros e type l [= <-] Hl. cbn [Fixtures.editorOnA Fixtures.editorOn decorations] in Hl.
    by rewrite lookup_empty in Hl.
  - vm_compute. reflexivity.
Defined.

End ShownFacts.

(** ** The decision and the scan, on every input *)

Module ScanOrderFacts.
Import Vscode MaskController Notions PassNotions.

(** *** A call that does not raise *)

Lemma positionFrom_line (s : string) :
  forall n : nat, ((positionFrom s n).1 < List.length (splitLines s))%nat.
Proof.
  induction s as [|c s IH]; intros n.
  - destruct n; cbn; lia.
  - destruct n as [|n]; cbn [positionFrom splitLines].
    + destruct (isNewline c); cbn; [lia|]. destruct (splitLines s); cbn; lia.
    + specialize (IH n). destruct (positionFrom s n) as [l ch]. cbn [fst] in IH.
      destruct (isNewline c); cbn [fst].
      * cbn. lia.
      * destruct (splitLines s) as [|x xs]; [cbn in IH; lia|].
        destruct l; cbn in *; lia.
Qed.

Lemma positionAt_line (d : TextDocument) (offset : Z) :
  0 <= line (positionAt d offset) < lineCount d.
Proof.
  unfold positionAt, lineCount.
  pose proof (positionFrom_line (getText d) (Z.to_nat offset)) as Hlt.
  destruct (positionFrom (getText d) (Z.to_nat offset)) as [l ch]. cbn in *. lia.
Qed.

Lemma scopeBlock_returns (c : Site) (matchReplace : option Replace.t) (offset : Z)
    (decorateSymbol : bool) :
  covered c ->
  exists b, scopeBlock c matchReplace (positionAt (site_document c) offset) decorateSymbol
            = JS.Returns b.
Proof.
  intros Hcov. unfold scopeBlock.
  destruct (_ || _); [|eauto].
  destruct (site_scopedDocument c) as [sd|] eqn:Hsd; [|eauto].
  unfold ScopedDocument.getTokens. cbn [lineAtPosition lineNumber].
  destruct (ScopedDocument.grammar sd) as [g|]; [|eauto].
  destruct (ScopedDocument.document sd) as [d|] eqn:Hd; [|eauto].
  pose proof (positionAt_line (site_document c) offset) as Hline.
  specialize (Hcov sd d Hsd Hd).
  destruct (ScopedDocumentFacts.lineAt_is_Some d
              (line (positionAt (site_document c) offset))) as [_ Hsome].
  destruct Hsome as [ln ->]; [lia|]. eauto.
Qed.

Lemma selectionsLoop_returns (c : Site) (m : RegExp.ExecArray)
    (matchReplace : option Replace.t) (offset : Z) (sels : list Selection) :
  covered c ->
  forall decorateSymbol,
    exists b, selectionsLoop c m matchReplace (positionAt (site_document c) offset)
                sels decorateSymbol = JS.Returns b.
Proof.
  intros Hcov. induction sels as [|selection rest IH]; intros d; [cbn; eauto|].
  rewrite DecisionFacts.selectionsLoop_step.
  destruct (revealedBy c m selection); [eauto|].
  destruct d; [apply IH|].
  destruct (scopeBlock_returns c matchReplace offset false Hcov) as [b ->]. apply IH.
Qed.

Lemma scan_returns (c : Site) (sels : list Selection) (text : string) :
  covered c -> forall fuel s, scan fuel c sels text s <> JS.Throws.
Proof.
  intros Hcov. induction fuel as [|fuel IH]; intros s; [done|].
  cbn [scan]. destruct (RegExp.exec (pattern s) text) as [[m|] r]; [|done].
  destruct (JS.length (RegExp.matched m) =? 0); [done|].
  unfold decorateSymbolOf.
  destruct (selectionsLoop_returns c m (matchReplaceOf (site_mask c) (RegExp.matched m))
              (RegExp.index m) sels Hcov false) as [b ->].
  destruct b; apply IH.
Qed.

(** X12. [apply] does not raise when the scoped document follows the
    editor: on an editor, when the document that the scoped document holds
    (if there is a scoped document, and a document in it) has at least the
    lines of the editor's document, as it has when both are the same
    document, the call returns, whatever the pattern, the mask, the
    grammar and the selections. *)
Theorem apply_returns_on_covered_lines (pattern : RegExp.t) (mask : Mask.t)
    (this : MaskController.t) (w : Window) (e : TextEditor) :
  editor this = Some e ->
  (forall sd d,
     scopedDocument this = Some sd -> ScopedDocument.document sd = Some d ->
     lineCount (document e) <= lineCount d) ->
  exists r' this' w', apply pattern mask this w = JS.Returns (r', this', w').
Proof.
  intros He Hcov. unfold apply. rewrite He.
  destruct (scanOf pattern mask this w e) as [s| |] eqn:Hscan; [eauto| |]; exfalso.
  - revert Hscan. unfold scanOf.
    destruct (initialize (RegExp.source pattern) mask this w) as [this1 w1].
    apply scan_returns. exact Hcov.
  - revert Hscan. unfold scanOf.
    destruct (initialize (RegExp.source pattern) mask this w) as [this1 w1].
    apply ScanFacts.scan_fuel. apply ScanFacts.remaining_scanFuel.
Qed.

Lemma apply_returns_on_covered_lines_witness :
  exists r' this' w',
    apply Fixtures.ab Fixtures.operatorMask Fixtures.scopedOnA Fixtures.lineWindow
    = JS.Returns (r', this', w').
Proof.
  apply (apply_returns_on_covered_lines Fixtures.ab Fixtures.operatorMask
           Fixtures.scopedOnA Fixtures.lineWindow Fixtures.editorOnA).
  - reflexivity.
  - intros sd d Hsd Hd. revert Hsd. intros [= <-]. revert Hd. intros [= <-].
    vm_compute. discriminate.
Defined.

(** A scoped document that was left on a shorter document makes the same
    call raise: the match on the second line of the editor asks for the
    tokens of a line that the scoped document does not have. *)
Example apply_raises_on_stale_document :
  apply Fixtures.ab Fixtures.operatorMask
    (MaskController.new (Some (Fixtures.editorOn "zz
a  " [Fixtures.caret 0 0]))
       (Some (ScopedDocument.new (Some {| getText := "zz" |})
                (Some (Fixtures.flatGrammar ["keyword.operator"])))))
    Fixtures.lineWindow
  = JS.Throws.
Proof. vm_compute. reflexivity. Qed.

(** *** The selections as a set *)

(** X13. The decision for a match depends on the selections as a set:
    for two lists with the same selections, in any order and with any
    repetitions, the loop over the selections ends with
    [decorateSymbol = true] for the one exactly when it does for the other. *)
Theorem decision_ignores_order (c : Site) (sels1 sels2 : list Selection)
    (m : RegExp.ExecArray) :
  (forall selection, selection ∈ sels1 <-> selection ∈ sels2) ->
  isDecorated c sels1 m = isDecorated c sels2 m.
Proof.
  intros Hsame.
  assert (Hiff : forall sels sels', (forall selection, selection ∈ sels <-> selection ∈ sels') ->
            decorateSymbolOf c sels m = JS.Returns true ->
            decorateSymbolOf c sels' m = JS.Returns true).
  { intros sels sels' Hs [Hall [Hne Hscope]]%DecisionFacts.decorateSymbolOf_true.
    apply DecisionFacts.decorateSymbolOf_true. split_and!; [|  |done].
    - intros selection Hin%Hs. by apply Hall.
    - destruct sels as [|x xs]; [done|]. intros ->.
      assert (x ∈ @nil Selection) as Hx%elem_of_nil by (apply Hs; left). done. }
  unfold isDecorated.
  destruct (decorateSymbolOf c sels1 m) as [[|]| |] eqn:H1.
  - by rewrite (Hiff sels1 sels2 Hsame H1).
  - destruct (decorateSymbolOf c sels2 m) as [[|]| |] eqn:H2; try done.
    assert (forall selection, selection ∈ sels2 <-> selection ∈ sels1) as Hsym
      by (intros selection; by rewrite Hsame).
    by rewrite (Hiff sels2 sels1 Hsym H2) in H1.
  - destruct (decorateSymbolOf c sels2 m) as [[|]| |] eqn:H2; try done.
    assert (forall selection, selection ∈ sels2 <-> selection ∈ sels1) as Hsym
      by (intros selection; by rewrite Hsame).
    by rewrite (Hiff sels2 sels1 Hsym H2) in H1.
  - destruct (decorateSymbolOf c sels2 m) as [[|]| |] eqn:H2; try done.
    assert (forall selection, selection ∈ sels2 <-> selection ∈ sels1) as Hsym
      by (intros selection; by rewrite Hsame).
    by rewrite (Hiff sels2 sels1 Hsym H2) in H1.
Qed.

Lemma decision_ignores_order_witness :
  isDecorated (siteOf Fixtures.operatorMask Fixtures.scopedOnA Fixtures.lineWindow
                 Fixtures.editorOnA)
    [Fixtures.caret 0 3; Fixtures.caret 0 2] Fixtures.aAt0
  = isDecorated (siteOf Fixtures.operatorMask Fixtures.scopedOnA Fixtures.lineWindow
                   Fixtures.editorOnA)
      [Fixtures.caret 0 2; Fixtures.caret 0 3; Fixtures.caret 0 2] Fixtures.aAt0.
Proof.
  apply (decision_ignores_order
           (siteOf Fixtures.operatorMask Fixtures.scopedOnA Fixtures.lineWindow
              Fixtures.editorOnA)
           [Fixtures.caret 0 3; Fixtures.caret 0 2]
           [Fixtures.caret 0 2; Fixtures.caret 0 3; Fixtures.caret 0 2] Fixtures.aAt0).
  intros selection. rewrite !elem_of_cons, !elem_of_nil. tauto.
Defined.

(** *** A selection made backwards *)

Lemma selectionOffsets_reversed (d : TextDocument) (selection : Selection) :
  selectionOffsets d (reversed selection) = selectionOffsets d selection.
Proof.
  unfold selectionOffsets, reversed. cbn [sel_start sel_end].
  destruct (offsetAt d (sel_end selection) <? offsetAt d (sel_start selection)) eqn:H1;
    destruct (offsetAt d (sel_start selection) <? offsetAt d (sel_end selection)) eqn:H2;
    try done; [lia|].
  f_equal; lia.
Qed.

(** X14. The two ends of a selection are put in order before they are
    compared with a match: a list of selections with the ends of any of
    them exchanged gives, for every match, the same result of the loop over
    the selections, so the direction in which a selection was made does not
    matter. *)
Theorem reversed_selections_same (c : Site) (sels : list Selection) (m : RegExp.ExecArray)
    (flip : Selection -> bool) :
  decorateSymbolOf c
    ((fun selection => if flip selection then reversed selection else selection) <$> sels) m
  = decorateSymbolOf c sels m.
Proof.
  unfold decorateSymbolOf. generalize false as d.
  induction sels as [|selection rest IH]; intros d; [done|].
  cbn [fmap list_fmap]. rewrite !DecisionFacts.selectionsLoop_step.
  assert (Hrev : revealedBy c m (if flip selection then reversed selection else selection)
                 = revealedBy c m selection).
  { unfold revealedBy. destruct (flip selection); [|done].
    by rewrite selectionOffsets_reversed. }
  rewrite Hrev. destruct (revealedBy c m selection); [done|].
  destruct d; [apply IH|].
  destruct (scopeBlock c _ _ false) as [b| |]; [apply IH|done|done].
Qed.

(** *** The matches, one after the other *)

Lemma take_length (n : nat) (s : string) : (String.length (JS.take n s) <= n)%nat.
Proof.
  revert s. induction n as [|n IH]; intros [|ch s]; cbn; try lia.
  specialize (IH s). lia.
Qed.

Lemma take_drop_length (n k : nat) (s : string) :
  (k <= String.length s)%nat ->
  (k + String.length (JS.take n (JS.drop k s)) <= String.length s)%nat.
Proof.
  revert s. induction k as [|k IH]; intros s Hk.
  - cbn [JS.drop]. revert s Hk. induction n as [|n IHn]; intros [|ch s] Hk; cbn; try lia.
    specialize (IHn s). lia.
  - destruct s as [|ch s]; cbn in *; [lia|]. specialize (IH s). lia.
Qed.

Lemma scanned_shape (text : string) (fuel : nat) :
  forall r m, m ∈ scanned fuel r text ->
    0 <= RegExp.index m /\ RegExp.index m < matchEnd m /\ matchEnd m <= JS.length text.
Proof.
  induction fuel as [|fuel IH]; intros r m; cbn [scanned]; [by intros ?%elem_of_nil|].
  destruct (RegExp.exec r text) as [[m0|] r'] eqn:Hexec; [|by intros ?%elem_of_nil].
  destruct (JS.length (RegExp.matched m0) =? 0) eqn:Hlen; [by intros ?%elem_of_nil|].
  intros [->|Hin]%elem_of_cons; [|by apply (IH r')].
  destruct (ScanFacts.exec_Some _ _ _ _ Hexec) as (Hidx & len & Hm & _).
  unfold matchEnd, JS.length in *. split_and!; [lia|lia|].
  rewrite Hm. unfold JS.slice.
  pose proof (take_drop_length len (Z.to_nat (RegExp.index m0)) text). lia.
Qed.

Lemma scanned_ordered (text : string) (fuel : nat) :
  forall r (i j : nat) m1 m2,
    (i < j)%nat ->
    scanned fuel r text !! i = Some m1 -> scanned fuel r text !! j = Some m2 ->
    matchEnd m1 <= RegExp.index m2.
Proof.
  induction fuel as [|fuel IH]; intros r i j m1 m2 Hij; cbn [scanned]; [done|].
  destruct (RegExp.exec r text) as [[m0|] r'] eqn:Hexec; [|done].
  destruct (JS.length (RegExp.matched m0) =? 0) eqn:Hlen; [done|].
  destruct j as [|j]; [lia|]. destruct i as [|i].
  - cbn. intros [= <-] Hj.
    apply list_elem_of_lookup_2 in Hj. apply ScanFacts.scanned_bounds in Hj.
    destruct (ScanFacts.exec_Some _ _ _ _ Hexec) as (_ & len & Hm & ->).
    cbn [RegExp.setLastIndex RegExp.lastIndex] in Hj.
    unfold matchEnd. rewrite Hm. unfold JS.slice, JS.length.
    pose proof (take_length len (JS.drop (Z.to_nat (RegExp.index m0)) text)). lia.
  - cbn. apply IH. lia.
Qed.

(** X15. The ranges that [apply] shows do not overlap. Every match that
    the scan of [apply] goes through is not empty and inside the text, and
    it ends before the next one starts; and after a call on an editor, every
    option shown for a key of the cache is the range of a decorated match,
    and two such options are one and the same, or the match of the one ends
    at or before the start of the match of the other. *)
Theorem shown_ranges_do_not_overlap (pattern r' : RegExp.t) (mask : Mask.t)
    (this this' : MaskController.t) (w w' : Window) (e : TextEditor) :
  editor this = Some e ->
  apply pattern mask this w = JS.Returns (r', this', w') ->
  (forall m, m ∈ matchesOf pattern e ->
     0 <= RegExp.index m /\ RegExp.index m < matchEnd m /\
     matchEnd m <= JS.length (getText (document e))) /\
  (forall (i j : nat) m1 m2,
     (i < j)%nat ->
     matchesOf pattern e !! i = Some m1 -> matchesOf pattern e !! j = Some m2 ->
     matchEnd m1 <= RegExp.index m2) /\
  (forall key1 key2 l1 l2 o1 o2,
     shown this' key1 = Some l1 -> o1 ∈ l1 ->
     shown this' key2 = Some l2 -> o2 ∈ l2 ->
     exists m1 m2,
       m1 ∈ decoratedMatches pattern mask this w e /\
       m2 ∈ decoratedMatches pattern mask this w e /\
       range o1 = matchRange (document e) m1 /\
       range o2 = matchRange (document e) m2 /\
       (o1 = o2 \/ matchEnd m1 <= RegExp.index m2 \/ matchEnd m2 <= RegExp.index m1)).
Proof.
  intros He Happly. split_and!.
  - intros m Hm. by apply (scanned_shape _ _ _ _ Hm).
  - intros i j m1 m2 Hij H1 H2. by apply (scanned_ordered _ _ _ _ _ _ _ Hij H1 H2).
  - destruct (ApplyFacts.apply_inv _ _ _ _ _ _ _ _ He Happly) as (s & Hscan & _ & -> & _).
    assert (Hshown : forall key l o,
              shown (commit (RegExp.source pattern) s e) key = Some l -> o ∈ l ->
              exists m, m ∈ decoratedMatches pattern mask this w e /\
                        o = optionOf (siteOf mask this w e) m).
    { intros key l o Hl Ho.
      destruct (ApplyFacts.commit_shown_sound _ _ _ _ _ _ Hl Ho) as [key' Hopt].
      destruct (ApplyFacts.scanOf_options_sound _ _ _ _ _ _ _ _ Hscan Hopt)
        as (m & Hm & -> & _).
      by exists m. }
    intros key1 key2 l1 l2 o1 o2 Hl1 Ho1 Hl2 Ho2.
    destruct (Hshown _ _ _ Hl1 Ho1) as (m1 & Hm1 & ->).
    destruct (Hshown _ _ _ Hl2 Ho2) as (m2 & Hm2 & ->).
    exists m1, m2. split_and!; try done.
    pose proof Hm1 as [Hs1 _]%ApplyFacts.decoratedMatches_spec.
    pose proof Hm2 as [Hs2 _]%ApplyFacts.decoratedMatches_spec.
    apply list_elem_of_lookup_1 in Hs1 as [i Hi].
    apply list_elem_of_lookup_1 in Hs2 as [j Hj].
    destruct (Nat.lt_total i j) as [Hlt|[Heq|Hgt]].
    + right. left. by apply (scanned_ordered _ _ _ _ _ _ _ Hlt Hi Hj).
    + left. subst j. rewrite Hi in Hj. by revert Hj; intros [= ->].
    + right. right. by apply (scanned_ordered _ _ _ _ _ _ _ Hgt Hj Hi).
Qed.

Lemma shown_ranges_do_not_overlap_witness :
  exists r' this' w',
    apply Fixtures.ab (Fixtures.abMask None None)
      (Fixtures.controllerOn "a b  " [Fixtures.caret 0 5] None) Fixtures.lineWindow
    = JS.Returns (r', this', w') /\
    ((forall m, m ∈ matchesOf Fixtures.ab (Fixtures.editorOn "a b  " [Fixtures.caret 0 5]) ->
        0 <= RegExp.index m /\ RegExp.index m < matchEnd m /\
        matchEnd m
        <= JS.length (getText (document (Fixtures.editorOn "a b  " [Fixtures.caret 0 5])))) /\
     (forall (i j : nat) m1 m2,
        (i < j)%nat ->
        matchesOf Fixtures.ab (Fixtures.editorOn "a b  " [Fixtures.caret 0 5]) !! i = Some m1 ->
        matchesOf Fixtures.ab (Fixtures.editorOn "a b  " [Fixtures.caret 0 5]) !! j = Some m2 ->
        matchEnd m1 <= RegExp.index m2) /\
     (forall key1 key2 l1 l2 o1 o2,
        shown this' key1 = Some l1 -> o1 ∈ l1 ->
        shown this' key2 = Some l2 -> o2 ∈ l2 ->
        exists m1 m2,
          m1 ∈ decoratedMatches Fixtures.ab (Fixtures.abMask None None)
                 (Fixtures.controllerOn "a b  " [Fixtures.caret 0 5] None)
                 Fixtures.lineWindow (Fixtures.editorOn "a b  " [Fixtures.caret 0 5]) /\
          m2 ∈ decoratedMatches Fixtures.ab (Fixtures.abMask None None)
                 (Fixtures.controllerOn "a b  " [Fixtures.caret 0 5] None)
                 Fixtures.lineWindow (Fixtures.editorOn "a b  " [Fixtures.caret 0 5]) /\
          range o1
          = matchRange (document (Fixtures.editorOn "a b  " [Fixtures.caret 0 5])) m1 /\
          range o2
          = matchRange (document (Fixtures.editorOn "a b  " [Fixtures.caret 0 5])) m2 /\
          (o1 = o2 \/ matchEnd m1 <= RegExp.index m2 \/ matchEnd m2 <= RegExp.index m1))).
Proof.
  eexists _, _, _. split; [vm_compute; reflexivity|].
  eapply (shown_ranges_do_not_overlap Fixtures.ab _ (Fixtures.abMask None None)
            (Fixtures.controllerOn "a b  " [Fixtures.caret 0 5] None) _
            Fixtures.lineWindow _ (Fixtures.editorOn "a b  " [Fixtures.caret 0 5])).
  - reflexivity.
  - vm_compute. reflexivity.
Defined.

(** The two matches of [/(a|b)/g] in "a b  " are both shown, each under
    the key of its replacement. *)
Example two_ranges_shown :
  exists r' this' w',
    apply Fixtures.ab (Fixtures.abMask None None)
      (Fixtures.controllerOn "a b  " [Fixtures.caret 0 5] None) Fixtures.lineWindow
    = JS.Returns (r', this', w') /\
    (List.length <$> shown this' "(a|b)@@@x") = Some 1%nat /\
    (List.length <$> shown this' "(a|b)@@@y") = Some 1%nat.
Proof. eexists _, _, _. split_and!; vm_compute; reflexivity. Qed.

End ScanOrderFacts.

(** ** A pass of [updateMasks] *)

Module PassFacts.
Import Vscode MaskController Extension Notions PassNotions.

Lemma patternsLoop_app (h : Host) (ps qs : list Pattern) :
  forall this w,
    patternsLoop h (ps ++ qs) this w
    = match patternsLoop h ps this w with
      | Completed this1 w1 => patternsLoop h qs this1 w1
      | Caught state => Caught state
      end.
Proof.
  induction ps as [|p ps IH]; intros this w; [done|].
  cbn [app patternsLoop]. destruct (regexOf h p) as [regex|]; [|done].
  destruct (apply regex (maskOf p) this w) as [[[r' this1] w1]| |]; [apply IH|done|done].
Qed.

Lemma masksLoop_selected (h : Host) (document : TextDocument) (userMasks : list UserMask) :
  forall this w,
    masksLoop h document userMasks this w
    = patternsLoop h (selected h document userMasks) this w.
Proof.
  induction userMasks as [|mask rest IH]; intros this w; [done|].
  unfold selected in *. cbn [masksLoop flat_map].
  destruct (languagesMatch h (language mask) document >? 0).
  - rewrite patternsLoop_app.
    destruct (patternsLoop h (patterns mask) this w); [apply IH|done].
  - apply IH.
Qed.

Lemma apply_editor (pattern r' : RegExp.t) (mask : Mask.t)
    (this this' : MaskController.t) (w w' : Window) (e : TextEditor) :
  editor this = Some e ->
  apply pattern mask this w = JS.Returns (r', this', w') ->
  exists e', editor this' = Some e' /\
             document e' = document e /\ selections e' = selections e.
Proof.
  intros He Happly.
  destruct (ApplyFacts.apply_inv _ _ _ _ _ _ _ _ He Happly) as (s & _ & _ & -> & _).
  by destruct (ApplyFacts.commit_frame (RegExp.source pattern) s e) as (_ & Hed).
Qed.

Lemma apply_window (pattern r' : RegExp.t) (mask : Mask.t)
    (this this' : MaskController.t) (w w' : Window) :
  apply pattern mask this w = JS.Returns (r', this', w') ->
  (List.length (decorationTypes w) <= List.length (decorationTypes w'))%nat /\
  (is_Some (editor this) -> decorationTypeMap this !! RegExp.source pattern = None ->
   (List.length (decorationTypes w) < List.length (decorationTypes w'))%nat).
Proof.
  intros Happly. destruct (editor this) as [e|] eqn:He.
  2:{ unfold apply in Happly. rewrite He in Happly. revert Happly. intros [= <- <- <-].
      split; [done|]. by intros [? ?]. }
  destruct (ApplyFacts.apply_inv _ _ _ _ _ _ _ _ He Happly) as (s & Hscan & _ & _ & ->).
  destruct (ApplyFacts.scanOf_inv _ _ _ _ _ _ Hscan) as [_ ->].
  cbn [setPattern window].
  destruct (CacheFacts.decorateAll_types (siteOf mask this w e)
              (decoratedMatches pattern mask this w e) (scanStart pattern mask this w))
    as [added ->].
  cbn [scanStart window]. rewrite CacheFacts.initialize_types, !length_app.
  split; [lia|]. intros _ ->. cbn. lia.
Qed.

Lemma patternsLoop_invariant (h : Host) (ps : list Pattern) :
  forall this w this' w',
    patternsLoop h ps this w = Completed this' w' ->
    (tidy this -> tidy this') /\
    (wellFormed this w -> wellFormed this' w') /\
    (forall e, editor this = Some e ->
       exists e', editor this' = Some e' /\
                  document e' = document e /\ selections e' = selections e) /\
    (List.length (decorationTypes w) <= List.length (decorationTypes w'))%nat.
Proof.
  induction ps as [|p ps IH]; intros this w this' w'.
  - intros [= <- <-]. split_and!; eauto.
  - cbn [patternsLoop]. destruct (regexOf h p) as [regex|]; [|done].
    destruct (apply regex (maskOf p) this w) as [[[r1 this1] w1]| |] eqn:Happly;
      [|done|done].
    intros (Htidy & Hwf & Hed & Hlen)%IH.
    pose proof (apply_window _ _ _ _ _ _ _ Happly) as [Hlen1 _].
    split_and!.
    + intros H. by apply Htidy, (ShownFacts.apply_tidy _ _ _ _ _ _ _ H Happly).
    + intros H. by apply Hwf, (MaskControllerFacts.wellFormed_apply _ _ _ _ _ _ _ H Happly).
    + intros e He. destruct (apply_editor _ _ _ _ _ _ _ _ He Happly) as (e1 & He1 & <- & <-).
      by apply Hed.
    + lia.
Qed.

Lemma apply_site (pattern r' : RegExp.t) (mask : Mask.t)
    (this this' : MaskController.t) (w w' : Window) :
  apply pattern mask this w = JS.Returns (r', this', w') ->
  scopedDocument this' = scopedDocument this /\ cursorStyle w' = cursorStyle w.
Proof.
  intros Happly. destruct (editor this) as [e|] eqn:He.
  - destruct (ApplyFacts.apply_inv _ _ _ _ _ _ _ _ He Happly) as (s & Hscan & _ & -> & ->).
    destruct (ApplyFacts.scanOf_cache _ _ _ _ _ _ Hscan) as (_ & _ & _ & Hsd & _ & Hcs & _).
    destruct (ApplyFacts.commit_frame (RegExp.source pattern) s e) as (Hsd' & _).
    split; congruence.
  - unfold apply in Happly. rewrite He in Happly. revert Happly. by intros [= <- <- <-].
Qed.

Lemma patternsLoop_site (h : Host) (ps : list Pattern) :
  forall this w this' w',
    patternsLoop h ps this w = Completed this' w' ->
    scopedDocument this' = scopedDocument this /\ cursorStyle w' = cursorStyle w.
Proof.
  induction ps as [|p ps IH]; intros this w this' w'.
  - by intros [= <- <-].
  - cbn [patternsLoop]. destruct (regexOf h p) as [regex|]; [|done].
    destruct (apply regex (maskOf p) this w) as [[[r1 this1] w1]| |] eqn:Happly;
      [|done|done].
    intros [Hsd Hcs]%IH. destruct (apply_site _ _ _ _ _ _ _ Happly) as [Hsd1 Hcs1].
    split; congruence.
Qed.

Lemma decoratedMatches_site (pattern : RegExp.t) (mask : Mask.t)
    (this this1 : MaskController.t) (w w1 : Window) (e e1 : TextEditor) :
  scopedDocument this1 = scopedDocument this -> cursorStyle w1 = cursorStyle w ->
  document e1 = document e -> selections e1 = selections e ->
  siteOf mask this1 w1 e1 = siteOf mask this w e /\
  decoratedMatches pattern mask this1 w1 e1 = decoratedMatches pattern mask this w e.
Proof.
  intros Hsd Hcs Hdoc Hsel.
  assert (Hsite : siteOf mask this1 w1 e1 = siteOf mask this w e).
  { unfold siteOf. by rewrite Hsd, Hcs, Hdoc. }
  split; [done|]. unfold decoratedMatches, matchesOf. by rewrite Hsite, Hsel, Hdoc.
Qed.

(** X16. The ranges of the last pattern win: every call of [apply]
    clears the keys that are not its own, so after a pass of [updateMasks]
    that goes through at least one pattern and reaches its end, on an editor
    that showed no range outside the cache and a cache with one created
    type per key, the cache holds keys of the last pattern of the pass only,
    every type that shows a range is cached under such a key, and each
    cached key shows exactly the ranges of the decorated matches of the last
    pattern that are grouped under it: no range is shown for a pattern
    before the last one. (The type of a key that the pattern before the
    last one had cached too is the type that was created for it then.) *)
Theorem updateMasks_shows_last_pattern (h : Host) (userMasks : list UserMask)
    (sd : ScopedDocument.t) (document : TextDocument)
    (this this' : MaskController.t) (w w' : Window)
    (ps : list Pattern) (p : Pattern) (e : TextEditor) :
  ScopedDocument.getDocument sd = Some document ->
  selected h document userMasks = ps ++ [p] ->
  editor this = Some e ->
  tidy this ->
  wellFormed this w ->
  updateMasks h userMasks sd this w = Completed this' w' ->
  exists regex e',
    regexOf h p = Some regex /\ editor this' = Some e' /\
    (forall key, is_Some (decorationTypeMap this' !! key) ->
       keyOfCall (RegExp.source regex) (maskOf p) key) /\
    (forall type l, decorations e' !! type = Some l -> l <> [] ->
       exists key, decorationTypeMap this' !! key = Some type /\
                   keyOfCall (RegExp.source regex) (maskOf p) key) /\
    (forall key, is_Some (decorationTypeMap this' !! key) ->
       shown this' key
       = Some (optionOf (siteOf (maskOf p) this w e)
               <$> underKey (RegExp.source regex) (siteOf (maskOf p) this w e) key
                     (decoratedMatches regex (maskOf p) this w e))).
Proof.
  intros Hdoc Hsel He Htidy Hwf. unfold updateMasks. rewrite Hdoc.
  rewrite masksLoop_selected, Hsel, patternsLoop_app.
  destruct (patternsLoop h ps this w) as [this1 w1|] eqn:Hps; [|done].
  destruct (patternsLoop_invariant _ _ _ _ _ _ Hps) as (Htidy1 & Hwf1 & Hed1 & _).
  destruct (patternsLoop_site _ _ _ _ _ _ Hps) as [Hsd1 Hcs1].
  destruct (Hed1 e He) as (e1 & He1 & Hdoc1 & Hsel1).
  specialize (Htidy1 Htidy). specialize (Hwf1 Hwf).
  cbn [patternsLoop]. destruct (regexOf h p) as [regex|]; [|done].
  destruct (apply regex (maskOf p) this1 w1) as [[[r2 this2] w2]| |] eqn:Happly;
    [|done|done].
  intros [= <- <-].
  destruct (apply_editor _ _ _ _ _ _ _ _ He1 Happly) as (e2 & He2 & _ & _).
  pose proof (ShownFacts.apply_tidy _ _ _ _ _ _ _ Htidy1 Happly) as Htidy2.
  exists regex, e2. split_and!; try done.
  - intros key Hkey. by apply (ShownFacts.apply_cache_keys regex r2 _ this1 this2 w1 w2 e1).
  - intros type l Hl Hne. destruct (Htidy2 e2 type l He2 Hl Hne) as [key Hk].
    exists key. split; [done|].
    by apply (ShownFacts.apply_cache_keys regex r2 _ this1 this2 w1 w2 e1).
  - intros key Hkey.
    destruct (decoratedMatches_site regex (maskOf p) this this1 w w1 e e1
                Hsd1 Hcs1 Hdoc1 Hsel1) as [<- <-].
    destruct (ApplyFacts.apply_inv _ _ _ _ _ _ _ _ He1 Happly) as (s & Hscan & _ & -> & _).
    destruct (ApplyFacts.scanOf_cache _ _ _ _ _ _ Hscan)
      as (_ & _ & _ & _ & _ & _ & Hwf').
    destruct (Hwf' Hwf1) as [_ Hinj].
    rewrite ApplyFacts.commit_types in Hkey.
    destruct (kept (RegExp.source regex) (matchReplaceKeys s) key) eqn:Hkept;
      [|by destruct Hkey].
    rewrite (ApplyFacts.commit_shown_rendered _ _ _ _ Hinj Hkept Hkey).
    by rewrite (ShownFacts.scanOf_options_exact _ _ _ _ _ _ key Hscan).
Qed.

Lemma updateMasks_shows_last_pattern_witness :
  exists this' w',
    updateMasks PassFixtures.literalHost PassFixtures.userMasks PassFixtures.scopedABc
      PassFixtures.onABc Fixtures.lineWindow = Completed this' w' /\
    exists regex e',
      regexOf PassFixtures.literalHost (PassFixtures.literalPattern "bc" "z") = Some regex /\
      editor this' = Some e' /\
      (forall key, is_Some (decorationTypeMap this' !! key) ->
         keyOfCall (RegExp.source regex)
           (maskOf (PassFixtures.literalPattern "bc" "z")) key) /\
      (forall type l, decorations e' !! type = Some l -> l <> [] ->
         exists key, decorationTypeMap this' !! key = Some type /\
                     keyOfCall (RegExp.source regex)
                       (maskOf (PassFixtures.literalPattern "bc" "z")) key) /\
      (forall key, is_Some (decorationTypeMap this' !! key) ->
         shown this' key
         = Some (optionOf (siteOf (maskOf (PassFixtures.literalPattern "bc" "z"))
                             PassFixtures.onABc Fixtures.lineWindow
                             (Fixtures.editorOn "a bc  " [Fixtures.caret 0 6]))
                 <$> underKey (RegExp.source regex)
                       (siteOf (maskOf (PassFixtures.literalPattern "bc" "z"))
                          PassFixtures.onABc Fixtures.lineWindow
                          (Fixtures.editorOn "a bc  " [Fixtures.caret 0 6])) key
                       (decoratedMatches regex (maskOf (PassFixtures.literalPattern "bc" "z"))
                          PassFixtures.onABc Fixtures.lineWindow
                          (Fixtures.editorOn "a bc  " [Fixtures.caret 0 6])))).
Proof.
  eexists _, _. split; [vm_compute; reflexivity|].
  eapply (updateMasks_shows_last_pattern PassFixtures.literalHost PassFixtures.userMasks
            PassFixtures.scopedABc {| getText := "a bc  " |}
            PassFixtures.onABc _ Fixtures.lineWindow _
            [PassFixtures.literalPattern "a" "x"] (PassFixtures.literalPattern "bc" "z")
            (Fixtures.editorOn "a bc  " [Fixtures.caret 0 6])).
  - reflexivity.
  - reflexivity.
  - reflexivity.
  - intros e type l [= <-] Hl. cbn [Fixtures.editorOn decorations] in Hl.
    by rewrite lookup_empty in Hl.
  - apply MaskControllerFacts.wellFormed_new.
  - vm_compute. reflexivity.
Defined.

(** Two patterns with one source: [a] with the text "first", then [a]
    with the text "last". At the end of the pass the key of the source
    shows the match, on the type that was created for the first of the two,
    which has the text "first". *)
Example same_source_keeps_first_type :
  exists this' w' e',
    updateMasks PassFixtures.literalHost
      [ {| language := "typescript";
           patterns := [PassFixtures.literalPattern "a" "first";
                        PassFixtures.literalPattern "a" "last"] |} ]
      PassFixtures.scopedABc PassFixtures.onABc Fixtures.lineWindow = Completed this' w' /\
    editor this' = Some e' /\
    decorationTypeMap this' = {[ "a" := 0%nat ]} /\
    (List.length <$> decorations e' !! 0%nat) = Some 1%nat /\
    (contentText ∘ before <$> decorationTypes w') = [Some "first"].
Proof. eexists _, _, _. split_and!; vm_compute; reflexivity. Qed.

(** The pass of the two patterns [a] and [bc] on "a bc": at its end the
    cache has the key of [bc] only; the type of [a], the first that was
    created, shows nothing, and the type of [bc] shows its one match. *)
Example last_pattern_wins :
  exists this' w' e',
    updateMasks PassFixtures.literalHost PassFixtures.userMasks PassFixtures.scopedABc
      PassFixtures.onABc Fixtures.lineWindow = Completed this' w' /\
    editor this' = Some e' /\
    decorationTypeMap this' = {[ "bc" := 1%nat ]} /\
    decorations e' !! 0%nat = Some [] /\
    (List.length <$> decorations e' !! 1%nat) = Some 1%nat.
Proof. eexists _, _, _. split_and!; vm_compute; reflexivity. Qed.

(** X17. One [try] goes round the whole pass: a pattern that [new RegExp]
    refuses ends the pass in the [catch], with the controller and the
    window as the patterns before it left them; the patterns after it are
    not applied, whatever they are. *)
Theorem updateMasks_stops_at_invalid_pattern (h : Host) (userMasks : list UserMask)
    (sd : ScopedDocument.t) (document : TextDocument)
    (this this1 : MaskController.t) (w w1 : Window)
    (ps rest : list Pattern) (p : Pattern) :
  ScopedDocument.getDocument sd = Some document ->
  selected h document userMasks = ps ++ p :: rest ->
  patternsLoop h ps this w = Completed this1 w1 ->
  regexOf h p = None ->
  updateMasks h userMasks sd this w = Caught (Some (this1, w1)).
Proof.
  intros Hdoc Hsel Hps Hp. unfold updateMasks. rewrite Hdoc.
  rewrite masksLoop_selected, Hsel, patternsLoop_app, Hps.
  cbn [patternsLoop]. by rewrite Hp.
Qed.

Lemma updateMasks_stops_at_invalid_pattern_witness :
  exists this1 w1,
    patternsLoop PassFixtures.literalHost [PassFixtures.literalPattern "a" "x"]
      PassFixtures.onABc Fixtures.lineWindow = Completed this1 w1 /\
    updateMasks PassFixtures.literalHost PassFixtures.brokenMasks PassFixtures.scopedABc
      PassFixtures.onABc Fixtures.lineWindow = Caught (Some (this1, w1)).
Proof.
  eexists _, _. split; [vm_compute; reflexivity|].
  eapply (updateMasks_stops_at_invalid_pattern PassFixtures.literalHost
            PassFixtures.brokenMasks PassFixtures.scopedABc {| getText := "a bc  " |}
            PassFixtures.onABc _ Fixtures.lineWindow _
            [PassFixtures.literalPattern "a" "x"] [PassFixtures.literalPattern "bc" "z"]
            (PassFixtures.literalPattern "(" "w")).
  - reflexivity.
  - reflexivity.
  - vm_compute. reflexivity.
  - reflexivity.
Defined.

(** X18. What a pass keeps: a pass of [updateMasks] that reaches its end
    keeps the cache with one created type per key and the editor without
    a range outside the cache, changes neither the document nor the
    selections of the editor, and takes no type from the window. *)
Theorem updateMasks_keeps_invariants (h : Host) (userMasks : list UserMask)
    (sd : ScopedDocument.t) (this this' : MaskController.t) (w w' : Window) :
  updateMasks h userMasks sd this w = Completed this' w' ->
  (wellFormed this w -> wellFormed this' w') /\
  (tidy this -> tidy this') /\
  (forall e, editor this = Some e ->
     exists e', editor this' = Some e' /\
                document e' = document e /\ selections e' = selections e) /\
  (List.length (decorationTypes w) <= List.length (decorationTypes w'))%nat.
Proof.
  unfold updateMasks. destruct (ScopedDocument.getDocument sd) as [document|].
  - rewrite masksLoop_selected.
    intros (Htidy & Hwf & Hed & Hlen)%patternsLoop_invariant. by split_and!.
  - intros [= <- <-]. split_and!; eauto.
Qed.

Lemma updateMasks_keeps_invariants_witness :
  exists this' w',
    updateMasks PassFixtures.literalHost PassFixtures.userMasks PassFixtures.scopedABc
      PassFixtures.onABc Fixtures.lineWindow = Completed this' w' /\
    ((wellFormed PassFixtures.onABc Fixtures.lineWindow -> wellFormed this' w') /\
     (tidy PassFixtures.onABc -> tidy this') /\
     (forall e, editor PassFixtures.onABc = Some e ->
        exists e', editor this' = Some e' /\
                   document e' = document e /\ selections e' = selections e) /\
     (List.length (decorationTypes Fixtures.lineWindow)
      <= List.length (decorationTypes w'))%nat).
Proof.
  eexists _, _. split; [vm_compute; reflexivity|].
  eapply (updateMasks_keeps_invariants PassFixtures.literalHost PassFixtures.userMasks
            PassFixtures.scopedABc PassFixtures.onABc _ Fixtures.lineWindow _).
  vm_compute. reflexivity.
Defined.

(** X19. A pass with two patterns does not settle: when the first pattern
    of a pass is not the last one and its source is no key of the last
    one, the pass has to create a type for it each time it runs, for the
    pass before has cleared it; the types that the window has created grow
    with every pass. *)
Theorem updateMasks_creates_types_again (h : Host) (userMasks : list UserMask)
    (sd : ScopedDocument.t) (document : TextDocument)
    (this this1 this2 : MaskController.t) (w w1 w2 : Window)
    (q p : Pattern) (ps : list Pattern) (rq rp : RegExp.t) (e : TextEditor) :
  ScopedDocument.getDocument sd = Some document ->
  selected h document userMasks = q :: ps ++ [p] ->
  editor this = Some e ->
  regexOf h q = Some rq -> regexOf h p = Some rp ->
  ~ keyOfCall (RegExp.source rp) (maskOf p) (RegExp.source rq) ->
  updateMasks h userMasks sd this w = Completed this1 w1 ->
  updateMasks h userMasks sd this1 w1 = Completed this2 w2 ->
  (List.length (decorationTypes w1) < List.length (decorationTypes w2))%nat.
Proof.
  intros Hdoc Hsel He Hq Hp Hother. unfold updateMasks. rewrite Hdoc.
  rewrite !masksLoop_selected, Hsel.
  change (q :: ps ++ [p]) with ((q :: ps) ++ [p]). rewrite !patternsLoop_app.
  destruct (patternsLoop h (q :: ps) this w) as [this0 w0|] eqn:Hfirst; [|done].
  destruct (patternsLoop_invariant _ _ _ _ _ _ Hfirst) as (_ & _ & Hed0 & _).
  destruct (Hed0 e He) as (e0 & He0 & _ & _).
  cbn [patternsLoop]. rewrite Hp.
  destruct (apply rp (maskOf p) this0 w0) as [[[r1 this1'] w1']| |] eqn:Hlast;
    [|done|done].
  intros [= <- <-].
  destruct (apply_editor _ _ _ _ _ _ _ _ He0 Hlast) as (e1 & He1 & _ & _).
  assert (Hnone : decorationTypeMap this1' !! RegExp.source rq = None).
  { destruct (decorationTypeMap this1' !! RegExp.source rq) as [type|] eqn:Hk; [|done].
    destruct Hother.
    apply (ShownFacts.apply_cache_keys rp r1 _ this0 this1' w0 w1' e0); eauto. }
  rewrite Hq.
  destruct (apply rq (maskOf q) this1' w1') as [[[r2 this3] w3]| |] eqn:Hagain;
    [|done|done].
  destruct (apply_window _ _ _ _ _ _ _ Hagain) as [_ Hgrow].
  specialize (Hgrow (ex_intro _ e1 He1) Hnone).
  destruct (patternsLoop h ps this3 w3) as [this4 w4|] eqn:Hrest; [|done].
  destruct (patternsLoop_invariant _ _ _ _ _ _ Hrest) as (_ & _ & _ & Hlen4).
  destruct (apply rp (maskOf p) this4 w4) as [[[r5 this5] w5]| |] eqn:Hlast2;
    [|done|done].
  intros [= <- <-].
  destruct (apply_window _ _ _ _ _ _ _ Hlast2) as [Hlen5 _]. lia.
Qed.

Lemma updateMasks_creates_types_again_witness :
  exists this1 w1 this2 w2,
    updateMasks PassFixtures.literalHost PassFixtures.userMasks PassFixtures.scopedABc
      PassFixtures.onABc Fixtures.lineWindow = Completed this1 w1 /\
    updateMasks PassFixtures.literalHost PassFixtures.userMasks PassFixtures.scopedABc
      this1 w1 = Completed this2 w2 /\
    (List.length (decorationTypes w1) < List.length (decorationTypes w2))%nat.
Proof.
  eexists _, _, _, _. split; [vm_compute; reflexivity|].
  split; [vm_compute; reflexivity|].
  eapply (updateMasks_creates_types_again PassFixtures.literalHost PassFixtures.userMasks
            PassFixtures.scopedABc {| getText := "a bc  " |}
            PassFixtures.onABc _ _ Fixtures.lineWindow _ _
            (PassFixtures.literalPattern "a" "x") (PassFixtures.literalPattern "bc" "z") []
            {| RegExp.source := "a"; RegExp.lastIndex := 0;
               RegExp.matcher := Fixtures.literals ["a"] |}
            {| RegExp.source := "bc"; RegExp.lastIndex := 0;
               RegExp.matcher := Fixtures.literals ["bc"] |}
            (Fixtures.editorOn "a bc  " [Fixtures.caret 0 6])).
  - reflexivity.
  - reflexivity.
  - reflexivity.
  - reflexivity.
  - reflexivity.
  - intros [H|(matched & r & H & _)]; discriminate.
  - vm_compute. reflexivity.
  - vm_compute. reflexivity.
Defined.

End PassFacts.

(** ** The types that a call creates *)

Module TypeFacts.
Import Vscode MaskController Notions PassNotions.

Lemma initialize_created (P : string -> DecorationRenderOptions -> Prop)
    (cache0 : gmap string TextEditorDecorationType) (id : string) (mask : Mask.t)
    (this : MaskController.t) (w : Window) :
  P id (renderOptions mask) ->
  (forall key type, cache0 !! key = None -> decorationTypeMap this !! key = Some type ->
     exists options, decorationTypes w !! type = Some options /\ P key options) ->
  forall key type,
    cache0 !! key = None ->
    decorationTypeMap (initialize id mask this w).1 !! key = Some type ->
    exists options,
      decorationTypes (initialize id mask this w).2 !! type = Some options /\ P key options.
Proof.
  intros Hid Hinv key type Hnew. unfold initialize.
  destruct (decorationTypeMap this !! id) eqn:Hcached; [by apply Hinv|].
  cbn [createTextEditorDecorationType setDecorationTypeMap decorationTypeMap
       decorationTypes fst snd].
  destruct (decide (key = id)) as [->|Hne].
  - rewrite lookup_insert_eq. intros [= <-]. exists (renderOptions mask).
    split; [|done]. rewrite lookup_app_r by done. by rewrite Nat.sub_diag.
  - rewrite lookup_insert_ne by done. intros Hk.
    destruct (Hinv key type Hnew Hk) as (options & Hty & HP).
    exists options. split; [by apply lookup_app_l_Some | done].
Qed.

Lemma keyedReplace_Some (matchReplace : option Replace.t) (r : Replace.t) :
  keyedReplace matchReplace = Some r -> matchReplace = Some r /\ Replace.text r <> "".
Proof.
  unfold keyedReplace. destruct matchReplace as [r0|]; [|done].
  destruct (Replace.text r0) as [|ch rest] eqn:Ht; [done|]. cbn.
  intros [= <-]. by rewrite Ht.
Qed.

Lemma decorate_created (c : Site) (m : RegExp.ExecArray) (s : Scan)
    (cache0 : gmap string TextEditorDecorationType) :
  (forall key type, cache0 !! key = None ->
     decorationTypeMap (MaskController.this s) !! key = Some type ->
     exists options, decorationTypes (window s) !! type = Some options /\
                     createdWith (RegExp.source (pattern s)) (site_mask c) key options) ->
  forall key type, cache0 !! key = None ->
    decorationTypeMap (MaskController.this (decorate c m s)) !! key = Some type ->
    exists options,
      decorationTypes (window (decorate c m s)) !! type = Some options /\
      createdWith (RegExp.source (pattern s)) (site_mask c) key options.
Proof.
  intros Hinv. pose proof (ScanFacts.decorate_state c m s) as Hst.
  rewrite (surjective_pairing (_, _)) in Hst. cbn [fst snd] in Hst.
  destruct (keyedReplace (replaceOf c m)) as [r|] eqn:Hr.
  2:{ revert Hst. by intros [= -> ->]. }
  destruct (bool_decide _).
  { revert Hst. by intros [= -> ->]. }
  rewrite (surjective_pairing (initialize _ _ _ _)) in Hst.
  revert Hst. intros [= -> ->].
  apply initialize_created; [|done].
  right. apply keyedReplace_Some in Hr as [Hm Ht].
  exists (RegExp.matched m), r. split_and!; try done.
  unfold keyOf, decorationKeyOf. rewrite Hm. unfold keyedReplace.
  assert (JS.truthy (Some (Replace.text r)) = true) as ->
    by (by destruct (Replace.text r)).
  done.
Qed.

Lemma decorateAll_created (c : Site) (ms : list RegExp.ExecArray)
    (cache0 : gmap string TextEditorDecorationType) :
  forall s,
    (forall key type, cache0 !! key = None ->
       decorationTypeMap (MaskController.this s) !! key = Some type ->
       exists options, decorationTypes (window s) !! type = Some options /\
                       createdWith (RegExp.source (pattern s)) (site_mask c) key options) ->
    forall key type, cache0 !! key = None ->
      decorationTypeMap (MaskController.this (decorateAll c ms s)) !! key = Some type ->
      exists options,
        decorationTypes (window (decorateAll c ms s)) !! type = Some options /\
        createdWith (RegExp.source (pattern s)) (site_mask c) key options.
Proof.
  induction ms as [|m ms IH]; intros s Hinv; [done|].
  rewrite ScanFacts.decorateAll_cons.
  rewrite <- (ScanFacts.decorate_pattern c m s). apply IH.
  rewrite ScanFacts.decorate_pattern. by apply decorate_created.
Qed.

Lemma initialize_fresh (n : nat) (id : string) (mask : Mask.t)
    (this : MaskController.t) (w : Window) :
  (n <= List.length (decorationTypes w))%nat ->
  (forall key type, decorationTypeMap this !! key = Some type -> (n <= type)%nat) ->
  (n <= List.length (decorationTypes (initialize id mask this w).2))%nat /\
  forall key type,
    decorationTypeMap (initialize id mask this w).1 !! key = Some type -> (n <= type)%nat.
Proof.
  intros Hn Hinv. unfold initialize.
  destruct (decorationTypeMap this !! id) eqn:Hcached; [done|].
  cbn [createTextEditorDecorationType setDecorationTypeMap decorationTypeMap
       decorationTypes fst snd].
  rewrite length_app. split; [lia|]. intros key type.
  destruct (decide (key = id)) as [->|Hne].
  - rewrite lookup_insert_eq. by intros [= <-].
  - rewrite lookup_insert_ne by done. apply Hinv.
Qed.

Lemma decorateAll_fresh (c : Site) (ms : list RegExp.ExecArray) (n : nat) :
  forall s,
    ((n <= List.length (decorationTypes (window s)))%nat /\
     forall key type,
       decorationTypeMap (MaskController.this s) !! key = Some type -> (n <= type)%nat) ->
    (n <= List.length (decorationTypes (window (decorateAll c ms s))))%nat /\
    forall key type,
      decorationTypeMap (MaskController.this (decorateAll c ms s)) !! key = Some type ->
      (n <= type)%nat.
Proof.
  induction ms as [|m ms IH]; intros s Hinv; [done|].
  rewrite ScanFacts.decorateAll_cons. apply IH.
  pose proof (ScanFacts.decorate_state c m s) as Hst.
  rewrite (surjective_pairing (_, _)) in Hst. cbn [fst snd] in Hst.
  destruct (keyedReplace (replaceOf c m)) as [r|].
  2:{ revert Hst. by intros [= -> ->]. }
  destruct (bool_decide _).
  { revert Hst. by intros [= -> ->]. }
  rewrite (surjective_pairing (initialize _ _ _ _)) in Hst.
  revert Hst. intros [= -> ->].
  destruct Hinv as [Hn Hall]. by apply initialize_fresh.
Qed.

Lemma apply_created (pattern r' : RegExp.t) (mask : Mask.t)
    (this this' : MaskController.t) (w w' : Window) (e : TextEditor)
    (key : string) (type : TextEditorDecorationType) :
  editor this = Some e ->
  apply pattern mask this w = JS.Returns (r', this', w') ->
  decorationTypeMap this !! key = None ->
  decorationTypeMap this' !! key = Some type ->
  exists options,
    decorationTypes w' !! type = Some options /\
    createdWith (RegExp.source pattern) mask key options.
Proof.
  intros He Happly Hnew Hk.
  destruct (ApplyFacts.apply_inv _ _ _ _ _ _ _ _ He Happly) as (s & Hscan & _ & -> & ->).
  rewrite ApplyFacts.commit_types in Hk.
  destruct (kept (RegExp.source pattern) (matchReplaceKeys s) key); [|done].
  destruct (ApplyFacts.scanOf_inv _ _ _ _ _ _ Hscan) as [_ Hs]. rewrite Hs in Hk |- *.
  cbn [setPattern MaskController.this window] in Hk |- *.
  destruct (decorateAll_created (siteOf mask this w e)
              (decoratedMatches pattern mask this w e) (decorationTypeMap this)
              (scanStart pattern mask this w)) with (key := key) (type := type)
    as (options & Hty & Hcreated); try done.
  { cbn [scanStart MaskController.this window MaskController.pattern siteOf site_mask].
    apply initialize_created; [by left|]. intros k t Hnone Hsome. congruence. }
  cbn [scanStart MaskController.pattern siteOf site_mask] in Hcreated.
  by exists options.
Qed.

(** X20. A type that a call of [apply] creates is created with the
    options of its mask: a key that was not cached before a call on an
    editor and is cached after it has a type of the window whose options
    are those of the mask of the call, for the source of the pattern, or
    those of an entry of the replacement map, for the source, the separator
    and the text of that entry; and a type of the second kind hides the
    symbol and shows that text in front of it. *)
Theorem apply_creates_with_mask (pattern r' : RegExp.t) (mask : Mask.t)
    (this this' : MaskController.t) (w w' : Window) (e : TextEditor)
    (key : string) (type : TextEditorDecorationType) :
  editor this = Some e ->
  apply pattern mask this w = JS.Returns (r', this', w') ->
  decorationTypeMap this !! key = None ->
  decorationTypeMap this' !! key = Some type ->
  exists options,
    decorationTypes w' !! type = Some options /\
    createdWith (RegExp.source pattern) mask key options /\
    (key <> RegExp.source pattern ->
     exists text, text <> "" /\ key = RegExp.source pattern +:+ "@@@" +:+ text /\
                  contentText (before options) = Some text /\
                  textDecoration options = "none; display: none").
Proof.
  intros He Happly Hnew Hk.
  destruct (apply_created _ _ _ _ _ _ _ _ _ _ He Happly Hnew Hk)
    as (options & Hty & Hcreated).
  exists options. split_and!; try done.
  intros Hne. destruct Hcreated as [[-> _]|(matched & r & _ & Ht & -> & ->)]; [done|].
  exists (Replace.text r). split_and!; try done.
  cbn. unfold Mask.textTruthy. cbn. by destruct (Replace.text r).
Qed.

Lemma apply_creates_with_mask_witness :
  exists r' this' w',
    apply Fixtures.ab (Fixtures.abMask None None) Fixtures.plainOnA Fixtures.lineWindow
    = JS.Returns (r', this', w') /\
    exists options,
      decorationTypes w' !! 1%nat = Some options /\
      createdWith (RegExp.source Fixtures.ab) (Fixtures.abMask None None)
        "(a|b)@@@x" options /\
      ("(a|b)@@@x" <> RegExp.source Fixtures.ab ->
       exists text, text <> "" /\ "(a|b)@@@x" = RegExp.source Fixtures.ab +:+ "@@@" +:+ text /\
                    contentText (before options) = Some text /\
                    textDecoration options = "none; display: none").
Proof.
  eexists _, _, _. split; [vm_compute; reflexivity|].
  eapply (apply_creates_with_mask Fixtures.ab _ (Fixtures.abMask None None)
            Fixtures.plainOnA _ Fixtures.lineWindow _ Fixtures.editorOnA "(a|b)@@@x" 1%nat).
  - reflexivity.
  - vm_compute. reflexivity.
  - reflexivity.
  - vm_compute. reflexivity.
Defined.

(** X21. After [clear], a call of [apply] starts anew: every key that is
    cached after a call on the cleared controller has a type that this call
    created, with the options of the mask of this call or of an entry of
    its replacement map; nothing of the options that a key had before
    [clear] is left, as when the configuration has changed. *)
Theorem apply_after_clear_uses_mask (pattern r' : RegExp.t) (mask : Mask.t)
    (this this' : MaskController.t) (w w' : Window) (e : TextEditor)
    (key : string) (type : TextEditorDecorationType) :
  editor this = Some e ->
  apply pattern mask (clear this) w = JS.Returns (r', this', w') ->
  decorationTypeMap this' !! key = Some type ->
  (List.length (decorationTypes w) <= type)%nat /\
  exists options,
    decorationTypes w' !! type = Some options /\
    createdWith (RegExp.source pattern) mask key options.
Proof.
  intros He Happly Hk.
  assert (exists e0, editor (clear this) = Some e0) as [e0 He0].
  { unfold clear. rewrite He. cbn. eauto. }
  assert (Hnone : forall k, decorationTypeMap (clear this) !! k = None)
    by (intros k; cbn; apply lookup_empty).
  split; [|by apply (apply_created pattern r' mask (clear this) this' w w' e0)].
  pose proof (MaskControllerFacts.wellFormed_clear this w) as Hwf.
  destruct (ApplyFacts.apply_inv _ _ _ _ _ _ _ _ He0 Happly) as (s & Hscan & _ & -> & _).
  rewrite ApplyFacts.commit_types in Hk.
  destruct (kept (RegExp.source pattern) (matchReplaceKeys s) key); [|done].
  destruct (ApplyFacts.scanOf_inv _ _ _ _ _ _ Hscan) as [_ Hs]. rewrite Hs in Hk.
  cbn [setPattern MaskController.this] in Hk.
  destruct (decorateAll_fresh (siteOf mask (clear this) w e0)
              (decoratedMatches pattern mask (clear this) w e0)
              (List.length (decorationTypes w))
              (scanStart pattern mask (clear this) w)) as [_ Hfresh].
  - cbn [scanStart MaskController.this window]. apply initialize_fresh; [done|].
    intros k t. by rewrite Hnone.
  - by apply (Hfresh key).
Qed.

Lemma apply_after_clear_uses_mask_witness :
  exists r' this' w',
    apply Fixtures.abc (Fixtures.plain (Mask.Literal "other") None)
      (clear Fixtures.afterAbc) Fixtures.afterAbcWindow
    = JS.Returns (r', this', w') /\
    ((List.length (decorationTypes Fixtures.afterAbcWindow) <= 1)%nat /\
     exists options,
       decorationTypes w' !! 1%nat = Some options /\
       createdWith (RegExp.source Fixtures.abc)
         (Fixtures.plain (Mask.Literal "other") None) "abc" options).
Proof.
  eexists _, _, _. split; [vm_compute; reflexivity|].
  eapply (apply_after_clear_uses_mask Fixtures.abc _
            (Fixtures.plain (Mask.Literal "other") None)
            Fixtures.afterAbc _ Fixtures.afterAbcWindow _ Fixtures.editorOnA "abc" 1%nat).
  - reflexivity.
  - vm_compute. reflexivity.
  - vm_compute. reflexivity.
Defined.

End TypeFacts.
